(** * Skill-gap analysis engine: a shallow embedding and its properties

    The development follows the Python sources of the analyzer:

    - [models/skill.py], [models/resume.py], [models/job.py] and
      [models/analysis_result.py] (the data model),
    - [services/skill_analyzer.py] (gap identification, vocabulary,
      simple-overlap fallback),
    - [services/learning_path_generator.py] (the 4-week plan),
    - [services/skill_extractor.py] (the extraction entry point).

    Python objects that are shared and mutated in place ([Skill] instances
    and the lists that hold them) live in an explicit store; code that only
    reads its arguments is written over plain values.  The embedding comes
    first, then the notions the statements use, then the properties. *)

From Stdlib Require Import Ascii String ZArith QArith Qround Qabs Lqa.
From stdpp Require Import base option list sorting gmap strings.

Local Open Scope Z_scope.
Local Open Scope string_scope.
Local Open Scope list_scope.

(* ===================================================================== *)
(** * Strings: the ASCII fragment of [str.lower], [str.strip], [str.title] *)
(* ===================================================================== *)

Module PyStr.

Definition code (c : ascii) : N := N_of_ascii c.

  (** [c.isupper()] and [c.islower()] on ASCII letters; every other
      character is uncased. *)
Definition is_upper (c : ascii) : bool :=
    (65 <=? code c)%N && (code c <=? 90)%N.
Definition is_lower (c : ascii) : bool :=
    (97 <=? code c)%N && (code c <=? 122)%N.
Definition is_cased (c : ascii) : bool := is_upper c || is_lower c.

  (** Whitespace as [str.strip()] sees it: TAB..CR, FS..US and SPACE. *)
Definition is_space (c : ascii) : bool :=
    ((9 <=? code c)%N && (code c <=? 13)%N)
    || ((28 <=? code c)%N && (code c <=? 32)%N).

Definition to_lower (c : ascii) : ascii :=
    if is_upper c then ascii_of_N (code c + 32) else c.
Definition to_upper (c : ascii) : ascii :=
    if is_lower c then ascii_of_N (code c - 32) else c.

  (** [s.lower()] *)
Fixpoint lower (s : string) : string :=
    match s with
    | EmptyString => EmptyString
    | String c r => String (to_lower c) (lower r)
    end.

  (** [s.lstrip()], [s.rstrip()] and [s.strip()] *)
Fixpoint lstrip (s : string) : string :=
    match s with
    | EmptyString => EmptyString
    | String c r => if is_space c then lstrip r else s
    end.

Fixpoint rstrip (s : string) : string :=
    match s with
    | EmptyString => EmptyString
    | String c r =>
        match rstrip r with
        | EmptyString => if is_space c then EmptyString else String c EmptyString
        | r' => String c r'
        end
    end.

Definition strip (s : string) : string := lstrip (rstrip s).

  (** [s.title()]: a cased character is upper-cased when the character
      before it is uncased (or there is none) and lower-cased otherwise. *)
Fixpoint title_from (prev_cased : bool) (s : string) : string :=
    match s with
    | EmptyString => EmptyString
    | String c r =>
        if is_cased c
        then String (if prev_cased then to_lower c else to_upper c)
                    (title_from true r)
        else String c (title_from false r)
    end.

Definition title (s : string) : string := title_from false s.

  (** [", ".join(parts)] and friends *)
Fixpoint join (sep : string) (parts : list string) : string :=
    match parts with
    | [] => EmptyString
    | [p] => p
    | p :: rest => p +:+ sep +:+ join sep rest
    end.

  (** [c * n] for a one-character string [c] *)
Fixpoint repeat_str (s : string) (n : nat) : string :=
    match n with
    | O => EmptyString
    | S k => s +:+ repeat_str s k
    end.

  (** [str(n)] for a non-negative integer *)
Definition digit (d : nat) : ascii := ascii_of_nat (48 + d).

Fixpoint str_nat_fuel (fuel n : nat) (acc : string) : string :=
    match fuel with
    | O => acc
    | S f =>
        let acc' := String (digit (n mod 10)) acc in
        if (n / 10 =? 0)%nat then acc' else str_nat_fuel f (n / 10) acc'
    end.

Definition str_nat (n : nat) : string := str_nat_fuel (S n) n EmptyString.

  (** [str(z)] for an integer *)
Definition str_int (z : Z) : string :=
    if (z <? 0)%Z then String "-" (str_nat (Z.abs_nat z)) else str_nat (Z.abs_nat z).

  (** the newline character *)
Definition nl : string := String (ascii_of_nat 10) EmptyString.

  (** [lst[start:end]] for non-negative bounds *)
Definition slice {A} (start stop : nat) (l : list A) : list A :=
    take (stop - start) (drop start l).

(** No whitespace at the front, respectively at the back. *)
Definition no_lead (s : string) : Prop :=
  match s with
  | EmptyString => True
  | String c _ => is_space c = false
  end.

Fixpoint no_trail (s : string) : Prop :=
  match s with
  | EmptyString => True
  | String c EmptyString => is_space c = false
  | String _ r => no_trail r
  end.

(** ** Free text: code points and Unicode whitespace

    A [str] is held as its UTF-8 encoding.  The functions above work byte
    by byte, which is what Python does on ASCII strings, the names of the
    class tables.  Resume text is free text: [len] and [strip_text] are
    [len(s)] and [s.strip()] on any text. *)

(** Every byte is below 128. *)
Fixpoint is_ascii (s : string) : bool :=
  match s with
  | EmptyString => true
  | String c r => (code c <? 128)%N && is_ascii r
  end.

(** A continuation byte [10xxxxxx] of a multi-byte code point. *)
Definition is_continuation (c : ascii) : bool :=
  (128 <=? code c)%N && (code c <=? 191)%N.

(** [len(s)]: the number of code points, one per byte that is not a
    continuation byte. *)
Fixpoint len (s : string) : nat :=
  match s with
  | EmptyString => O
  | String c r => if is_continuation c then len r else S (len r)
  end.

(** The string of the bytes [bs]. *)
Definition of_bytes (bs : list N) : string :=
  foldr (λ b s, String (ascii_of_N b) s) EmptyString bs.

(** The characters [str.strip()] removes, those with [c.isspace()], in
    UTF-8: U+0009..U+000D, U+001C..U+0020, U+0085, U+00A0, U+1680,
    U+2000..U+200A, U+2028, U+2029, U+202F, U+205F and U+3000. *)
Definition whitespace : list string :=
  map of_bytes
    [[9]; [10]; [11]; [12]; [13]; [28]; [29]; [30]; [31]; [32];
     [194; 133]; [194; 160];
     [225; 154; 128];
     [226; 128; 128]; [226; 128; 129]; [226; 128; 130]; [226; 128; 131];
     [226; 128; 132]; [226; 128; 133]; [226; 128; 134]; [226; 128; 135];
     [226; 128; 136]; [226; 128; 137]; [226; 128; 138];
     [226; 128; 168]; [226; 128; 169]; [226; 128; 175];
     [226; 129; 159];
     [227; 128; 128]]%N.

(** [s[n:]] and [s[:n]] on bytes *)
Fixpoint skip (n : nat) (s : string) : string :=
  match n, s with
  | O, _ => s
  | S _, EmptyString => EmptyString
  | S k, String _ r => skip k r
  end.

Fixpoint keep (n : nat) (s : string) : string :=
  match n, s with
  | O, _ => EmptyString
  | S _, EmptyString => EmptyString
  | S k, String c r => String c (keep k r)
  end.

(** [s.startswith(w)] and [s.endswith(w)] *)
Definition starts_with (w s : string) : bool :=
  String.eqb (keep (String.length w) s) w.

Definition ends_with (w s : string) : bool :=
  (String.length w <=? String.length s)%nat
  && String.eqb (skip (String.length s - String.length w) s) w.

(** The number of bytes of the whitespace character [s] starts with,
    respectively ends with; 0 when there is none. *)
Definition lead_space (s : string) : nat :=
  match List.find (λ w, starts_with w s) whitespace with
  | Some w => String.length w
  | None => O
  end.

Definition trail_space (s : string) : nat :=
  match List.find (λ w, ends_with w s) whitespace with
  | Some w => String.length w
  | None => O
  end.

(** [s.lstrip()], [s.rstrip()] and [s.strip()] on any text: whitespace
    characters are removed one at a time, at most one per byte. *)
Fixpoint lstrip_text_loop (fuel : nat) (s : string) : string :=
  match fuel with
  | O => s
  | S f =>
      match lead_space s with
      | O => s
      | n => lstrip_text_loop f (skip n s)
      end
  end.

Definition lstrip_text (s : string) : string :=
  lstrip_text_loop (String.length s) s.

Fixpoint rstrip_text_loop (fuel : nat) (s : string) : string :=
  match fuel with
  | O => s
  | S f =>
      match trail_space s with
      | O => s
      | n => rstrip_text_loop f (keep (String.length s - n) s)
      end
  end.

Definition rstrip_text (s : string) : string :=
  rstrip_text_loop (String.length s) s.

Definition strip_text (s : string) : string := lstrip_text (rstrip_text s).

End PyStr.

(* ===================================================================== *)
(** * The data model ([models/skill.py]) *)
(* ===================================================================== *)

(** [@dataclass class Skill]: the four fields of the dataclass. *)
Record Skill := mkSkill {
  name : string;
  category : string;
  is_technical : bool;
  frequency : Z
}.

(** [Skill.__init__] followed by [__post_init__]:
    [self.name = self.name.strip().title()]. *)
Definition Skill_init (n c : string) (t : bool) (f : Z) : Skill :=
  mkSkill (PyStr.title (PyStr.strip n)) c t f.

Definition set_frequency (f : Z) (s : Skill) : Skill :=
  mkSkill (name s) (category s) (is_technical s) f.

(** The value left by [increment_frequency]: [self.frequency += 1]. *)
Definition incremented (s : Skill) : Skill := set_frequency (frequency s + 1) s.

(** The key every comparison uses: [skill.name.lower()]. *)
Definition key (s : Skill) : string := PyStr.lower (name s).

(** [Skill.matches] on two values:
    [self.name.lower() == other.name.lower()]. *)
Definition matches_val (a b : Skill) : bool := bool_decide (key a = key b).

(** A name as [__post_init__] leaves it has no surrounding whitespace. *)
Definition trimmed (s : Skill) : Prop := PyStr.strip (name s) = name s.

(* ===================================================================== *)
(** * The object store *)
(* ===================================================================== *)

(** References to [Skill] objects and to Python lists of such references.
    Both kinds of object are allocated at the end of their table, so a
    reference is the index of its object. *)
Abbreviation loc := nat (only parsing).
Abbreviation lref := nat (only parsing).

Record store := mkStore {
  skill_objs : list Skill;
  list_objs : list (list loc)
}.

(** Computations over the store.  [None] only arises from a reference that
    is not in the store, which Python cannot produce. *)
Definition M (A : Type) : Type := store → option (A * store).

Definition ret {A} (a : A) : M A := λ st, Some (a, st).

Definition bind {A B} (m : M A) (f : A → M B) : M B :=
  λ st, match m st with
        | Some (a, st') => f a st'
        | None => None
        end.

Notation "'let*' x := m 'in' k" := (bind m (λ x, k))
  (at level 10, x name, m at level 100, k at level 200).

Definition read_skill (l : loc) : M Skill :=
  λ st, match skill_objs st !! l with
        | Some s => Some (s, st)
        | None => None
        end.

Definition write_skill (l : loc) (s : Skill) : M unit :=
  λ st, match skill_objs st !! l with
        | Some _ => Some (tt, mkStore (<[l := s]> (skill_objs st)) (list_objs st))
        | None => None
        end.

Definition alloc_skill (s : Skill) : M loc :=
  λ st, Some (length (skill_objs st),
              mkStore (skill_objs st ++ [s]) (list_objs st)).

Definition read_list (r : lref) : M (list loc) :=
  λ st, match list_objs st !! r with
        | Some xs => Some (xs, st)
        | None => None
        end.

(** [lst.append(x)] *)
Definition list_append (r : lref) (x : loc) : M unit :=
  λ st, match list_objs st !! r with
        | Some xs => Some (tt, mkStore (skill_objs st) (<[r := xs ++ [x]]> (list_objs st)))
        | None => None
        end.

(** [list()], a fresh empty list object *)
Definition alloc_list : M lref :=
  λ st, Some (length (list_objs st),
              mkStore (skill_objs st) (list_objs st ++ [[]])).

(** The [Skill] values a list object holds, in order. *)
Definition deref (st : store) (xs : list loc) : option (list Skill) :=
  mapM (λ l, skill_objs st !! l) xs.

Definition contents (st : store) (r : lref) : option (list Skill) :=
  xs ← list_objs st !! r; deref st xs.

(** ** Methods of [Skill] on stored objects *)

(** [Skill(name=..., category=..., is_technical=..., frequency=...)] *)
Definition Skill_new (n c : string) (t : bool) (f : Z) : M loc :=
  alloc_skill (Skill_init n c t f).

(** [self.frequency += 1] *)
Definition increment_frequency (self : loc) : M unit :=
  let* s := read_skill self in
  write_skill self (incremented s).

(** [self.name.lower() == other.name.lower()] *)
Definition matches (self other : loc) : M bool :=
  let* a := read_skill self in
  let* b := read_skill other in
  ret (matches_val a b).

(* ===================================================================== *)
(** * [models/resume.py], [models/job.py] *)
(* ===================================================================== *)

Inductive FileType := PDF | IMAGE | UNKNOWN.

Record Resume := mkResume {
  filename : string;
  file_type : FileType;
  extracted_text : string;
  skills : lref
}.

Record Job := mkJob {
  title : string;
  company : string;
  description : string;
  required_skills : lref
}.

(** The loop shared by [Resume.add_skill], [Job.add_required_skill] and
    [AnalysisResult.add_missing_skill]:
<<
    for existing in lst:
        if existing.matches(skill):
            existing.increment_frequency()
            return
>>
    The result tells whether the [return] was taken. *)
Fixpoint increment_first_match (xs : list loc) (skill : loc) : M bool :=
  match xs with
  | [] => ret false
  | existing :: rest =>
      let* m := matches existing skill in
      if m then (let* _ := increment_frequency existing in ret true)
      else increment_first_match rest skill
  end.

(** [Resume.add_skill] *)
Definition add_skill (self : Resume) (skill : loc) : M unit :=
  let* xs := read_list (skills self) in
  let* returned := increment_first_match xs skill in
  if returned then ret tt
  else list_append (skills self) skill.

(** [Job.add_required_skill] *)
Definition add_required_skill (self : Job) (skill : loc) : M unit :=
  let* xs := read_list (required_skills self) in
  let* returned := increment_first_match xs skill in
  if returned then ret tt
  else list_append (required_skills self) skill.

(* ===================================================================== *)
(** * [models/analysis_result.py] *)
(* ===================================================================== *)

Record AnalysisResult := mkAnalysisResult {
  resume : Resume;
  analyzed_jobs : list Job;
  matching_skills : lref;
  missing_skills : lref
}.

(** [any(s.matches(skill) for s in lst)], stopping at the first [True]. *)
Fixpoint any_matches (xs : list loc) (skill : loc) : M bool :=
  match xs with
  | [] => ret false
  | s :: rest =>
      let* m := matches s skill in
      if m then ret true else any_matches rest skill
  end.

(** [AnalysisResult.add_matching_skill] *)
Definition add_matching_skill (self : AnalysisResult) (skill : loc) : M unit :=
  let* xs := read_list (matching_skills self) in
  let* dup := any_matches xs skill in
  if negb dup then list_append (matching_skills self) skill
  else ret tt.

(** [AnalysisResult.add_missing_skill] *)
Definition add_missing_skill (self : AnalysisResult) (skill : loc) : M unit :=
  let* xs := read_list (missing_skills self) in
  let* returned := increment_first_match xs skill in
  if returned then ret tt
  else
    let* s := read_skill skill in
    let* _ := write_skill skill (set_frequency 1 s) in
    list_append (missing_skills self) skill.

(** [AnalysisResult(resume=resume, analyzed_jobs=jobs)]: the two skill
    lists come from [field(default_factory=list)]. *)
Definition AnalysisResult_new (r : Resume) (jobs : list Job) : M AnalysisResult :=
  let* ms := alloc_list in
  let* mis := alloc_list in
  ret (mkAnalysisResult r jobs ms mis).

(* ===================================================================== *)
(** * [services/skill_analyzer.py]: gap identification *)
(* ===================================================================== *)

(** A Python [dict] with string keys, in insertion order. *)
Abbreviation pydict V := (list (string * V)) (only parsing).

(** [d.get(k)] *)
Fixpoint dict_get {V} (d : pydict V) (k : string) : option V :=
  match d with
  | [] => None
  | (k', v) :: rest => if decide (k' = k) then Some v else dict_get rest k
  end.

(** [d[k] = v]: an existing key keeps its position. *)
Fixpoint dict_set {V} (d : pydict V) (k : string) (v : V) : pydict V :=
  match d with
  | [] => [(k, v)]
  | (k', v') :: rest =>
      if decide (k' = k) then (k, v) :: rest else (k', v') :: dict_set rest k v
  end.

(** [all_job_skills: Dict[str, Skill]] *)
Abbreviation dict := (pydict loc) (only parsing).

(** One pass of the inner loop body of [_identify_skill_gaps]. *)
Definition collect_skill (d : dict) (skill : loc) : M dict :=
  let* s := read_skill skill in
  let skill_name_lower := PyStr.lower (name s) in
  match dict_get d skill_name_lower with
  | None =>
      let* l := Skill_new (name s) (category s) (is_technical s) 1 in
      ret (d ++ [(skill_name_lower, l)])
  | Some l =>
      let* _ := increment_frequency l in
      ret d
  end.

(** [for skill in job.required_skills: ...] *)
Fixpoint collect_skills (d : dict) (xs : list loc) : M dict :=
  match xs with
  | [] => ret d
  | skill :: rest => let* d' := collect_skill d skill in collect_skills d' rest
  end.

(** [for job in jobs: for skill in job.required_skills: ...] *)
Fixpoint collect_jobs (d : dict) (jobs : list Job) : M dict :=
  match jobs with
  | [] => ret d
  | job :: rest =>
      let* xs := read_list (required_skills job) in
      let* d' := collect_skills d xs in
      collect_jobs d' rest
  end.

(** [{skill.name.lower() for skill in resume.skills}] *)
Fixpoint name_set (xs : list loc) : M (gset string) :=
  match xs with
  | [] => ret ∅
  | skill :: rest =>
      let* s := read_skill skill in
      let* names := name_set rest in
      ret ({[ PyStr.lower (name s) ]} ∪ names)
  end.

(** [for skill_name_lower, job_skill in all_job_skills.items(): ...] *)
Fixpoint categorize (items : dict) (user_skill_names : gset string)
    (result : AnalysisResult) : M unit :=
  match items with
  | [] => ret tt
  | (skill_name_lower, job_skill) :: rest =>
      let* _ := (if decide (skill_name_lower ∈ user_skill_names)
                 then add_matching_skill result job_skill
                 else add_missing_skill result job_skill) in
      categorize rest user_skill_names result
  end.

(** [SkillAnalyzer._identify_skill_gaps] *)
Definition _identify_skill_gaps (r : Resume) (jobs : list Job)
    (result : AnalysisResult) : M unit :=
  let* all_job_skills := collect_jobs [] jobs in
  let* xs := read_list (skills r) in
  let* user_skill_names := name_set xs in
  categorize all_job_skills user_skill_names result.

(** The gap identifier as [analyze_skills] runs it: on a result object
    created for this analysis. *)
Definition identify_gaps (r : Resume) (jobs : list Job) : M AnalysisResult :=
  let* result := AnalysisResult_new r jobs in
  let* _ := _identify_skill_gaps r jobs result in
  ret result.

(* ===================================================================== *)
(** * Code that only reads skill collections *)
(* ===================================================================== *)

(** The functions below never write to a [Skill] or to a list; they are
    written over the values a collection holds (what [contents] returns):
    a resume is seen as [resume.skills] and a job as
    [job.required_skills]. *)

(** ** Python floats

    The analyzer produces its percentage with float arithmetic
    ([int / int], [float * int], [round(x, 2)]) and the plan prints floats
    with [str()].  The operations are an interface. *)
Class PyFloat := {
  float : Type;
  (** the literal [0.0] *)
  fzero : float;
  (** [float(n)] *)
  of_int : Z → float;
  (** [m / n] on integers (true division) *)
  truediv : Z → Z → float;
  (** [x * k] for an integer [k] *)
  mul_int : float → Z → float;
  (** [round(x, ndigits)] *)
  round_ndigits : float → Z → float;
  (** [x <= y] *)
  fle : float → float → Prop;
  (** [str(x)], as an f-string prints it *)
  str_float : float → string;
  (** [bool(x)] *)
  float_truthy : float → bool
}.

(** ** [SkillAnalyzer._create_master_skill_list] *)

(** [for skill in skills: all_skills.add(skill.name.lower())] *)
Definition add_names (all_skills : gset string) (skills : list Skill) : gset string :=
  foldl (λ acc skill, acc ∪ {[ PyStr.lower (name skill) ]}) all_skills skills.

(** [for job in jobs: for skill in job.required_skills: ...] *)
Definition add_job_names (all_skills : gset string) (jobs : list (list Skill)) : gset string :=
  foldl add_names all_skills jobs.

(** [sorted(xs)] on strings: ascending, by code point. *)
Definition sorted (xs : list string) : list string := merge_sort String.le xs.

Definition _create_master_skill_list (resume_skills : list Skill)
    (jobs : list (list Skill)) : list string :=
  let all_skills := add_names ∅ resume_skills in
  let all_skills := add_job_names all_skills jobs in
  sorted (elements all_skills).

(** ** [SkillAnalyzer._calculate_simple_overlap] *)

Definition _calculate_simple_overlap `{PyFloat} (resume_skills : list Skill)
    (jobs : list (list Skill)) : float :=
  match jobs with
  | [] => fzero
  | _ =>
      let all_required_skills := add_job_names ∅ jobs in
      if decide (all_required_skills = ∅) then fzero
      else
        let user_skills : gset string :=
          list_to_set (map (λ skill, PyStr.lower (name skill)) resume_skills) in
        let matching_count := size (all_required_skills ∩ user_skills) in
        let match_percentage :=
          mul_int (truediv (Z.of_nat matching_count)
                           (Z.of_nat (size all_required_skills))) 100 in
        round_ndigits match_percentage 2
  end.

(** ** The overlap counts, as the specification words them

    The distinct lowercased names the jobs require, and those of them that
    are among the resume's lowercased names; [_calculate_simple_overlap]
    is compared with these. *)
Definition required_names (jobs : list (list Skill)) : list string :=
  remove_dups (map key (concat jobs)).

Definition required_names_held (resume_skills : list Skill)
    (jobs : list (list Skill)) : list string :=
  filter (λ k, k ∈ map key resume_skills) (required_names jobs).

(* ===================================================================== *)
(** * [models/learning_resource.py] *)
(* ===================================================================== *)

Inductive Platform :=
  UDEMY | COURSERA | YOUTUBE | PLURALSIGHT | LINKEDIN_LEARNING | EDEX
| FREECODECAMP | OTHER.

Definition Platform_value (p : Platform) : string :=
  match p with
  | UDEMY => "Udemy" | COURSERA => "Coursera" | YOUTUBE => "YouTube"
  | PLURALSIGHT => "Pluralsight" | LINKEDIN_LEARNING => "LinkedIn Learning"
  | EDEX => "edX" | FREECODECAMP => "freeCodeCamp" | OTHER => "Other"
  end.

Inductive DifficultyLevel := BEGINNER | INTERMEDIATE | ADVANCED | ALL_LEVELS.

Definition DifficultyLevel_value (d : DifficultyLevel) : string :=
  match d with
  | BEGINNER => "Beginner" | INTERMEDIATE => "Intermediate"
  | ADVANCED => "Advanced" | ALL_LEVELS => "All Levels"
  end.

Record LearningResource `{PyFloat} := mkLearningResource {
  skill_name : string;
  resource_title : string;
  resource_url : string;
  platform : Platform;
  duration_weeks : Z;
  difficulty_level : DifficultyLevel;
  (** the field [description] *)
  resource_description : option string;
  rating : option float;
  price : string
}.

(** A row of the [learning_resources] table, as [sqlite3.Row]. *)
Record Row `{PyFloat} := mkRow {
  row_skill_name : string;
  row_resource_title : string;
  row_resource_url : string;
  row_platform : string;
  row_duration_weeks : option Z;
  row_difficulty_level : string;
  row_description : option string;
  row_rating : option float;
  row_price : option string
}.

(* ===================================================================== *)
(** * [services/learning_path_generator.py] *)
(* ===================================================================== *)

Section LearningPathGenerator.
Context `{PyFloat}.

  (** [self.db.get_learning_resources_by_skill(skill_name, limit)]: the
      rows found, or the message of the exception it raised. *)
Variable db : string → Z → string + list Row.
  (** [datetime.now().strftime('%Y-%m-%d %H:%M')] *)
Variable now : string.

  (** The fields of an [AnalysisResult] the generator reads or extends,
    with [missing_skills] by value. *)
Record ResultView := mkResultView {
    match_percentage : float;
    view_missing_skills : list Skill;
    recommended_resources : list LearningResource
  }.

  (** Computations that query the resource catalog: the calls made so far
      are threaded through, and an exception ends the computation. *)
Definition G (A : Type) : Type :=
    list (string * Z) → (string + A) * list (string * Z).

Definition gret {A} (a : A) : G A := λ calls, (inr a, calls).

Definition gbind {A B} (m : G A) (f : A → G B) : G B :=
    λ calls, match m calls with
             | (inr a, calls') => f a calls'
             | (inl e, calls') => (inl e, calls')
             end.

Definition lookup_resources (skill_name : string) (limit : Z) : G (list Row) :=
    λ calls, (db skill_name limit, calls ++ [(skill_name, limit)]).

  (** [_prioritize_skills]: [skills[:max_skills]] *)
Definition _prioritize_skills (skills : list Skill) (max_skills : nat) : list Skill :=
    take max_skills skills.

  (** [_parse_platform]: [Platform(platform_str)], [OTHER] on [ValueError] *)
Definition _parse_platform (platform_str : string) : Platform :=
    let all := [UDEMY; COURSERA; YOUTUBE; PLURALSIGHT; LINKEDIN_LEARNING;
                EDEX; FREECODECAMP; OTHER] in
    match List.find (λ p, bool_decide (Platform_value p = platform_str)) all with
    | Some p => p
    | None => OTHER
    end.

  (** [_parse_difficulty] *)
Definition _parse_difficulty (difficulty_str : string) : DifficultyLevel :=
    let all := [BEGINNER; INTERMEDIATE; ADVANCED; ALL_LEVELS] in
    match List.find (λ d, bool_decide (DifficultyLevel_value d = difficulty_str)) all with
    | Some d => d
    | None => BEGINNER
    end.

  (** The [LearningResource(...)] built from one row. *)
Definition resource_of_row (row : Row) : LearningResource :=
    mkLearningResource _
      (row_skill_name row)
      (row_resource_title row)
      (row_resource_url row)
      (_parse_platform (row_platform row))
      (match row_duration_weeks row with
       | Some d => if (d =? 0)%Z then 1 else d
       | None => 1
       end)
      (_parse_difficulty (row_difficulty_level row))
      (row_description row)
      (row_rating row)
      (match row_price row with
       | Some p => if decide (p = "") then "Free" else p
       | None => "Free"
       end).

  (** [_fetch_resources_for_skills] *)
Fixpoint fetch_loop (skills : list Skill)
      (skill_resources : pydict (list LearningResource))
      : G (pydict (list LearningResource)) :=
    match skills with
    | [] => gret skill_resources
    | skill :: rest =>
        gbind (lookup_resources (name skill) 3) (λ db_resources,
          let resources := map resource_of_row db_resources in
          fetch_loop rest (dict_set skill_resources (name skill) resources))
    end.

Definition _fetch_resources_for_skills (skills : list Skill)
      : G (pydict (list LearningResource)) :=
    fetch_loop skills [].

  (** [_generate_milestones] *)
Definition _generate_milestones (week : nat) (skills : list Skill) : list string :=
    concat (map (λ skill,
                   ["Complete " +:+ name skill +:+ " tutorial/course";
                    "Build a small project using " +:+ name skill]) skills)
    ++ ["Document your learning progress";
        "Update your resume with new skills"].

  (** One entry of [weekly_plan]. *)
Record WeekData := mkWeekData {
    week_number : nat;
    week_skills : list Skill;
    week_resources : pydict (list LearningResource);
    milestones : list string
  }.

  (** [skill_resources.get(name, [])] *)
Definition resources_for (skill_resources : pydict (list LearningResource))
      (n : string) : list LearningResource :=
    default [] (dict_get skill_resources n).

  (** [_distribute_skills_across_weeks]: the loop over [weeks], leaving
      at the first week that gets no skill ([break]). *)
Fixpoint distribute_loop (weeks : list nat) (skills : list Skill)
      (skill_resources : pydict (list LearningResource)) : list WeekData :=
    match weeks with
    | [] => []
    | week :: rest =>
        let skills_per_week := 2%nat in
        let start_idx := ((week - 1) * skills_per_week)%nat in
        let end_idx := (start_idx + skills_per_week)%nat in
        let ws := PyStr.slice start_idx end_idx skills in
        match ws with
        | [] => []
        | _ =>
            let week_data :=
              mkWeekData week ws
                (foldl (λ d skill,
                          dict_set d (name skill)
                            (resources_for skill_resources (name skill)))
                       [] ws)
                (_generate_milestones week ws) in
            week_data :: distribute_loop rest skills skill_resources
        end
    end.

Definition _distribute_skills_across_weeks (skills : list Skill)
      (skill_resources : pydict (list LearningResource)) : list WeekData :=
    distribute_loop [1; 2; 3; 4]%nat skills skill_resources.

  (** [enumerate(xs, 1)] *)
Definition enumerate1 {A} (xs : list A) : list (nat * A) :=
    zip (seq 1 (length xs)) xs.

  (** The lines [_format_learning_path] emits for one resource. *)
Definition resource_lines (ir : nat * LearningResource) : list string :=
    let '(i, resource) := ir in
    ["   " +:+ PyStr.str_nat i +:+ ". " +:+ resource_title resource
       +:+ " (" +:+ Platform_value (platform resource) +:+ ")";
     "      ↳ " +:+ resource_url resource]
    ++ match rating resource with
       | Some r =>
           if float_truthy r
           then ["      ⭐ Rating: " +:+ str_float r +:+ "/5.0 | "
                 +:+ "Duration: " +:+ PyStr.str_int (duration_weeks resource)
                 +:+ " week(s) | "
                 +:+ "Level: " +:+ DifficultyLevel_value (difficulty_level resource)]
           else []
       | None => []
       end.

  (** The lines for one skill of a week. *)
Definition skill_lines (resources : pydict (list LearningResource))
      (skill : Skill) : list string :=
    ["📖 " +:+ name skill +:+ " Learning Resources:"]
    ++ (match resources_for resources (name skill) with
        | [] =>
            ["   • Search online for '" +:+ name skill +:+ " tutorial'";
             "   • Check platforms: Udemy, Coursera, YouTube"]
        | skill_resources =>
            concat (map resource_lines (enumerate1 (take 2 skill_resources)))
        end)
    ++ [""].

  (** The lines for one week. *)
Definition week_lines (week_data : WeekData) : list string :=
    let week := week_number week_data in
    [PyStr.repeat_str "─" 70;
     "📅 WEEK " +:+ PyStr.str_nat week;
     PyStr.repeat_str "─" 70;
     "";
     "🎯 Focus Skills: " +:+ PyStr.join ", " (map name (week_skills week_data));
     ""]
    ++ concat (map (skill_lines (week_resources week_data)) (week_skills week_data))
    ++ ["🏆 Week " +:+ PyStr.str_nat week +:+ " Milestones:"]
    ++ map (λ im : nat * string, "   " +:+ PyStr.str_nat im.1 +:+ ". " +:+ im.2)
           (enumerate1 (take 4 (milestones week_data)))
    ++ [""].

  (** [_format_learning_path] *)
Definition _format_learning_path (weekly_plan : list WeekData)
      (result : ResultView) : string :=
    PyStr.join PyStr.nl
      ([PyStr.repeat_str "=" 70;
        "YOUR PERSONALIZED 4-WEEK LEARNING PATH";
        PyStr.repeat_str "=" 70;
        "";
        "Generated on: " +:+ now;
        "Overall Match: " +:+ str_float (match_percentage result) +:+ "%";
        "Skills to Learn: " +:+ PyStr.str_nat (length (view_missing_skills result));
        ""]
       ++ concat (map week_lines weekly_plan)
       ++ [PyStr.repeat_str "=" 70;
           "💡 TIPS FOR SUCCESS";
           PyStr.repeat_str "=" 70;
           "";
           "• Dedicate 1-2 hours daily to learning";
           "• Build projects to reinforce concepts";
           "• Join online communities (Stack Overflow, Reddit, Discord)";
           "• Document your progress on GitHub";
           "• Update your resume as you learn new skills";
           "• Don't rush - deep understanding beats speed";
           "";
           PyStr.repeat_str "=" 70;
           "Good luck on your learning journey! 🚀";
           PyStr.repeat_str "=" 70]).

  (** The lines of [_generate_no_gaps_message], before the join. *)
Definition no_gaps_lines (result : ResultView) : list string :=
    [PyStr.repeat_str "=" 70;
     "🎉 CONGRATULATIONS!";
     PyStr.repeat_str "=" 70;
     "";
     "Overall Match: " +:+ str_float (match_percentage result) +:+ "%";
     "";
     "You already have all the key skills required for the analyzed jobs!";
     "Consider focusing on:";
     "";
     "• Advanced topics in your existing skills";
     "• Emerging technologies in your field";
     "• Leadership and soft skills development";
     "• Building a strong portfolio of projects";
     "";
     PyStr.repeat_str "=" 70].

  (** [_generate_no_gaps_message] *)
Definition _generate_no_gaps_message (result : ResultView) : string :=
    PyStr.join PyStr.nl (no_gaps_lines result).

  (** [generate_learning_path]: the returned text and the result object as
      the call leaves it. *)
Definition generate_learning_path (result : ResultView)
      : list (string * Z) → (string * ResultView) * list (string * Z) :=
    λ calls,
    match view_missing_skills result with
    | [] => ((_generate_no_gaps_message result, result), calls)
    | _ =>
        let priority_skills := _prioritize_skills (view_missing_skills result) 8 in
        match _fetch_resources_for_skills priority_skills calls with
        | (inr skill_resources, calls') =>
            let weekly_plan :=
              _distribute_skills_across_weeks priority_skills skill_resources in
            let learning_path := _format_learning_path weekly_plan result in
            let result' :=
              mkResultView (match_percentage result) (view_missing_skills result)
                (recommended_resources result ++ concat (map snd skill_resources)) in
            ((learning_path, result'), calls')
        | (inl e, calls') =>
            (("Error generating learning path: " +:+ e, result), calls')
        end
    end.

End LearningPathGenerator.

(* ===================================================================== *)
(** * [services/skill_extractor.py] *)
(* ===================================================================== *)

(** What a spaCy document exposes to the extractor: the texts of
    [doc.noun_chunks] and, for each token, its text and [pos_]. *)
Record Doc := mkDoc {
  noun_chunks : list string;
  tokens : list (string * string)
}.

(** Which detector ran, and on which text. *)
Inductive DetectorCall :=
| DictionaryDetector (text : string)
| LinguisticDetector (text : string).

Section SkillExtractor.

  (** The class tables. *)
Variable SKILL_DICTIONARY : gset string.
Variable EXCLUDED_WORDS : gset string.
Variable SKILL_CATEGORIES : gmap string string.
Variable SOFT_SKILLS : gset string.

  (** [re.search(r'\b' + re.escape(word) + r'\b', text)] found a match *)
Variable word_search : string → string → bool.
  (** [len(re.findall(r'\b' + re.escape(word) + r'\b', text))] *)
Variable word_count : string → string → Z.
  (** [self.nlp]: the loaded model, if any; applying it may raise. *)
Variable nlp : option (string → option Doc).

  (** [_extract_skills_dictionary] *)
Definition _extract_skills_dictionary (text : string) : gset string :=
    let text_lower := PyStr.lower text in
    set_fold (λ skill found_skills,
                if decide (skill ∈ EXCLUDED_WORDS) then found_skills
                else if word_search skill text_lower
                     then found_skills ∪ {[ PyStr.title skill ]}
                     else found_skills)
             ∅ SKILL_DICTIONARY.

  (** The test both loops of [_extract_skills_nlp] apply to a candidate. *)
Definition known_skill (candidate : string) : bool :=
    bool_decide (candidate ∈ SKILL_DICTIONARY)
    && negb (bool_decide (candidate ∈ EXCLUDED_WORDS)).

  (** [_extract_skills_nlp] *)
Definition _extract_skills_nlp (text : string) : gset string :=
    match nlp with
    | None => ∅
    | Some model =>
        match model text with
        | None => ∅
        | Some doc =>
            let found_skills :=
              foldl (λ found chunk,
                       let chunk_text := PyStr.strip (PyStr.lower chunk) in
                       if known_skill chunk_text
                       then found ∪ {[ PyStr.title chunk_text ]} else found)
                    ∅ (noun_chunks doc) in
            foldl (λ found (token : string * string),
                     if bool_decide (token.2 = "NOUN") || bool_decide (token.2 = "PROPN")
                     then
                       let token_text := PyStr.strip (PyStr.lower token.1) in
                       if known_skill token_text
                       then found ∪ {[ PyStr.title token_text ]} else found
                     else found)
                  found_skills (tokens doc)
        end
    end.

  (** [_count_skill_frequency] *)
Definition _count_skill_frequency (text skill_name : string) : Z :=
    word_count (PyStr.lower skill_name) (PyStr.lower text).

  (** [skills.sort(key=lambda s: s.frequency, reverse=True)]: descending,
      equal keys keep their order. *)
Fixpoint insert_by_frequency (x : Skill) (l : list Skill) : list Skill :=
    match l with
    | [] => [x]
    | y :: rest =>
        if (frequency y <=? frequency x)%Z then x :: l
        else y :: insert_by_frequency x rest
    end.

Definition sort_by_frequency (l : list Skill) : list Skill :=
    foldr insert_by_frequency [] l.

  (** [extract_skills]: the skills returned and the detectors invoked.
      [None] stands for a null text.  The guard is
      [not text or len(text.strip()) < 10], on the characters of the
      text. *)
Definition extract_skills (text : option string)
      : list Skill * list DetectorCall :=
    match text with
    | None => ([], [])
    | Some text =>
        if bool_decide (text = "")
           || (PyStr.len (PyStr.strip_text text) <? 10)%nat
        then ([], [])
        else
          let dict_skills := _extract_skills_dictionary text in
          let '(nlp_skills, calls) :=
            match nlp with
            | Some _ => (_extract_skills_nlp text,
                         [DictionaryDetector text; LinguisticDetector text])
            | None => (∅, [DictionaryDetector text])
            end in
          let all_skill_names := dict_skills ∪ nlp_skills in
          let skills :=
            map (λ skill_name,
                   let skill_lower := PyStr.lower skill_name in
                   let category :=
                     default "Technical" (SKILL_CATEGORIES !! skill_lower) in
                   let is_technical := negb (bool_decide (skill_lower ∈ SOFT_SKILLS)) in
                   let frequency := _count_skill_frequency text skill_name in
                   Skill_init skill_name category is_technical frequency)
                (elements all_skill_names) in
          (sort_by_frequency skills, calls)
    end.

End SkillExtractor.

(* ===================================================================== *)
(** * Float laws and a reference instance *)
(* ===================================================================== *)

(** What the range argument for the overlap score uses of float
    arithmetic.  Each law holds of IEEE-754 doubles with Python's [round]:
    rounding to nearest is monotone and [0.0], [1.0] and [100.0] are
    representable. *)
Class PyFloatLaws (F : PyFloat) : Prop := {
  fle_zero_hundred : fle fzero (of_int 100);
  fle_zero_zero : fle fzero fzero;
  truediv_zero : ∀ n : Z, (0 < n)%Z → truediv 0 n = fzero;
  mul_int_zero : mul_int fzero 100 = fzero;
  round_zero : round_ndigits fzero 2 = fzero;
  truediv_unit : ∀ m n : Z, (0 ≤ m ≤ n)%Z → (0 < n)%Z →
    fle fzero (truediv m n) ∧ fle (truediv m n) (of_int 1);
  mul_int_percent : ∀ x, fle fzero x → fle x (of_int 1) →
    fle fzero (mul_int x 100) ∧ fle (mul_int x 100) (of_int 100);
  round_percent : ∀ x, fle fzero x → fle x (of_int 100) →
    fle fzero (round_ndigits x 2) ∧ fle (round_ndigits x 2) (of_int 100)
}.

(** Exact rational arithmetic, kept in lowest terms, with round-half-even
    on decimal digits: the arithmetic floats approximate. *)
Module ExactFloat.

  (** The integer nearest to [q], ties to even. *)
Definition round_half_even (q : Q) : Z :=
    let f := Qfloor q in
    match Qcompare (q - inject_Z f) (1 # 2) with
    | Lt => f
    | Gt => f + 1
    | Eq => if Z.even f then f else f + 1
    end.

Definition round_digits_q (x : Q) (d : Z) : Q :=
    if (0 <=? d)%Z
    then Qred (inject_Z (round_half_even (x * inject_Z (10 ^ d))) / inject_Z (10 ^ d))
    else Qred (inject_Z (round_half_even (x / inject_Z (10 ^ (- d))) * 10 ^ (- d))).

  (** Two decimals, printed the way Python prints such a float. *)
Definition str_q (x : Q) : string :=
    let h := Qfloor (Qabs x * 100) in
    let frac := Z.abs_nat (h mod 100) in
    (if Qlt_le_dec x 0 then "-" else "")
    +:+ PyStr.str_int (h / 100) +:+ "."
    +:+ (if (frac mod 10 =? 0)%nat then PyStr.str_nat (frac / 10)
         else PyStr.str_nat (frac / 10) +:+ PyStr.str_nat (frac mod 10)).

#[export] Instance exact : PyFloat := {|
    float := Q;
    fzero := 0%Q;
    of_int := inject_Z;
    truediv m n := Qred (inject_Z m / inject_Z n);
    mul_int x k := Qred (x * inject_Z k);
    round_ndigits := round_digits_q;
    fle := Qle;
    str_float := str_q;
    float_truthy x := negb (Qeq_bool x 0)
  |}.

End ExactFloat.


(* ===================================================================== *)
(** * Notions the statements use *)
(* ===================================================================== *)

(** ** Scanning a collection *)

(** The first entry of [xs] whose object matches the value [v], looked up
    in the skill table [h]. *)
Fixpoint find_match (h : list Skill) (xs : list loc) (v : Skill) : option loc :=
  match xs with
  | [] => None
  | e :: rest =>
      match h !! e with
      | Some x => if matches_val x v then Some e else find_match h rest v
      | None => None
      end
  end.

(** Every reference of [xs] denotes an object of [h]. *)
Definition valid_in (h : list Skill) (xs : list loc) : Prop :=
  Forall (λ l, is_Some (h !! l)) xs.

(** No two distinct objects of a collection share a lowercased name. *)
Definition deduplicated (h : list Skill) (xs : list loc) : Prop :=
  ∀ l1 l2 x1 x2, l1 ∈ xs → l2 ∈ xs →
    h !! l1 = Some x1 → h !! l2 = Some x2 → key x1 = key x2 → l1 = l2.

(** ** The aggregation loop on values *)

(** The aggregation of [_identify_skill_gaps] on values: the dictionary
    from lowercased name to aggregate, in insertion order. *)
Definition agg_step (acc : pydict Skill) (s : Skill) : pydict Skill :=
  match dict_get acc (key s) with
  | Some a => dict_set acc (key s) (incremented a)
  | None => acc ++ [(key s, Skill_init (name s) (category s) (is_technical s) 1)]
  end.

Definition aggregate (ss : list Skill) : pydict Skill := foldl agg_step [] ss.

(** The position of a key in a dictionary. *)
Fixpoint dict_index {V} (d : pydict V) (k : string) : option nat :=
  match d with
  | [] => None
  | (k', _) :: rest =>
      if decide (k' = k) then Some 0%nat else S <$> dict_index rest k
  end.

(** The dictionary of references that stands for [acc] when its
    aggregates are stored from address [n] on. *)
Fixpoint dict_of (n : nat) (acc : pydict Skill) : dict :=
  match acc with
  | [] => []
  | (k, _) :: rest => (k, n) :: dict_of (S n) rest
  end.

(** Each aggregate is filed under its own lowercased name. *)
Definition keyed (acc : pydict Skill) : Prop :=
  Forall (λ ka : string * Skill, key ka.2 = ka.1) acc.

(** ** Stores during gap identification *)

(** The store during the aggregation loop: the aggregates come after the
    objects that were there before. *)
Definition collecting (H0 : list Skill) (L : list (list loc))
    (acc : pydict Skill) : store :=
  mkStore (H0 ++ acc.*2) L.

(** The store while the aggregates are sorted: the aggregates [N] after
    the objects that were there before, and the two result lists after
    the lists that were there before. *)
Definition categorizing (H0 : list Skill) (L0 : list (list loc))
    (N : list Skill) (ms mis : list loc) : store :=
  mkStore (H0 ++ N) (L0 ++ [ms; mis]).

(** A reference to one of the aggregates. *)
Definition in_new (H0 N : list Skill) (l : loc) : Prop :=
  (length H0 ≤ l < length H0 + length N)%nat.

(** The change [add_missing_skill] makes to a new entry. *)
Definition reset_missing (H0 : list Skill) (user : gset string)
    (N : list Skill) (kl : string * loc) : list Skill :=
  if decide (kl.1 ∈ user) then N
  else alter (set_frequency 1) (kl.2 - length H0)%nat N.

(** The two lists the gap identifier produces, by value. *)
Definition gap_lists (r : Resume) (jobs : list Job) (st : store)
    : option (list Skill * list Skill) :=
  match identify_gaps r jobs st with
  | Some (result, st') =>
      matching ← contents st' (matching_skills result);
      missing ← contents st' (missing_skills result);
      Some (matching, missing)
  | None => None
  end.

(** ** The worked example: resume {Python, SQL, Git},
       Job1 {Python, Docker}, Job2 {SQL, Docker} *)

(** The store after the resume and the two jobs have been built with
    [Skill(...)], [add_skill] and [add_required_skill]: skill objects 0-2
    belong to the resume, 3-4 to Job1 and 5-6 to Job2. *)
Definition example_store : store :=
  mkStore
    [Skill_init "Python" "Programming Language" true 0;
     Skill_init "SQL" "Database" true 0;
     Skill_init "Git" "Version Control" true 0;
     Skill_init "Python" "Programming Language" true 0;
     Skill_init "Docker" "DevOps" true 0;
     Skill_init "SQL" "Database" true 0;
     Skill_init "Docker" "DevOps" true 0]
    [[0; 1; 2]; [3; 4]; [5; 6]]%nat.

Definition example_resume : Resume := mkResume "resume.pdf" PDF "" 0.

Definition example_jobs : list Job :=
  [mkJob "Job1" "Tech Corp" "" 1; mkJob "Job2" "Enterprise Inc" "" 2].

(* ===================================================================== *)
(** * Further code of the cited modules *)
(* ===================================================================== *)

(** ** [models/skill.py]: the remaining methods *)

(** [Skill.matches_name] on a value:
    [self.name.lower() == name.lower().strip()]. *)
Definition matches_name_val (s : Skill) (n : string) : bool :=
  bool_decide (PyStr.lower (name s) = PyStr.strip (PyStr.lower n)).

(** [Skill.__str__]: [f"{self.name} (freq: {self.frequency})"] *)
Definition Skill_str (s : Skill) : string :=
  name s +:+ " (freq: " +:+ PyStr.str_int (frequency s) +:+ ")".

(** The values a skill dictionary holds. *)
Inductive PyVal :=
| VStr (s : string)
| VBool (b : bool)
| VInt (z : Z).

(** [Skill.to_dict] *)
Definition Skill_to_dict (s : Skill) : gmap string PyVal :=
  <["frequency" := VInt (frequency s)]>
    (<["is_technical" := VBool (is_technical s)]>
       (<["category" := VStr (category s)]>
          (<["name" := VStr (name s)]> ∅))).

(** [Skill.from_dict]: each field is [data.get(key, default)], and the
    constructor normalises the name.  [None] stands for a dictionary whose
    value for a field is not of the field's type. *)
Definition Skill_from_dict (data : gmap string PyVal) : option Skill :=
  match default (VStr "") (data !! "name"),
        default (VStr "Technical") (data !! "category"),
        default (VBool true) (data !! "is_technical"),
        default (VInt 0) (data !! "frequency") with
  | VStr n, VStr c, VBool t, VInt f => Some (Skill_init n c t f)
  | _, _, _, _ => None
  end.

(** ** [models/resume.py]: queries *)

(** [any(skill.matches_name(skill_name) for skill in lst)] and the loop of
    [get_skill], on a list object. *)
Fixpoint find_by_name (xs : list loc) (skill_name : string) : M (option loc) :=
  match xs with
  | [] => ret None
  | skill :: rest =>
      let* s := read_skill skill in
      if matches_name_val s skill_name then ret (Some skill)
      else find_by_name rest skill_name
  end.

(** [Resume.get_skill] *)
Definition get_skill (self : Resume) (skill_name : string) : M (option loc) :=
  let* xs := read_list (skills self) in
  find_by_name xs skill_name.

(** [Resume.has_skill] *)
Definition has_skill (self : Resume) (skill_name : string) : M bool :=
  let* xs := read_list (skills self) in
  let* found := find_by_name xs skill_name in
  ret (bool_decide (is_Some found)).

(** [Job.requires_skill] *)
Definition requires_skill (self : Job) (skill_name : string) : M bool :=
  let* xs := read_list (required_skills self) in
  let* found := find_by_name xs skill_name in
  ret (bool_decide (is_Some found)).

(** [Resume.clear_skills]: [self.skills.clear()] *)
Definition clear_skills (self : Resume) : M unit :=
  λ st, match list_objs st !! skills self with
        | Some _ => Some (tt, mkStore (skill_objs st)
                                (<[skills self := []]> (list_objs st)))
        | None => None
        end.

(** [technical_skills] and [soft_skills] of a resume or a job, on the
    skills the collection holds. *)
Definition technical_skills (skills : list Skill) : list Skill :=
  filter (λ skill, is_technical skill = true) skills.

Definition soft_skills (skills : list Skill) : list Skill :=
  filter (λ skill, is_technical skill ≠ true) skills.

(** [get_skills_as_string], [get_required_skills_as_string],
    [get_matching_skills_as_string], [get_missing_skills_as_string]:
    [", ".join(skill.name for skill in lst)] *)
Definition skills_as_string (skills : list Skill) : string :=
  PyStr.join ", " (map name skills).

(** [Resume.get_skills_by_category] *)
Definition get_skills_by_category (skills : list Skill) (cat : string) : list Skill :=
  filter (λ skill, PyStr.lower (category skill) = PyStr.lower cat) skills.

(** ** [models/job.py]: matching against a user's skills *)

(** [{skill.name.lower() for skill in user_skills}] *)
Definition user_skill_names (user_skills : list Skill) : gset string :=
  list_to_set (map (λ skill, PyStr.lower (name skill)) user_skills).

(** [Job.get_matching_skills] *)
Definition get_matching_skills (required : list Skill) (user_skills : list Skill)
    : list Skill :=
  filter (λ skill, PyStr.lower (name skill) ∈ user_skill_names user_skills) required.

(** [Job.get_missing_skills] *)
Definition get_missing_skills (required : list Skill) (user_skills : list Skill)
    : list Skill :=
  filter (λ skill, PyStr.lower (name skill) ∉ user_skill_names user_skills) required.

(** [Job.calculate_match_percentage] *)
Definition Job_calculate_match_percentage `{PyFloat} (required : list Skill)
    (user_skills : list Skill) : float :=
  match required with
  | [] => fzero
  | _ =>
      let names := user_skill_names user_skills in
      let matching_count :=
        length (filter (λ skill, PyStr.lower (name skill) ∈ names) required) in
      let match_percentage :=
        mul_int (truediv (Z.of_nat matching_count) (Z.of_nat (length required))) 100 in
      round_ndigits match_percentage 2
  end.

(** ** [models/analysis_result.py]: derived values *)

(** [sorted(lst, key=lambda s: s.frequency, reverse=True)] and
    [lst.sort(key=..., reverse=True)] for any element type: descending,
    equal keys keep their order. *)
Fixpoint insert_by_key {A} (k : A → Z) (x : A) (l : list A) : list A :=
  match l with
  | [] => [x]
  | y :: rest =>
      if (k y <=? k x)%Z then x :: l else y :: insert_by_key k x rest
  end.

Definition sort_by_key_desc {A} (k : A → Z) (l : list A) : list A :=
  foldr (insert_by_key k) [] l.

(** [AnalysisResult.top_missing_skills] *)
Definition top_missing_skills (missing : list Skill) : list Skill :=
  take 10 (sort_by_key_desc frequency missing).

(** [AnalysisResult.calculate_match_percentage]: the value returned and
    the value of [self.match_percentage] afterwards, given the value
    [stored] before. *)
Definition Result_calculate_match_percentage `{PyFloat}
    (matching missing : list Skill) (stored : float) : float * float :=
  match matching, missing with
  | [], [] => (fzero, stored)
  | _, _ =>
      let total_skills := (length matching + length missing)%nat in
      if (total_skills =? 0)%nat then (fzero, stored)
      else
        let match_ :=
          mul_int (truediv (Z.of_nat (length matching)) (Z.of_nat total_skills)) 100 in
        (round_ndigits match_ 2, round_ndigits match_ 2)
  end.

(** ** [services/skill_analyzer.py]: feature vectors *)

(** [_create_skill_vector]: one entry per master skill, 1 when the skill
    set has it. *)
Definition _create_skill_vector (skills : list Skill) (master_skills : list string)
    : list Z :=
  let skill_names : gset string :=
    list_to_set (map (λ skill, PyStr.lower (name skill)) skills) in
  map (λ master_skill, if decide (master_skill ∈ skill_names) then 1 else 0)
      master_skills.

(** ** [services/skill_extractor.py]: names given as a list *)

Section SkillExtractorLists.
Variable SKILL_DICTIONARY : gset string.
Variable EXCLUDED_WORDS : gset string.
Variable SKILL_CATEGORIES : gmap string string.
Variable SOFT_SKILLS : gset string.

(** [extract_skills_from_list] *)
Fixpoint extract_skills_from_list (skill_list : list string) : list Skill :=
  match skill_list with
  | [] => []
  | skill_name :: rest =>
      let skill_lower := PyStr.strip (PyStr.lower skill_name) in
      if bool_decide (skill_lower = "") || bool_decide (skill_lower ∈ EXCLUDED_WORDS)
      then extract_skills_from_list rest
      else
        let category := default "Technical" (SKILL_CATEGORIES !! skill_lower) in
        let is_technical := negb (bool_decide (skill_lower ∈ SOFT_SKILLS)) in
        Skill_init (PyStr.title (PyStr.strip skill_name)) category is_technical 1
        :: extract_skills_from_list rest
  end.

(** [validate_skill] *)
Definition validate_skill (skill_name : string) : bool :=
  bool_decide (PyStr.lower skill_name ∈ SKILL_DICTIONARY).

End SkillExtractorLists.

(** ** [services/learning_path_generator.py]: saving the plan *)

(** One call of [self.db.save_learning_path(...)]. *)
Record SavedWeek := mkSavedWeek {
  saved_analysis_id : Z;
  saved_week_number : nat;
  saved_skill_focus : string;
  saved_resources : string;
  saved_milestones : string
}.

Section SaveLearningPath.
Context `{PyFloat}.

(** [self.db.save_learning_path(...)]: whether the call raised. *)
Variable db_save : SavedWeek → bool.

(** The loop of [save_learning_path] over [weeks]: the calls made, and
    whether one of them raised. *)
Fixpoint save_loop (weeks : list nat) (analysis_id : Z)
    (priority_skills : list Skill) : list SavedWeek * bool :=
  match weeks with
  | [] => ([], false)
  | week :: rest =>
      let skills_per_week := 2%nat in
      let start_idx := ((week - 1) * skills_per_week)%nat in
      let end_idx := (start_idx + skills_per_week)%nat in
      let ws := PyStr.slice start_idx end_idx priority_skills in
      match ws with
      | [] => ([], false)
      | _ =>
          let row :=
            mkSavedWeek analysis_id week
              (PyStr.join ", " (map name ws))
              "See learning path for details"
              (PyStr.join "; " (take 3 (_generate_milestones week ws))) in
          if db_save row then ([row], true)
          else
            let '(rows, raised) := save_loop rest analysis_id priority_skills in
            (row :: rows, raised)
      end
  end.

(** [save_learning_path]: the rows handed to the database and the
    boolean returned. *)
Definition save_learning_path (analysis_id : Z) (result : ResultView)
    : list SavedWeek * bool :=
  let priority_skills := take 8 (view_missing_skills result) in
  let '(rows, raised) := save_loop [1; 2; 3; 4]%nat analysis_id priority_skills in
  (rows, negb raised).

End SaveLearningPath.
(** ** Loops that fill a collection *)

(** [for skill in skills: resume.add_skill(skill)], the loop of
    [main._extract_skills]. *)
Fixpoint add_skills (self : Resume) (skills : list loc) : M unit :=
  match skills with
  | [] => ret tt
  | skill :: rest =>
      let* _ := add_skill self skill in
      add_skills self rest
  end.

(** [for s in skills: job.add_required_skill(Skill(name=s, category="Technical"))],
    the loop of the sample-job builders of [services/job_fetcher.py]. *)
Fixpoint add_required_names (self : Job) (names : list string) : M unit :=
  match names with
  | [] => ret tt
  | s :: rest =>
      let* skill := Skill_new s "Technical" true 0 in
      let* _ := add_required_skill self skill in
      add_required_names self rest
  end.

(** ** [services/skill_analyzer.py]: the analysis entry point *)

(** The values a list object holds, read without changing the store. *)
Definition read_contents (ref : lref) : M (list Skill) :=
  λ st, match contents st ref with
        | Some ss => Some (ss, st)
        | None => None
        end.

(** The required skills of each job, in order. *)
Fixpoint read_jobs (jobs : list Job) : M (list (list Skill)) :=
  match jobs with
  | [] => ret []
  | job :: rest =>
      let* ss := read_contents (required_skills job) in
      let* more := read_jobs rest in
      ret (ss :: more)
  end.

(** [lst.sort(key=lambda s: s.frequency, reverse=True)] on a list object:
    the references are reordered by the frequency of their objects. *)
Definition sort_list_by_frequency (ref : lref) : M unit :=
  λ st, match list_objs st !! ref with
        | Some xs =>
            match deref st xs with
            | Some ss =>
                let sorted_skills :=
                  sort_by_key_desc (λ p : loc * Skill, frequency p.2) (zip xs ss) in
                Some (tt, mkStore (skill_objs st)
                            (<[ref := sorted_skills.*1]> (list_objs st)))
            | None => None
            end
        | None => None
        end.

Section AnalyzeSkills.
Context `{PyFloat}.

(** [_calculate_match_with_clustering(resume, jobs)], which only reads
    the skills of the resume and of the jobs: the triple it returns, or
    [None] when it raises. *)
Variable clustering : list Skill → list (list Skill) → option (float * Z * Z).

(** An [AnalysisResult] with the fields [analyze_skills] assigns. *)
Record Analysis := mkAnalysis {
  analysis : AnalysisResult;
  analysis_match_percentage : float;
  cluster_id : option Z;
  jobs_in_same_cluster : Z
}.

(** [_create_empty_result]: [AnalysisResult(resume=resume)] with
    [match_percentage = 0.0]; the other fields keep their defaults. *)
Definition _create_empty_result (r : Resume) : M Analysis :=
  let* result := AnalysisResult_new r [] in
  ret (mkAnalysis result fzero None 0).

(** [analyze_skills] *)
Definition analyze_skills (r : Resume) (jobs : list Job) : M Analysis :=
  match jobs with
  | [] => _create_empty_result r
  | _ =>
      let* xs := read_list (skills r) in
      match xs with
      | [] => _create_empty_result r
      | _ =>
          let* result := identify_gaps r jobs in
          let* rs := read_contents (skills r) in
          let* js := read_jobs jobs in
          let '(match_percentage, cluster, in_cluster) :=
            match clustering rs js with
            | Some (match_percentage, cluster_id, jobs_in_cluster) =>
                (match_percentage, Some cluster_id, jobs_in_cluster)
            | None => (_calculate_simple_overlap rs js, None, 0)
            end in
          let* _ := sort_list_by_frequency (missing_skills result) in
          ret (mkAnalysis result match_percentage cluster in_cluster)
      end
  end.

End AnalyzeSkills.

(* ===================================================================== *)
(** * Notions the further statements use *)
(* ===================================================================== *)

(** Descending order of keys. *)
Definition desc {A} (k : A → Z) (a b : A) : Prop := (k b ≤ k a)%Z.

(** A detected name is the title-cased form of a dictionary entry that is
    not excluded. *)
Definition from_dictionary (SKILL_DICTIONARY EXCLUDED_WORDS : gset string)
    (x : string) : Prop :=
  ∃ s, s ∈ SKILL_DICTIONARY ∧ (s ∉ EXCLUDED_WORDS) ∧ x = PyStr.title s.

(** ** Adding to a collection, on values *)

(** What [add_skill] and [add_required_skill] do to the values a
    collection holds when the skill [v] is added: the first skill with the
    lowercased name of [v] is incremented, and [v] is appended when there
    is none. *)
Fixpoint add_val (cs : list Skill) (v : Skill) : list Skill :=
  match cs with
  | [] => [v]
  | c :: rest =>
      if matches_val c v then incremented c :: rest else c :: add_val rest v
  end.

(** The first skill of a list with the lowercased name [k]. *)
Definition entry (cs : list Skill) (k : string) : option Skill :=
  snd <$> list_find (λ c, key c = k) cs.

(** How many skills of a list have the lowercased name [k]. *)
Definition occurrences (cs : list Skill) (k : string) : Z :=
  Z.of_nat (length (filter (λ c, key c = k) cs)).

(** The query value of [matches_name]: a skill built from the name. *)
Definition named (skill_name : string) : Skill :=
  Skill_init skill_name "Technical" true 0.

(* ===================================================================== *)
(** * Sanity checks of the embedding *)
(* ===================================================================== *)

Example lower_ex : PyStr.lower "Machine Learning" = "machine learning".
Proof. reflexivity. Qed.
Example title_ex : PyStr.title "machine lEARNING c++ node.js" = "Machine Learning C++ Node.Js".
Proof. reflexivity. Qed.
Example strip_ex : PyStr.strip "  git hub 	" = "git hub".
Proof. reflexivity. Qed.
Example str_nat_ex : PyStr.str_nat 42 = "42" ∧ PyStr.str_nat 0 = "0" ∧ PyStr.str_nat 100 = "100".
Proof. repeat split; reflexivity. Qed.

Example exact_overlap_ex :
  ExactFloat.round_digits_q
    (@mul_int ExactFloat.exact (@truediv ExactFloat.exact 2 3) 100) 2
  = (6667 # 100)%Q
  ∧ ExactFloat.str_q (6667 # 100)%Q = "66.67"
  ∧ ExactFloat.str_q (65 # 1)%Q = "65.0"
  ∧ ExactFloat.round_digits_q (3125 # 1000)%Q 2 = (78 # 25)%Q.
Proof. repeat split; reflexivity. Qed.

(* ===================================================================== *)
(** * Properties of the string operations *)
(* ===================================================================== *)

Module PyStrFacts.
Import PyStr.

Lemma to_lower_to_upper c : to_lower (to_upper c) = to_lower c.
Proof. destruct c as [[] [] [] [] [] [] [] []]; reflexivity. Qed.

Lemma to_lower_idemp c : to_lower (to_lower c) = to_lower c.
Proof. destruct c as [[] [] [] [] [] [] [] []]; reflexivity. Qed.

Lemma is_space_to_lower c : is_space (to_lower c) = is_space c.
Proof. destruct c as [[] [] [] [] [] [] [] []]; reflexivity. Qed.

Lemma is_space_to_upper c : is_space (to_upper c) = is_space c.
Proof. destruct c as [[] [] [] [] [] [] [] []]; reflexivity. Qed.

(** Lower-casing forgets what [title] did. *)
Lemma lower_title_from p s : lower (title_from p s) = lower s.
Proof.
  revert p. induction s as [|c r IH]; intros p; simpl; [done|].
  destruct (is_cased c); simpl; rewrite IH; f_equal.
  destruct p; [apply to_lower_idemp | apply to_lower_to_upper].
Qed.

Lemma lower_title s : lower (title s) = lower s.
Proof. apply lower_title_from. Qed.

Lemma length_lstrip s : (String.length (lstrip s) ≤ String.length s)%nat.
Proof.
  induction s as [|c r IH]; simpl; [done|].
  destruct (is_space c); simpl; lia.
Qed.

Lemma length_rstrip s : (String.length (rstrip s) ≤ String.length s)%nat.
Proof.
  induction s as [|c r IH]; simpl; [done|].
  destruct (rstrip r); simpl in *; [destruct (is_space c); simpl|]; lia.
Qed.

(** [strip] never lengthens a string. *)
Lemma length_strip s : (String.length (strip s) ≤ String.length s)%nat.
Proof.
  unfold strip. etrans; [apply length_lstrip | apply length_rstrip].
Qed.

Lemma no_lead_lstrip s : no_lead (lstrip s).
Proof.
  induction s as [|c r IH]; simpl; [done|].
  destruct (is_space c) eqn:E; simpl; done.
Qed.

Lemma no_trail_cons c r : r ≠ EmptyString → no_trail (String c r) ↔ no_trail r.
Proof. destruct r; [done|]. done. Qed.

Lemma no_trail_rstrip s : no_trail (rstrip s).
Proof.
  induction s as [|c r IH]; simpl; [done|].
  destruct (rstrip r) as [|c' r'] eqn:E.
  - destruct (is_space c) eqn:Ec; simpl; done.
  - apply no_trail_cons; done.
Qed.

Lemma no_trail_lstrip s : no_trail s → no_trail (lstrip s).
Proof.
  induction s as [|c r IH]; [done|].
  intros Hs. cbn [lstrip]. destruct (is_space c) eqn:Ec; [|exact Hs].
  destruct r; [done|]. apply IH. by apply no_trail_cons in Hs.
Qed.

Lemma lstrip_id s : no_lead s → lstrip s = s.
Proof. destruct s; simpl; [done|]. by intros ->. Qed.

Lemma rstrip_id s : no_trail s → rstrip s = s.
Proof.
  induction s as [|c r IH]; simpl; [done|].
  destruct r as [|c' r'].
  - simpl. by intros ->.
  - intros Hs. rewrite IH; done.
Qed.

Lemma strip_id s : no_lead s → no_trail s → strip s = s.
Proof. intros Hl Ht. unfold strip. rewrite rstrip_id, lstrip_id; done. Qed.

Lemma no_lead_strip s : no_lead (strip s).
Proof. apply no_lead_lstrip. Qed.

Lemma no_trail_strip s : no_trail (strip s).
Proof. apply no_trail_lstrip, no_trail_rstrip. Qed.

Lemma title_from_empty p s : title_from p s = EmptyString ↔ s = EmptyString.
Proof. destruct s; simpl; [done|]. destruct (is_cased _); done. Qed.

Lemma no_lead_title_from p s : no_lead s → no_lead (title_from p s).
Proof.
  destruct s as [|c r]; simpl; [done|].
  destruct (is_cased c); simpl; [|done].
  destruct p; by rewrite ?is_space_to_lower, ?is_space_to_upper.
Qed.

Lemma no_trail_title_from p s : no_trail s → no_trail (title_from p s).
Proof.
  revert p. induction s as [|c r IH]; intros p; simpl; [done|].
  destruct r as [|c' r'].
  - simpl. destruct (is_cased c); simpl; [|done].
    destruct p; by rewrite ?is_space_to_lower, ?is_space_to_upper.
  - intros Hs.
    assert (∀ q, title_from q (String c' r') ≠ EmptyString) as Hne.
    { intros q Hq. by apply title_from_empty in Hq. }
    destruct (is_cased c); (apply no_trail_cons; [apply Hne | by apply IH]).
Qed.

(** A name that went through [__post_init__] is a fixed point of [strip]. *)
Lemma strip_title_strip s : strip (title (strip s)) = title (strip s).
Proof.
  apply strip_id.
  - apply no_lead_title_from, no_lead_strip.
  - apply no_trail_title_from, no_trail_strip.
Qed.

End PyStrFacts.

(** ** Free text *)

Example len_ex :
  PyStr.len "sql cafés" = 9%nat ∧ String.length "sql cafés" = 10%nat
  ∧ PyStr.len "🎉 done" = 6%nat ∧ PyStr.len "" = 0%nat.
Proof. by vm_compute. Qed.

Example strip_text_ex :
  let nbsp := PyStr.of_bytes [194; 160]%N in
  let wide := PyStr.of_bytes [227; 128; 128]%N in
  PyStr.strip_text (nbsp +:+ " 	sql cafés " +:+ wide +:+ nbsp) = "sql cafés"
  ∧ PyStr.strip_text "  git hub 	" = PyStr.strip "  git hub 	"
  ∧ PyStr.strip_text (" " +:+ wide) = "".
Proof. by vm_compute. Qed.

Module PyStrTextFacts.
Import PyStr.

Lemma len_skip n s : (len (skip n s) ≤ len s)%nat.
Proof.
  revert s. induction n as [|n IH]; intros [|c r]; cbn [skip len]; try lia.
  specialize (IH r). destruct (is_continuation c); lia.
Qed.

Lemma len_keep n s : (len (keep n s) ≤ len s)%nat.
Proof.
  revert s. induction n as [|n IH]; intros [|c r]; cbn [keep len]; try lia.
  specialize (IH r). destruct (is_continuation c); lia.
Qed.

Lemma length_skip n s : String.length (skip n s) = (String.length s - n)%nat.
Proof.
  revert s. induction n as [|n IH]; intros [|c r]; cbn [skip String.length];
    try lia. apply IH.
Qed.

Lemma length_keep n s :
  String.length (keep n s) = Nat.min n (String.length s).
Proof.
  revert s. induction n as [|n IH]; intros [|c r]; cbn [keep String.length];
    try lia. by rewrite IH.
Qed.

Lemma len_lstrip_text_loop fuel s : (len (lstrip_text_loop fuel s) ≤ len s)%nat.
Proof.
  revert s. induction fuel as [|fuel IH]; intros s; cbn [lstrip_text_loop]; [lia|].
  destruct (lead_space s); [lia|]. etrans; [apply IH|apply len_skip].
Qed.

Lemma len_rstrip_text_loop fuel s : (len (rstrip_text_loop fuel s) ≤ len s)%nat.
Proof.
  revert s. induction fuel as [|fuel IH]; intros s; cbn [rstrip_text_loop]; [lia|].
  destruct (trail_space s); [lia|]. etrans; [apply IH|apply len_keep].
Qed.

(** Stripping never adds a character. *)
Lemma len_strip_text s : (len (strip_text s) ≤ len s)%nat.
Proof.
  unfold strip_text, lstrip_text, rstrip_text.
  etrans; [apply len_lstrip_text_loop|apply len_rstrip_text_loop].
Qed.

(** A text has at most as many characters as bytes, and as many on ASCII
    text. *)
Lemma len_length s : (len s ≤ String.length s)%nat.
Proof.
  induction s as [|c r IH]; cbn [len String.length]; [lia|].
  destruct (is_continuation c); lia.
Qed.

Lemma len_ascii s : is_ascii s = true → len s = String.length s.
Proof.
  induction s as [|c r IH]; cbn [is_ascii len String.length]; [done|].
  intros [Hc Hr]%andb_true_iff. rewrite (IH Hr).
  unfold is_continuation. apply N.ltb_lt in Hc.
  destruct (128 <=? code c)%N eqn:Hge; [apply N.leb_le in Hge; lia|done].
Qed.

(** The loops run until no whitespace is left at their end of the text:
    each round removes at least one byte. *)
Lemma lstrip_text_done s : lead_space (lstrip_text s) = O.
Proof.
  unfold lstrip_text.
  assert (∀ fuel t, (String.length t ≤ fuel)%nat →
            lead_space (lstrip_text_loop fuel t) = O) as Hloop.
  { induction fuel as [|fuel IH]; intros t Hfuel; cbn [lstrip_text_loop].
    - destruct t; [reflexivity|simpl in Hfuel; lia].
    - destruct (lead_space t) as [|n] eqn:Hlead; [exact Hlead|].
      apply IH. rewrite length_skip.
      destruct t; [vm_compute in Hlead; discriminate|].
      simpl in *. lia. }
  by apply Hloop.
Qed.

Lemma rstrip_text_done s : trail_space (rstrip_text s) = O.
Proof.
  unfold rstrip_text.
  assert (∀ fuel t, (String.length t ≤ fuel)%nat →
            trail_space (rstrip_text_loop fuel t) = O) as Hloop.
  { induction fuel as [|fuel IH]; intros t Hfuel; cbn [rstrip_text_loop].
    - destruct t; [reflexivity|simpl in Hfuel; lia].
    - destruct (trail_space t) as [|n] eqn:Hlead; [exact Hlead|].
      apply IH. rewrite length_keep.
      destruct t; [vm_compute in Hlead; discriminate|].
      simpl in *. lia. }
  by apply Hloop.
Qed.

End PyStrTextFacts.

(* ===================================================================== *)
(** * The extraction entry point *)
(* ===================================================================== *)

(** C7.  A text that is null, empty or shorter than 10 characters makes
    [extract_skills] return the empty list, and neither the dictionary
    detector nor the linguistic detector is invoked.  The length is in
    characters: a text of fewer than 10 bytes is one case. *)
Theorem extract_skills_short_text
    (SKILL_DICTIONARY EXCLUDED_WORDS : gset string)
    (SKILL_CATEGORIES : gmap string string) (SOFT_SKILLS : gset string)
    (word_search : string → string → bool) (word_count : string → string → Z)
    (nlp : option (string → option Doc)) (text : option string) :
  match text with
  | None => True
  | Some s => (PyStr.len s < 10)%nat
  end →
  extract_skills SKILL_DICTIONARY EXCLUDED_WORDS SKILL_CATEGORIES SOFT_SKILLS
    word_search word_count nlp text = ([], []).
Proof.
  destruct text as [s|]; [|done].
  intros Hlen. unfold extract_skills.
  assert ((PyStr.len (PyStr.strip_text s) <? 10)%nat = true) as ->.
  { apply Nat.ltb_lt. pose proof (PyStrTextFacts.len_strip_text s). lia. }
  by rewrite orb_true_r.
Qed.

Lemma extract_skills_short_text_witness :
  extract_skills {[ "sql" ]} ∅ ∅ ∅ (λ _ _, true) (λ _ _, 1)
    (Some (λ _, None)) (Some "sql cafés") = ([], []).
Proof. apply extract_skills_short_text. vm_compute. lia. Defined.

(** The guard looks at the text after stripping: a text of 10 characters
    or more that is shorter once stripped is rejected as well. *)
Lemma extract_skills_short_once_stripped
    (SKILL_DICTIONARY EXCLUDED_WORDS : gset string)
    (SKILL_CATEGORIES : gmap string string) (SOFT_SKILLS : gset string)
    (word_search : string → string → bool) (word_count : string → string → Z)
    (nlp : option (string → option Doc)) (text : string) :
  (PyStr.len (PyStr.strip_text text) < 10)%nat →
  extract_skills SKILL_DICTIONARY EXCLUDED_WORDS SKILL_CATEGORIES SOFT_SKILLS
    word_search word_count nlp (Some text) = ([], []).
Proof.
  intros Hlen. unfold extract_skills.
  assert ((PyStr.len (PyStr.strip_text text) <? 10)%nat = true) as ->
    by (by apply Nat.ltb_lt).
  by rewrite orb_true_r.
Qed.

(** On a text that passes the length test the dictionary detector runs,
    and the linguistic detector runs exactly when a model is loaded. *)
Lemma extract_skills_long_text_calls
    (SKILL_DICTIONARY EXCLUDED_WORDS : gset string)
    (SKILL_CATEGORIES : gmap string string) (SOFT_SKILLS : gset string)
    (word_search : string → string → bool) (word_count : string → string → Z)
    (nlp : option (string → option Doc)) (text : string) :
  (10 ≤ PyStr.len (PyStr.strip_text text))%nat →
  (extract_skills SKILL_DICTIONARY EXCLUDED_WORDS SKILL_CATEGORIES SOFT_SKILLS
     word_search word_count nlp (Some text)).2
  = DictionaryDetector text
    :: match nlp with Some _ => [LinguisticDetector text] | None => [] end.
Proof.
  intros Hlen. unfold extract_skills.
  assert ((PyStr.len (PyStr.strip_text text) <? 10)%nat = false) as ->
    by (apply Nat.ltb_ge; lia).
  assert (bool_decide (text = "") = false) as ->.
  { apply bool_decide_eq_false. intros ->. vm_compute in Hlen. lia. }
  simpl. by destruct nlp.
Qed.

(* ===================================================================== *)
(** * The learning-plan generator *)
(* ===================================================================== *)

Lemma string_app_assoc (a b c : string) : (a +:+ b) +:+ c = a +:+ b +:+ c.
Proof.
  induction a as [|x a IH]; [reflexivity|].
  change (String x ((a +:+ b) +:+ c) = String x (a +:+ b +:+ c)).
  by rewrite IH.
Qed.

Section GeneratorFacts.
Context `{PyFloat}.
Variable db : string → Z → string + list Row.
Variable now : string.

(** The message is a fixed text around the printed percentage. *)
Lemma no_gaps_message_shape :
  ∃ pre post : string, ∀ result : ResultView,
    _generate_no_gaps_message result
    = pre +:+ str_float (match_percentage result) +:+ post.
Proof.
  exists (PyStr.join PyStr.nl
            [PyStr.repeat_str "=" 70; "🎉 CONGRATULATIONS!";
             PyStr.repeat_str "=" 70; ""]
          +:+ PyStr.nl +:+ "Overall Match: ").
  exists ("%" +:+ PyStr.nl
          +:+ PyStr.join PyStr.nl
                [""; "You already have all the key skills required for the analyzed jobs!";
                 "Consider focusing on:"; "";
                 "• Advanced topics in your existing skills";
                 "• Emerging technologies in your field";
                 "• Leadership and soft skills development";
                 "• Building a strong portfolio of projects";
                 ""; PyStr.repeat_str "=" 70]).
  intros result.
  unfold _generate_no_gaps_message, no_gaps_lines.
  cbn [PyStr.join].
  rewrite !string_app_assoc. reflexivity.
Qed.

(** Every catalog lookup is recorded after the calls made before it. *)
Lemma fetch_loop_calls skills d calls :
  ∃ more, (fetch_loop db skills d calls).2 = calls ++ more.
Proof.
  revert d calls. induction skills as [|s rest IH]; intros d calls.
  - exists []. simpl. by rewrite app_nil_r.
  - simpl. unfold gbind, lookup_resources.
    destruct (db (name s) 3) as [e|rows].
    + by eexists.
    + destruct (IH (dict_set d (name s) (map resource_of_row rows))
                   (calls ++ [(name s, 3)])) as [more Hmore].
      exists ((name s, 3) :: more). rewrite Hmore.
      by rewrite <- app_assoc.
Qed.

(** C6.  With no missing skill, [generate_learning_path] returns the
    congratulatory message: the fixed lines below, joined by newlines,
    the fifth of which carries the printed match percentage of the
    result.  The result is left as it was and no call to the resource
    lookup is made. *)
Theorem generate_learning_path_no_gaps (result : ResultView)
    (calls : list (string * Z)) :
  view_missing_skills result = [] →
  let rule :=
    "======================================================================" in
  let before := [rule; "🎉 CONGRATULATIONS!"; rule; ""] in
  let after :=
    [""; "You already have all the key skills required for the analyzed jobs!";
     "Consider focusing on:"; "";
     "• Advanced topics in your existing skills";
     "• Emerging technologies in your field";
     "• Leadership and soft skills development";
     "• Building a strong portfolio of projects";
     ""; rule] in
  generate_learning_path db now result calls
  = ((PyStr.join PyStr.nl
        (before
         ++ ["Overall Match: " +:+ str_float (match_percentage result) +:+ "%"]
         ++ after),
      result), calls)
  ∧ rule = PyStr.repeat_str "=" 70.
Proof.
  intros Hempty rule before after. split; [|reflexivity].
  unfold generate_learning_path. rewrite Hempty. reflexivity.
Qed.

(** With a missing skill the lookup is invoked, first for the most
    demanded skill. *)
Lemma generate_learning_path_gaps_calls (result : ResultView) s rest calls :
  view_missing_skills result = s :: rest →
  ∃ more, (generate_learning_path db now result calls).2
          = calls ++ (name s, 3) :: more.
Proof.
  intros Hmissing. unfold generate_learning_path. rewrite Hmissing.
  unfold _fetch_resources_for_skills, _prioritize_skills.
  cbn [take fetch_loop]. unfold gbind, lookup_resources.
  destruct (db (name s) 3) as [e|rows]; [by exists []|].
  match goal with |- context [fetch_loop db ?sk ?d ?c] =>
    destruct (fetch_loop_calls sk d c) as [more Hmore];
    destruct (fetch_loop db sk d c) as [[e|r] calls'] eqn:E
  end; simpl in *; subst calls'; exists more; by rewrite <- app_assoc.
Qed.

(** C5.  Only the first 8 missing skills are planned; week [k + 1] gets
    [skills[2k : 2k + 2]], in order; a week that would get no skill is not
    emitted and ends the plan.  So 3 skills give 2 weeks (2 skills, then
    1) and 8 or more give 4 weeks of 2. *)
Theorem plan_periods (skills : list Skill)
    (skill_resources : pydict (list LearningResource)) :
  let plan :=
    _distribute_skills_across_weeks (_prioritize_skills skills 8) skill_resources in
  concat (map week_skills plan) = take 8 skills
  ∧ (∀ (k : nat) (w : WeekData), plan !! k = Some w →
       week_number w = S k
       ∧ week_skills w = PyStr.slice (2 * k) (2 * k + 2) skills
       ∧ week_skills w ≠ [])
  ∧ length plan = ((Nat.min 8 (length skills) + 1) / 2)%nat
  ∧ (length skills = 3%nat →
       map (λ w, length (week_skills w)) plan = [2; 1]%nat)
  ∧ ((8 ≤ length skills)%nat →
       map (λ w, length (week_skills w)) plan = [2; 2; 2; 2]%nat).
Proof.
  unfold _distribute_skills_across_weeks, _prioritize_skills.
  destruct skills as [|s1 [|s2 [|s3 [|s4 [|s5 [|s6 [|s7 [|s8 more]]]]]]]];
    cbn [take distribute_loop PyStr.slice drop Nat.sub Nat.mul Nat.add];
    (split; [reflexivity|split; [|split; [reflexivity|split]]]);
    try (intros Hlen; simpl in Hlen; first [reflexivity | lia]).
  all: intros k w Hk;
    do 5 (try destruct k as [|k]); simpl in Hk; simplify_eq; done.
Qed.

End GeneratorFacts.

Lemma generate_learning_path_no_gaps_witness :
  let F := ExactFloat.exact in
  let result := mkResultView (65 # 1)%Q [] [] in
  (generate_learning_path (λ _ _, inr []) "2026-01-01 10:00" result []).2 = [].
Proof.
  intros F result.
  by rewrite (proj1 (generate_learning_path_no_gaps (λ _ _, inr [])
                       "2026-01-01 10:00" result [] eq_refl)).
Defined.

Lemma plan_periods_witness :
  let F := ExactFloat.exact in
  let skills := [Skill_init "docker" "DevOps" true 3;
                 Skill_init "aws" "Cloud" true 2;
                 Skill_init "react" "Framework" true 1] in
  map (λ w, length (week_skills w))
      (_distribute_skills_across_weeks (_prioritize_skills skills 8) []) = [2; 1]%nat.
Proof.
  intros F skills.
  apply (plan_periods skills []). reflexivity.
Defined.

(* ===================================================================== *)
(** * The master vocabulary and the simple-overlap score *)
(* ===================================================================== *)

Lemma elem_of_add_names (S : gset string) (skills : list Skill) (x : string) :
  x ∈ add_names S skills ↔ x ∈ S ∨ ∃ s, s ∈ skills ∧ x = key s.
Proof.
  unfold add_names, key. revert S.
  induction skills as [|s rest IH]; intros S; simpl.
  - set_solver.
  - rewrite IH. set_solver.
Qed.

Lemma elem_of_add_job_names (S : gset string) (jobs : list (list Skill)) (x : string) :
  x ∈ add_job_names S jobs
  ↔ x ∈ S ∨ ∃ job s, job ∈ jobs ∧ s ∈ job ∧ x = key s.
Proof.
  unfold add_job_names. revert S.
  induction jobs as [|job rest IH]; intros S; simpl.
  - set_solver.
  - rewrite IH, elem_of_add_names. set_solver.
Qed.

(** The set of names ignores the order of the jobs. *)
Lemma add_job_names_perm (S : gset string) (jobs jobs' : list (list Skill)) :
  jobs ≡ₚ jobs' → add_job_names S jobs = add_job_names S jobs'.
Proof.
  intros Hperm. apply set_eq. intros x.
  rewrite !elem_of_add_job_names.
  by setoid_rewrite Hperm.
Qed.

Lemma elem_of_concat {A} (x : A) (ls : list (list A)) :
  x ∈ concat ls ↔ ∃ l, l ∈ ls ∧ x ∈ l.
Proof.
  induction ls as [|l ls IH]; simpl.
  - set_solver.
  - rewrite elem_of_app, IH. set_solver.
Qed.

Lemma elem_of_map {A B} (f : A → B) (l : list A) (y : B) :
  y ∈ map f l ↔ ∃ x, x ∈ l ∧ y = f x.
Proof.
  change (map f l) with (f <$> l). rewrite list_elem_of_fmap. naive_solver.
Qed.

Lemma add_job_names_list (jobs : list (list Skill)) :
  add_job_names ∅ jobs = list_to_set (map key (concat jobs)).
Proof.
  apply set_eq. intros x.
  rewrite elem_of_add_job_names, elem_of_list_to_set, elem_of_map.
  setoid_rewrite elem_of_concat. set_solver.
Qed.

Lemma sorted_spec (xs : list string) :
  StronglySorted String.le (sorted xs) ∧ sorted xs ≡ₚ xs.
Proof.
  split.
  - apply (StronglySorted_merge_sort String.le).
  - apply merge_sort_Permutation.
Qed.

(** C8.  The master vocabulary is the ascending list, without repetition,
    of the lowercased names of the resume's skills and of every job's
    required skills: it is the only such list, and permuting the jobs
    leaves it unchanged. *)
Theorem master_skill_list_sorted_distinct (resume_skills : list Skill)
    (jobs : list (list Skill)) :
  let vocabulary := _create_master_skill_list resume_skills jobs in
  let occurs (x : string) : Prop :=
    (∃ s, s ∈ resume_skills ∧ x = PyStr.lower (name s))
    ∨ (∃ job s, job ∈ jobs ∧ s ∈ job ∧ x = PyStr.lower (name s)) in
  StronglySorted String.le vocabulary
  ∧ NoDup vocabulary
  ∧ (∀ x, x ∈ vocabulary ↔ occurs x)
  ∧ (∀ l, StronglySorted String.le l → NoDup l → (∀ x, x ∈ l ↔ occurs x) →
          l = vocabulary)
  ∧ (∀ jobs', jobs ≡ₚ jobs' →
          _create_master_skill_list resume_skills jobs' = vocabulary).
Proof.
  intros vocabulary occurs.
  assert (∀ x, x ∈ vocabulary ↔ occurs x) as Hmem.
  { intros x. unfold vocabulary, _create_master_skill_list.
    rewrite (proj2 (sorted_spec _)), elem_of_elements.
    rewrite elem_of_add_job_names, elem_of_add_names.
    unfold occurs, key. set_solver. }
  assert (NoDup vocabulary) as Hnodup.
  { unfold vocabulary, _create_master_skill_list.
    rewrite (proj2 (sorted_spec _)). apply NoDup_elements. }
  assert (StronglySorted String.le vocabulary) as Hsorted
    by apply sorted_spec.
  split_and!; [done..| |].
  - intros l Hl Hnd Hl_mem.
    apply (StronglySorted_unique String.le); [done..|].
    apply NoDup_Permutation; [done..|].
    intros x. by rewrite Hl_mem, Hmem.
  - intros jobs' Hperm. unfold vocabulary, _create_master_skill_list.
    by rewrite (add_job_names_perm _ _ _ Hperm).
Qed.

Lemma master_skill_list_sorted_distinct_witness :
  let python := Skill_init "Python" "Programming Language" true 1 in
  let sql := Skill_init "SQL" "Database" true 1 in
  let docker := Skill_init "docker" "DevOps" true 1 in
  _create_master_skill_list [python; sql] [[sql; docker]; [python; docker]]
  = _create_master_skill_list [python; sql] [[python; docker]; [sql; docker]].
Proof.
  intros python sql docker.
  apply (master_skill_list_sorted_distinct [python; sql]
           [[python; docker]; [sql; docker]]).
  apply perm_swap.
Defined.

Example master_skill_list_ex :
  _create_master_skill_list
    [Skill_init "Python" "" true 1; Skill_init "SQL" "" true 1]
    [[Skill_init "sql" "" true 1; Skill_init "Docker" "" true 1];
     [Skill_init " python" "" true 1; Skill_init "AWS" "" true 1]]
  = ["aws"; "docker"; "python"; "sql"].
Proof. vm_compute. reflexivity. Qed.

Lemma size_required (jobs : list (list Skill)) :
  size (add_job_names ∅ jobs) = length (required_names jobs).
Proof.
  unfold required_names.
  rewrite <- (size_list_to_set (C := gset string));
    [|apply NoDup_remove_dups].
  f_equal. rewrite add_job_names_list. apply set_eq. intros x.
  by rewrite !elem_of_list_to_set, elem_of_remove_dups.
Qed.

Lemma size_required_held (resume_skills : list Skill) (jobs : list (list Skill)) :
  size (add_job_names ∅ jobs
        ∩ list_to_set (map (λ skill, PyStr.lower (name skill)) resume_skills))
  = length (required_names_held resume_skills jobs).
Proof.
  unfold required_names_held, required_names.
  rewrite <- (size_list_to_set (C := gset string));
    [|apply NoDup_filter, NoDup_remove_dups].
  f_equal. rewrite add_job_names_list. apply set_eq. intros x.
  rewrite elem_of_intersection, !elem_of_list_to_set, list_elem_of_filter.
  rewrite elem_of_remove_dups. unfold key. tauto.
Qed.

Lemma required_names_nil (jobs : list (list Skill)) :
  add_job_names ∅ jobs = ∅ ↔ required_names jobs = [].
Proof.
  rewrite <- (leibniz_equiv_iff (add_job_names ∅ jobs) ∅).
  rewrite <- size_empty_iff, size_required.
  by destruct (required_names jobs).
Qed.

Lemma length_required_held_le (resume_skills : list Skill) (jobs : list (list Skill)) :
  (length (required_names_held resume_skills jobs) ≤ length (required_names jobs))%nat.
Proof. apply length_filter. Qed.

(** C4.  For a non-empty job list the fallback score is
    [round(m / n * 100, 2)], where [n] counts the distinct lowercased names
    the jobs require and [m] those of them among the resume's lowercased
    names (and [0.0] when the jobs require nothing); it is a function of
    its inputs, lies between 0 and 100, and is 0 when no required name is
    held. *)
Theorem simple_overlap_score (F : PyFloat) (laws : PyFloatLaws F)
    (resume_skills : list Skill)
    (jobs : list (list Skill)) :
  jobs ≠ [] →
  let n := length (required_names jobs) in
  let m := length (required_names_held resume_skills jobs) in
  let score := _calculate_simple_overlap resume_skills jobs in
  score = (if decide (n = 0%nat) then fzero
           else round_ndigits (mul_int (truediv (Z.of_nat m) (Z.of_nat n)) 100) 2)
  ∧ (∀ resume_skills' jobs', resume_skills' = resume_skills → jobs' = jobs →
       _calculate_simple_overlap resume_skills' jobs' = score)
  ∧ fle fzero score ∧ fle score (of_int 100)
  ∧ (m = 0%nat → score = fzero).
Proof.
  intros Hjobs n m score.
  assert (score = (if decide (n = 0%nat) then fzero
           else round_ndigits (mul_int (truediv (Z.of_nat m) (Z.of_nat n)) 100) 2))
    as Hscore.
  { unfold score, _calculate_simple_overlap.
    destruct jobs as [|job rest]; [done|].
    set (jobs := job :: rest) in *.
    destruct (decide (add_job_names ∅ jobs = ∅)) as [Hreq|Hreq].
    - apply required_names_nil in Hreq.
      rewrite decide_True; [done|]. unfold n. by rewrite Hreq.
    - rewrite required_names_nil in Hreq.
      rewrite size_required, size_required_held. fold n m.
      rewrite decide_False; [done|].
      unfold n. by destruct (required_names jobs). }
  split; [done|]. split; [by intros ?? -> ->|].
  pose proof (length_required_held_le resume_skills jobs) as Hle. fold n m in Hle.
  rewrite Hscore. destruct (decide (n = 0%nat)) as [Hn|Hn].
  - split_and!; [apply fle_zero_zero | apply fle_zero_hundred | done].
  - destruct (truediv_unit (Z.of_nat m) (Z.of_nat n)) as [Hd0 Hd1]; [lia..|].
    destruct (mul_int_percent _ Hd0 Hd1) as [Hm0 Hm1].
    destruct (round_percent _ Hm0 Hm1) as [Hr0 Hr1].
    split_and!; [done..|].
    intros ->. simpl. rewrite truediv_zero by lia.
    by rewrite mul_int_zero, round_zero.
Qed.

(** ** The exact instance satisfies the float laws *)

Module ExactFloatFacts.
Import ExactFloat.

Lemma round_half_even_bounds (q : Q) (lo hi : Z) :
  (inject_Z lo <= q)%Q → (q <= inject_Z hi)%Q →
  (lo ≤ round_half_even q ≤ hi)%Z.
Proof.
  intros Hlo Hhi. unfold round_half_even.
  pose proof (Qfloor_le q) as Hfloor.
  pose proof (Qlt_floor q) as Hceil.
  assert (lo ≤ Qfloor q)%Z as Hlo'.
  { apply Z.lt_succ_r. rewrite Zlt_Qlt.
    eapply Qle_lt_trans; [exact Hlo|]. exact Hceil. }
  assert (Qfloor q ≤ hi)%Z as Hhi'.
  { rewrite Zle_Qle. eapply Qle_trans; [exact Hfloor|exact Hhi]. }
  assert ((inject_Z (Qfloor q) < q)%Q → (Qfloor q + 1 ≤ hi)%Z) as Hstrict.
  { intros Hlt. assert (Qfloor q < hi)%Z; [|lia].
    rewrite Zlt_Qlt. eapply Qlt_le_trans; [exact Hlt|exact Hhi]. }
  destruct (Qcompare_spec (q - inject_Z (Qfloor q)) (1 # 2)) as [He|Hl|Hg].
  - destruct (Z.even (Qfloor q)); [lia|].
    split; [lia|]. apply Hstrict. lra.
  - lia.
  - split; [lia|]. apply Hstrict. lra.
Qed.

Lemma truediv_bounds (m n : Z) :
  (0 ≤ m ≤ n)%Z → (0 < n)%Z →
  (0 <= inject_Z m / inject_Z n)%Q ∧ (inject_Z m / inject_Z n <= 1)%Q.
Proof.
  intros [Hm Hmn] Hn.
  assert (0 < inject_Z n)%Q as Hn' by (by rewrite (Zlt_Qlt 0 n) in Hn).
  split.
  - apply Qle_shift_div_l; [done|]. rewrite Qmult_0_l.
    by rewrite (Zle_Qle 0 m) in Hm.
  - apply Qle_shift_div_r; [done|]. rewrite Qmult_1_l.
    by rewrite Zle_Qle in Hmn.
Qed.

#[export] Instance exact_laws : PyFloatLaws exact.
Proof.
  split; cbn [fle fzero of_int truediv mul_int round_ndigits exact].
  - done.
  - done.
  - intros n Hn. apply (Qred_complete _ 0). unfold Qdiv. apply Qmult_0_l.
  - reflexivity.
  - reflexivity.
  - intros m n Hmn Hn. rewrite Qred_correct. by apply truediv_bounds.
  - intros x Hx0 Hx1. rewrite Qred_correct.
    change (inject_Z 100) with (100 # 1)%Q. change (inject_Z 1) with 1%Q in Hx1.
    split.
    + apply Qmult_le_0_compat; done.
    + rewrite <- (Qmult_1_l (100 # 1)) at 2. apply Qmult_le_compat_r; done.
  - intros x Hx0 Hx100. unfold round_digits_q.
    change (0 <=? 2)%Z with true. cbn iota. rewrite Qred_correct.
    change (10 ^ 2)%Z with 100%Z.
    destruct (round_half_even_bounds (x * inject_Z 100) 0 10000) as [Hr0 Hr1].
    { change (inject_Z 0) with 0%Q. apply Qmult_le_0_compat; done. }
    { change (inject_Z 10000) with (inject_Z 100 * inject_Z 100)%Q.
      apply Qmult_le_compat_r; done. }
    split.
    + apply Qle_shift_div_l; [done|]. rewrite Qmult_0_l.
      by rewrite (Zle_Qle 0) in Hr0.
    + apply Qle_shift_div_r; [done|].
      change (inject_Z 100 * inject_Z 100)%Q with (inject_Z 10000).
      by rewrite Zle_Qle in Hr1.
Qed.

End ExactFloatFacts.

Lemma simple_overlap_score_witness :
  let python := Skill_init "Python" "Programming Language" true 1 in
  let sql := Skill_init "SQL" "Database" true 1 in
  let git := Skill_init "Git" "Version Control" true 1 in
  let docker := Skill_init "Docker" "DevOps" true 1 in
  @fle ExactFloat.exact
    (@_calculate_simple_overlap ExactFloat.exact [python; sql; git]
       [[python; docker]; [sql; docker]])
    (inject_Z 100).
Proof.
  intros python sql git docker.
  apply (simple_overlap_score ExactFloat.exact ExactFloatFacts.exact_laws
           [python; sql; git] [[python; docker]; [sql; docker]]).
  discriminate.
Defined.

Example simple_overlap_ex :
  @_calculate_simple_overlap ExactFloat.exact
    [Skill_init "Python" "" true 1; Skill_init "SQL" "" true 1;
     Skill_init "Git" "" true 1]
    [[Skill_init "Python" "" true 1; Skill_init "Docker" "" true 1];
     [Skill_init "SQL" "" true 1; Skill_init "Docker" "" true 1]]
  = (6667 # 100)%Q.
Proof. vm_compute. reflexivity. Qed.

(* ===================================================================== *)
(** * Running store computations *)
(* ===================================================================== *)

Section Run.
Implicit Types (st : store) (h : list Skill) (xs : list loc) (l e : loc).

Lemma bind_run {A B} (m : M A) (k : A → M B) st a st' :
  m st = Some (a, st') → bind m k st = k a st'.
Proof. unfold bind. by intros ->. Qed.

Lemma read_skill_run st l s :
  skill_objs st !! l = Some s → read_skill l st = Some (s, st).
Proof. unfold read_skill. by intros ->. Qed.

Lemma write_skill_run st l s :
  is_Some (skill_objs st !! l) →
  write_skill l s st
  = Some (tt, mkStore (<[l := s]> (skill_objs st)) (list_objs st)).
Proof. unfold write_skill. by intros [? ->]. Qed.

Lemma read_list_run st r xs :
  list_objs st !! r = Some xs → read_list r st = Some (xs, st).
Proof. unfold read_list. by intros ->. Qed.

Lemma list_append_run st r xs x :
  list_objs st !! r = Some xs →
  list_append r x st
  = Some (tt, mkStore (skill_objs st) (<[r := xs ++ [x]]> (list_objs st))).
Proof. unfold list_append. by intros ->. Qed.

Lemma matches_run st a b x y :
  skill_objs st !! a = Some x → skill_objs st !! b = Some y →
  matches a b st = Some (matches_val x y, st).
Proof.
  intros Ha Hb. unfold matches.
  rewrite (bind_run _ _ _ _ _ (read_skill_run _ _ _ Ha)).
  by rewrite (bind_run _ _ _ _ _ (read_skill_run _ _ _ Hb)).
Qed.

Lemma increment_frequency_run st l s :
  skill_objs st !! l = Some s →
  increment_frequency l st
  = Some (tt, mkStore (<[l := incremented s]> (skill_objs st)) (list_objs st)).
Proof.
  intros Hl. unfold increment_frequency.
  rewrite (bind_run _ _ _ _ _ (read_skill_run _ _ _ Hl)).
  by apply write_skill_run.
Qed.

Lemma find_match_Some h xs v e :
  find_match h xs v = Some e →
  ∃ x, e ∈ xs ∧ h !! e = Some x ∧ key x = key v.
Proof.
  induction xs as [|e' rest IH]; cbn [find_match]; [done|].
  destruct (h !! e') as [x|] eqn:He'; [|done].
  destruct (matches_val x v) eqn:Hm.
  - intros [= <-]. exists x. split_and!; [left|done|].
    by apply bool_decide_eq_true in Hm.
  - intros Hrest. destruct (IH Hrest) as (y & ? & ? & ?).
    exists y. split_and!; [by right|done..].
Qed.

Lemma find_match_None h xs v :
  valid_in h xs →
  find_match h xs v = None ↔ ∀ e x, e ∈ xs → h !! e = Some x → key x ≠ key v.
Proof.
  unfold valid_in. induction 1 as [|e' rest [x He'] Hrest IH]; cbn [find_match].
  - split; [|done]. intros _ ?? []%elem_of_nil.
  - rewrite He'. destruct (matches_val x v) eqn:Hm.
    + apply bool_decide_eq_true in Hm. split; [done|].
      intros Hno. destruct (Hno e' x); [left|done..].
    + apply bool_decide_eq_false in Hm. rewrite IH. split.
      * intros Hno e y [->|?]%elem_of_cons ?; [congruence|by eapply Hno].
      * intros Hno e y ??. eapply Hno; [by right|done].
Qed.

(** In a deduplicated collection the first match is the only match. *)
Lemma find_match_dedup h xs v e x :
  valid_in h xs → deduplicated h xs →
  e ∈ xs → h !! e = Some x → key x = key v →
  find_match h xs v = Some e.
Proof.
  intros Hvalid Hdedup He Hx Hkey.
  destruct (find_match h xs v) as [e'|] eqn:Hfind.
  - destruct (find_match_Some _ _ _ _ Hfind) as (x' & He' & Hx' & Hkey').
    f_equal. eapply Hdedup; [done..|congruence].
  - rewrite find_match_None in Hfind by done. by destruct (Hfind e x).
Qed.

(** The scan of [add_skill], [add_required_skill] and
    [add_missing_skill]: the first match, if any, is incremented and
    nothing else changes. *)
Lemma increment_first_match_run st xs skill v :
  skill_objs st !! skill = Some v → valid_in (skill_objs st) xs →
  increment_first_match xs skill st
  = Some (match find_match (skill_objs st) xs v with
          | Some e =>
              (true, mkStore (alter incremented e (skill_objs st)) (list_objs st))
          | None => (false, st)
          end).
Proof.
  intros Hskill. unfold valid_in.
  induction 1 as [|e rest [x He] Hrest IH];
    cbn [find_match increment_first_match]; [done|].
  rewrite (bind_run _ _ _ _ _ (matches_run _ _ _ _ _ He Hskill)), He.
  destruct (matches_val x v); [|done].
  rewrite (bind_run _ _ _ _ _ (increment_frequency_run _ _ _ He)).
  unfold ret. do 3 f_equal.
  apply list_eq. intros i. destruct (decide (i = e)) as [Hi|Hne].
  - subst i. rewrite list_lookup_alter_eq, He.
    apply list_lookup_insert_eq. by eapply lookup_lt_Some.
  - by rewrite list_lookup_alter_ne, list_lookup_insert_ne.
Qed.

(** The scan of [add_matching_skill] changes nothing. *)
Lemma any_matches_run st xs skill v :
  skill_objs st !! skill = Some v → valid_in (skill_objs st) xs →
  any_matches xs skill st
  = Some (bool_decide (is_Some (find_match (skill_objs st) xs v)), st).
Proof.
  intros Hskill. unfold valid_in.
  induction 1 as [|e rest [x He] Hrest IH]; cbn [find_match any_matches].
  - reflexivity.
  - rewrite (bind_run _ _ _ _ _ (matches_run _ _ _ _ _ He Hskill)), He.
    destruct (matches_val x v); [reflexivity|done].
Qed.

Lemma add_skill_run st (self : Resume) skill v xs :
  list_objs st !! skills self = Some xs →
  skill_objs st !! skill = Some v → valid_in (skill_objs st) xs →
  add_skill self skill st
  = Some (tt, match find_match (skill_objs st) xs v with
              | Some e => mkStore (alter incremented e (skill_objs st)) (list_objs st)
              | None => mkStore (skill_objs st)
                          (<[skills self := xs ++ [skill]]> (list_objs st))
              end).
Proof.
  intros Hxs Hskill Hvalid. unfold add_skill.
  rewrite (bind_run _ _ _ _ _ (read_list_run _ _ _ Hxs)).
  unfold bind at 1. rewrite (increment_first_match_run _ _ _ _ Hskill Hvalid).
  destruct (find_match _ _ _); [done|]. by apply list_append_run.
Qed.

Lemma add_required_skill_run st (self : Job) skill v xs :
  list_objs st !! required_skills self = Some xs →
  skill_objs st !! skill = Some v → valid_in (skill_objs st) xs →
  add_required_skill self skill st
  = Some (tt, match find_match (skill_objs st) xs v with
              | Some e => mkStore (alter incremented e (skill_objs st)) (list_objs st)
              | None => mkStore (skill_objs st)
                          (<[required_skills self := xs ++ [skill]]> (list_objs st))
              end).
Proof.
  intros Hxs Hskill Hvalid. unfold add_required_skill.
  rewrite (bind_run _ _ _ _ _ (read_list_run _ _ _ Hxs)).
  unfold bind at 1. rewrite (increment_first_match_run _ _ _ _ Hskill Hvalid).
  destruct (find_match _ _ _); [done|]. by apply list_append_run.
Qed.

Lemma add_matching_skill_run st (self : AnalysisResult) skill v xs :
  list_objs st !! matching_skills self = Some xs →
  skill_objs st !! skill = Some v → valid_in (skill_objs st) xs →
  add_matching_skill self skill st
  = Some (tt, match find_match (skill_objs st) xs v with
              | Some _ => st
              | None => mkStore (skill_objs st)
                          (<[matching_skills self := xs ++ [skill]]> (list_objs st))
              end).
Proof.
  intros Hxs Hskill Hvalid. unfold add_matching_skill.
  rewrite (bind_run _ _ _ _ _ (read_list_run _ _ _ Hxs)).
  rewrite (bind_run _ _ _ _ _ (any_matches_run _ _ _ _ Hskill Hvalid)).
  destruct (find_match _ _ _); simpl; [done|]. by apply list_append_run.
Qed.

Lemma add_missing_skill_run st (self : AnalysisResult) skill v xs :
  list_objs st !! missing_skills self = Some xs →
  skill_objs st !! skill = Some v → valid_in (skill_objs st) xs →
  add_missing_skill self skill st
  = Some (tt, match find_match (skill_objs st) xs v with
              | Some e => mkStore (alter incremented e (skill_objs st)) (list_objs st)
              | None => mkStore (<[skill := set_frequency 1 v]> (skill_objs st))
                          (<[missing_skills self := xs ++ [skill]]> (list_objs st))
              end).
Proof.
  intros Hxs Hskill Hvalid. unfold add_missing_skill.
  rewrite (bind_run _ _ _ _ _ (read_list_run _ _ _ Hxs)).
  unfold bind at 1. rewrite (increment_first_match_run _ _ _ _ Hskill Hvalid).
  destruct (find_match _ _ _); [done|].
  rewrite (bind_run _ _ _ _ _ (read_skill_run _ _ _ Hskill)).
  rewrite (bind_run _ _ _ _ _ (write_skill_run _ _ _ (mk_is_Some _ _ Hskill))).
  exact (list_append_run (mkStore _ (list_objs st)) _ _ _ Hxs).
Qed.

End Run.

(* ===================================================================== *)
(** * Adding a skill to a collection *)
(* ===================================================================== *)

Lemma key_incremented (s : Skill) : key (incremented s) = key s.
Proof. reflexivity. Qed.

Lemma key_set_frequency (f : Z) (s : Skill) : key (set_frequency f s) = key s.
Proof. reflexivity. Qed.

Lemma insert_incremented (h : list Skill) (e : loc) (x : Skill) :
  h !! e = Some x → alter incremented e h = <[e := incremented x]> h.
Proof.
  intros He. apply list_eq. intros i. destruct (decide (i = e)) as [Hi|Hne].
  - subst i. rewrite list_lookup_alter_eq, He.
    symmetry. apply list_lookup_insert_eq. by eapply lookup_lt_Some.
  - by rewrite list_lookup_alter_ne, list_lookup_insert_ne.
Qed.

(** Incrementing a frequency changes no name. *)
Lemma lookup_alter_incremented (h : list Skill) (e l : loc) (y : Skill) :
  alter incremented e h !! l = Some y →
  ∃ x, h !! l = Some x ∧ key y = key x.
Proof.
  destruct (decide (e = l)) as [->|Hne].
  - rewrite list_lookup_alter_eq. destruct (h !! l) as [x|]; [|done].
    intros [= <-]. by exists x.
  - rewrite list_lookup_alter_ne by done. intros Hl. by exists y.
Qed.

(** C3.  Let [b] be the skill being added to a resume or to a job whose
    collection is deduplicated.  If the collection holds a skill [a] with
    the same lowercased name, the call increments the frequency of [a] by
    1 and leaves every list, hence the number of entries, as it was; if no
    entry has that lowercased name, [b] is appended as a new entry and no
    skill object changes. *)
Theorem add_skill_same_name (st : store) (r : Resume) (j : Job)
    (skill : loc) (b : Skill) (xs ys : list loc) :
  skill_objs st !! skill = Some b →
  list_objs st !! skills r = Some xs →
  valid_in (skill_objs st) xs → deduplicated (skill_objs st) xs →
  list_objs st !! required_skills j = Some ys →
  valid_in (skill_objs st) ys → deduplicated (skill_objs st) ys →
  (∀ la a, la ∈ xs → skill_objs st !! la = Some a →
     PyStr.lower (name a) = PyStr.lower (name b) →
     add_skill r skill st
     = Some (tt, mkStore (<[la := set_frequency (frequency a + 1) a]> (skill_objs st))
                         (list_objs st)))
  ∧ ((∀ la a, la ∈ xs → skill_objs st !! la = Some a →
        PyStr.lower (name a) ≠ PyStr.lower (name b)) →
     add_skill r skill st
     = Some (tt, mkStore (skill_objs st)
                         (<[skills r := xs ++ [skill]]> (list_objs st))))
  ∧ (∀ la a, la ∈ ys → skill_objs st !! la = Some a →
       PyStr.lower (name a) = PyStr.lower (name b) →
       add_required_skill j skill st
       = Some (tt, mkStore (<[la := set_frequency (frequency a + 1) a]> (skill_objs st))
                           (list_objs st)))
  ∧ ((∀ la a, la ∈ ys → skill_objs st !! la = Some a →
        PyStr.lower (name a) ≠ PyStr.lower (name b)) →
     add_required_skill j skill st
     = Some (tt, mkStore (skill_objs st)
                         (<[required_skills j := ys ++ [skill]]> (list_objs st)))).
Proof.
  intros Hskill Hxs Hvx Hdx Hys Hvy Hdy. split_and!.
  - intros la a Hla Ha Hkey.
    rewrite (add_skill_run _ _ _ _ _ Hxs Hskill Hvx).
    rewrite (find_match_dedup _ _ _ _ _ Hvx Hdx Hla Ha Hkey).
    by rewrite (insert_incremented _ _ _ Ha).
  - intros Hnone.
    rewrite (add_skill_run _ _ _ _ _ Hxs Hskill Hvx).
    by rewrite (proj2 (find_match_None _ _ b Hvx) Hnone).
  - intros la a Hla Ha Hkey.
    rewrite (add_required_skill_run _ _ _ _ _ Hys Hskill Hvy).
    rewrite (find_match_dedup _ _ _ _ _ Hvy Hdy Hla Ha Hkey).
    by rewrite (insert_incremented _ _ _ Ha).
  - intros Hnone.
    rewrite (add_required_skill_run _ _ _ _ _ Hys Hskill Hvy).
    by rewrite (proj2 (find_match_None _ _ b Hvy) Hnone).
Qed.

Lemma deduplicated_singleton (h : list Skill) (l : loc) : deduplicated h [l].
Proof.
  intros l1 l2 x1 x2 Hl1 Hl2 _ _ _.
  apply list_elem_of_singleton in Hl1, Hl2. congruence.
Qed.

Lemma add_skill_same_name_witness :
  let python := Skill_init "Python" "Programming Language" true 1 in
  let docker := Skill_init "docker" "DevOps" true 1 in
  let PYTHON := Skill_init " PYTHON " "Technical" true 0 in
  let st := mkStore [python; docker; PYTHON] [[0%nat]; [1%nat]] in
  add_skill (mkResume "cv.pdf" PDF "" 0) 2 st
  = Some (tt, mkStore [set_frequency 2 python; docker; PYTHON] [[0%nat]; [1%nat]]).
Proof.
  intros python docker PYTHON st.
  refine (proj1 (add_skill_same_name st (mkResume "cv.pdf" PDF "" 0)
                   (mkJob "Developer" "Tech Corp" "" 1) 2 PYTHON [0%nat] [1%nat]
                   eq_refl eq_refl _ _ eq_refl _ _) 0%nat python _ eq_refl eq_refl).
  - repeat constructor; by eexists.
  - apply deduplicated_singleton.
  - repeat constructor; by eexists.
  - apply deduplicated_singleton.
  - by left.
Defined.

(** [add_skill] keeps a collection valid and deduplicated. *)
Lemma add_skill_keeps_invariant (st st' : store) (r : Resume) (skill : loc)
    (b : Skill) (xs : list loc) :
  skill_objs st !! skill = Some b →
  list_objs st !! skills r = Some xs →
  valid_in (skill_objs st) xs → deduplicated (skill_objs st) xs →
  add_skill r skill st = Some (tt, st') →
  ∃ xs', list_objs st' !! skills r = Some xs'
         ∧ valid_in (skill_objs st') xs' ∧ deduplicated (skill_objs st') xs'.
Proof.
  intros Hskill Hxs Hvalid Hdedup.
  rewrite (add_skill_run _ _ _ _ _ Hxs Hskill Hvalid).
  destruct (find_match (skill_objs st) xs b) as [e|] eqn:Hfind; intros [= <-].
  - exists xs. simpl. split_and!; [done| |].
    + eapply Forall_impl; [exact Hvalid|]. intros l [x Hl]. simpl in *.
      destruct (decide (e = l)) as [->|Hne].
      * rewrite list_lookup_alter_eq, Hl. by eexists.
      * rewrite list_lookup_alter_ne by done. by eexists.
    + intros l1 l2 y1 y2 Hl1 Hl2 Hy1 Hy2 Hkey.
      apply lookup_alter_incremented in Hy1 as (x1 & Hx1 & Hk1).
      apply lookup_alter_incremented in Hy2 as (x2 & Hx2 & Hk2).
      eapply Hdedup; [done..|congruence].
  - rewrite find_match_None in Hfind by done.
    exists (xs ++ [skill]). simpl. split_and!.
    + apply list_lookup_insert_eq. by eapply lookup_lt_Some.
    + apply Forall_app. split; [done|]. repeat constructor. by eexists.
    + intros l1 l2 x1 x2 Hl1 Hl2 Hx1 Hx2 Hkey.
      apply elem_of_app in Hl1 as [Hl1|Hl1%list_elem_of_singleton];
        apply elem_of_app in Hl2 as [Hl2|Hl2%list_elem_of_singleton];
        subst.
      * by eapply Hdedup.
      * destruct (Hfind l1 x1 Hl1 Hx1). congruence.
      * destruct (Hfind l2 x2 Hl2 Hx2). congruence.
      * done.
Qed.

(** So does [add_required_skill]. *)
Lemma add_required_skill_keeps_invariant (st st' : store) (j : Job) (skill : loc)
    (b : Skill) (xs : list loc) :
  skill_objs st !! skill = Some b →
  list_objs st !! required_skills j = Some xs →
  valid_in (skill_objs st) xs → deduplicated (skill_objs st) xs →
  add_required_skill j skill st = Some (tt, st') →
  ∃ xs', list_objs st' !! required_skills j = Some xs'
         ∧ valid_in (skill_objs st') xs' ∧ deduplicated (skill_objs st') xs'.
Proof.
  intros Hskill Hxs Hvalid Hdedup.
  rewrite (add_required_skill_run _ _ _ _ _ Hxs Hskill Hvalid).
  destruct (find_match (skill_objs st) xs b) as [e|] eqn:Hfind; intros [= <-].
  - exists xs. simpl. split_and!; [done| |].
    + eapply Forall_impl; [exact Hvalid|]. intros l [x Hl]. simpl in *.
      destruct (decide (e = l)) as [->|Hne].
      * rewrite list_lookup_alter_eq, Hl. by eexists.
      * rewrite list_lookup_alter_ne by done. by eexists.
    + intros l1 l2 y1 y2 Hl1 Hl2 Hy1 Hy2 Hkey.
      apply lookup_alter_incremented in Hy1 as (x1 & Hx1 & Hk1).
      apply lookup_alter_incremented in Hy2 as (x2 & Hx2 & Hk2).
      eapply Hdedup; [done..|congruence].
  - rewrite find_match_None in Hfind by done.
    exists (xs ++ [skill]). simpl. split_and!.
    + apply list_lookup_insert_eq. by eapply lookup_lt_Some.
    + apply Forall_app. split; [done|]. repeat constructor. by eexists.
    + intros l1 l2 x1 x2 Hl1 Hl2 Hx1 Hx2 Hkey.
      apply elem_of_app in Hl1 as [Hl1|Hl1%list_elem_of_singleton];
        apply elem_of_app in Hl2 as [Hl2|Hl2%list_elem_of_singleton];
        subst.
      * by eapply Hdedup.
      * destruct (Hfind l1 x1 Hl1 Hx1). congruence.
      * destruct (Hfind l2 x2 Hl2 Hx2). congruence.
      * done.
Qed.

(* ===================================================================== *)
(** * Adding to the matching skills of a result *)
(* ===================================================================== *)

(** C10.  When the matching list already holds a skill with the added
    skill's lowercased name, [add_matching_skill] is a no-op: the store is
    returned as it was, so no list and no frequency changes.  The same
    scan in [add_missing_skill] and in [Resume.add_skill] does increment
    the frequency of the entry it finds. *)
Theorem add_matching_skill_existing_noop (st : store) (self : AnalysisResult)
    (skill : loc) (v : Skill) (xs : list loc) :
  list_objs st !! matching_skills self = Some xs →
  skill_objs st !! skill = Some v →
  valid_in (skill_objs st) xs →
  (∃ e x, e ∈ xs ∧ skill_objs st !! e = Some x
          ∧ PyStr.lower (name x) = PyStr.lower (name v)) →
  add_matching_skill self skill st = Some (tt, st)
  ∧ ∃ e x, e ∈ xs ∧ skill_objs st !! e = Some x
      ∧ PyStr.lower (name x) = PyStr.lower (name v)
      ∧ let st' := mkStore (<[e := set_frequency (frequency x + 1) x]> (skill_objs st))
                           (list_objs st) in
        st' ≠ st
        ∧ (∀ other : AnalysisResult, missing_skills other = matching_skills self →
             add_missing_skill other skill st = Some (tt, st'))
        ∧ (∀ r : Resume, skills r = matching_skills self →
             add_skill r skill st = Some (tt, st')).
Proof.
  intros Hxs Hskill Hvalid (e0 & x0 & He0 & Hx0 & Hkey0).
  destruct (find_match (skill_objs st) xs v) as [e|] eqn:Hfind; cycle 1.
  { rewrite find_match_None in Hfind by done. by destruct (Hfind e0 x0). }
  split.
  - rewrite (add_matching_skill_run _ _ _ _ _ Hxs Hskill Hvalid).
    by rewrite Hfind.
  - destruct (find_match_Some _ _ _ _ Hfind) as (x & He & Hx & Hkey).
    exists e, x. split_and!; [done..|]. intros st'. split_and!.
    + intros Heq. apply (f_equal (λ s, frequency <$> skill_objs s !! e)) in Heq.
      simpl in Heq. rewrite list_lookup_insert_eq in Heq
        by (by eapply lookup_lt_Some).
      rewrite Hx in Heq. simpl in Heq. injection Heq. lia.
    + intros other Hother.
      rewrite (add_missing_skill_run _ _ _ v xs); [|by rewrite Hother|done..].
      by rewrite Hfind, (insert_incremented _ _ _ Hx).
    + intros r Hr.
      rewrite (add_skill_run _ _ _ v xs); [|by rewrite Hr|done..].
      by rewrite Hfind, (insert_incremented _ _ _ Hx).
Qed.

Lemma add_matching_skill_existing_noop_witness :
  let python := Skill_init "Python" "Programming Language" true 3 in
  let PYTHON := Skill_init "PYTHON" "Technical" true 1 in
  let st := mkStore [python; PYTHON] [[0%nat]; []] in
  let r := mkResume "cv.pdf" PDF "" 2 in
  add_matching_skill (mkAnalysisResult r [] 0 1) 1 st = Some (tt, st).
Proof.
  intros python PYTHON st r.
  apply (add_matching_skill_existing_noop st (mkAnalysisResult r [] 0 1) 1
           PYTHON [0%nat] eq_refl eq_refl).
  - repeat constructor; by eexists.
  - exists 0%nat, python. split_and!; [by left|done|done].
Defined.

(* ===================================================================== *)
(** * Gap identification: the aggregation loop *)
(* ===================================================================== *)

Section Dict.
Context {V : Type}.
Implicit Types (d : pydict V) (k : string).

Lemma dict_index_None d k : dict_index d k = None ↔ k ∉ d.*1.
Proof.
  induction d as [|[k' v] rest IH]; simpl.
  - split; [|done]. intros _ []%elem_of_nil.
  - rewrite not_elem_of_cons. destruct (decide (k' = k)) as [->|Hne].
    + split; [done|]. by intros [[] _].
    + rewrite fmap_None, IH. naive_solver.
Qed.

Lemma dict_index_Some d k i :
  dict_index d k = Some i →
  ∃ v, d !! i = Some (k, v) ∧ dict_get d k = Some v
       ∧ ∀ v', dict_set d k v' = <[i := (k, v')]> d.
Proof.
  revert i. induction d as [|[k' v] rest IH]; intros i; simpl; [done|].
  destruct (decide (k' = k)) as [->|Hne].
  - intros [= <-]. by exists v.
  - destruct (dict_index rest k) as [i'|] eqn:Hi'; [|done].
    intros [= <-]. destruct (IH i' eq_refl) as (v0 & Hv0 & Hget & Hset).
    exists v0. split_and!; [done..|]. intros v'. simpl. by rewrite Hset.
Qed.

Lemma dict_get_None d k : dict_index d k = None → dict_get d k = None.
Proof.
  induction d as [|[k' v] rest IH]; simpl; [done|].
  destruct (decide (k' = k)); [done|].
  destruct (dict_index rest k); [done|]. intros _. by apply IH.
Qed.

End Dict.

Lemma dict_index_of n acc k : dict_index (dict_of n acc) k = dict_index acc k.
Proof.
  revert n. induction acc as [|[k' a] rest IH]; intros n; simpl; [done|].
  destruct (decide (k' = k)); [done|]. by rewrite IH.
Qed.

Lemma dict_of_lookup n acc i :
  dict_of n acc !! i = (λ ka : string * Skill, (ka.1, (n + i)%nat)) <$> acc !! i.
Proof.
  revert n i. induction acc as [|[k a] rest IH]; intros n [|i]; simpl; [done..| |].
  - by rewrite Nat.add_0_r.
  - rewrite IH. by replace (S n + i)%nat with (n + S i)%nat by lia.
Qed.

Lemma dict_of_fst n acc : (dict_of n acc).*1 = acc.*1.
Proof.
  revert n. induction acc as [|[k a] rest IH]; intros n; simpl; [done|].
  by rewrite IH.
Qed.

Lemma dict_of_snd n acc : (dict_of n acc).*2 = seq n (length acc).
Proof.
  revert n. induction acc as [|[k a] rest IH]; intros n; simpl; [done|].
  by rewrite IH.
Qed.

Lemma dict_of_app n acc k a :
  dict_of n (acc ++ [(k, a)]) = dict_of n acc ++ [(k, (n + length acc)%nat)].
Proof.
  revert n. induction acc as [|[k' a'] rest IH]; intros n; simpl.
  - by rewrite Nat.add_0_r.
  - rewrite IH. by replace (S n + length rest)%nat with (n + S (length rest))%nat by lia.
Qed.

Lemma dict_of_insert n acc i k a v :
  acc !! i = Some (k, a) → dict_of n (<[i := (k, v)]> acc) = dict_of n acc.
Proof.
  revert n i. induction acc as [|[k' a'] rest IH]; intros n [|i]; simpl; [done..| |].
  - by intros [= -> ->].
  - intros Hi. by rewrite (IH _ _ Hi).
Qed.

Lemma dict_get_of n acc k :
  dict_get (dict_of n acc) k = (λ i, (n + i)%nat) <$> dict_index acc k.
Proof.
  destruct (dict_index acc k) as [i|] eqn:Hi; simpl.
  - pose proof (dict_index_of n acc k) as Hof. rewrite Hi in Hof.
    destruct (dict_index_Some _ _ _ Hof) as (l & Hl & -> & _).
    rewrite dict_of_lookup in Hl.
    destruct (acc !! i) as [[k' a]|]; simplify_eq/=. done.
  - apply dict_get_None. by rewrite dict_index_of.
Qed.

Section Collect.
Variable H0 : list Skill.
Variable L : list (list loc).

Lemma collect_skill_run acc skill s :
  H0 !! skill = Some s →
  collect_skill (dict_of (length H0) acc) skill (collecting H0 L acc)
  = Some (dict_of (length H0) (agg_step acc s), collecting H0 L (agg_step acc s)).
Proof.
  intros Hskill. unfold collect_skill, agg_step.
  assert (skill_objs (collecting H0 L acc) !! skill = Some s) as Hread
    by (by apply lookup_app_l_Some).
  rewrite (bind_run _ _ _ _ _ (read_skill_run _ _ _ Hread)).
  fold (key s). rewrite dict_get_of.
  destruct (dict_index acc (key s)) as [i|] eqn:Hi; simpl.
  - destruct (dict_index_Some _ _ _ Hi) as (a & Ha & -> & Hset).
    assert (skill_objs (collecting H0 L acc) !! (length H0 + i)%nat = Some a) as Hagg.
    { simpl. rewrite lookup_app_r by lia.
      replace (length H0 + i - length H0)%nat with i by lia.
      by rewrite list_lookup_fmap, Ha. }
    rewrite (bind_run _ _ _ _ _ (increment_frequency_run _ _ _ Hagg)).
    unfold ret, collecting. simpl.
    rewrite Hset, (dict_of_insert _ _ _ _ _ _ Ha).
    by rewrite insert_app_r, list_fmap_insert.
  - rewrite (dict_get_None _ _ Hi). unfold Skill_new.
    unfold bind, alloc_skill, ret, collecting. simpl.
    rewrite dict_of_app, fmap_app, app_assoc. simpl.
    by rewrite length_app, length_fmap.
Qed.

Lemma collect_skills_run acc xs ss :
  Forall2 (λ l s, H0 !! l = Some s) xs ss →
  collect_skills (dict_of (length H0) acc) xs (collecting H0 L acc)
  = Some (dict_of (length H0) (foldl agg_step acc ss),
          collecting H0 L (foldl agg_step acc ss)).
Proof.
  intros Hxs. revert acc. induction Hxs as [|l s xs ss Hl _ IH]; intros acc.
  - done.
  - cbn [collect_skills foldl].
    rewrite (bind_run _ _ _ _ _ (collect_skill_run acc l s Hl)). apply IH.
Qed.

Lemma collect_jobs_run acc (jobs : list Job) (js : list (list Skill)) :
  Forall2 (λ job ss, ∃ xs, L !! required_skills job = Some xs
                           ∧ Forall2 (λ l s, H0 !! l = Some s) xs ss) jobs js →
  collect_jobs (dict_of (length H0) acc) jobs (collecting H0 L acc)
  = Some (dict_of (length H0) (foldl agg_step acc (concat js)),
          collecting H0 L (foldl agg_step acc (concat js))).
Proof.
  intros Hjobs. revert acc.
  induction Hjobs as [|job ss jobs js (xs & Hxs & Hss) _ IH]; intros acc.
  - done.
  - cbn [collect_jobs concat]. rewrite foldl_app.
    assert (list_objs (collecting H0 L acc) !! required_skills job = Some xs) as Hread
      by done.
    rewrite (bind_run _ _ _ _ _ (read_list_run _ _ _ Hread)).
    rewrite (bind_run _ _ _ _ _ (collect_skills_run acc xs ss Hss)). apply IH.
Qed.

End Collect.

(* ===================================================================== *)
(** * Gap identification: sorting the aggregates into the two lists *)
(* ===================================================================== *)

Lemma name_set_run (st : store) (xs : list loc) (rs : list Skill) :
  Forall2 (λ l s, skill_objs st !! l = Some s) xs rs →
  name_set xs st = Some (list_to_set (map key rs), st).
Proof.
  induction 1 as [|l s xs rs Hl _ IH]; [done|].
  cbn [name_set]. rewrite (bind_run _ _ _ _ _ (read_skill_run _ _ _ Hl)).
  by rewrite (bind_run _ _ _ _ _ IH).
Qed.

Lemma alter_insert_lookup {A} (f : A → A) (l : list A) (i : nat) (x : A) :
  l !! i = Some x → <[i := f x]> l = alter f i l.
Proof.
  intros Hi. apply list_eq. intros j. destruct (decide (j = i)) as [Hj|Hne].
  - subst j. rewrite list_lookup_alter_eq, Hi.
    apply list_lookup_insert_eq. by eapply lookup_lt_Some.
  - by rewrite list_lookup_alter_ne, list_lookup_insert_ne.
Qed.

Lemma names_alter (f : Skill → Skill) (N : list Skill) (i : nat) :
  (∀ x, name (f x) = name x) → name <$> alter f i N = name <$> N.
Proof.
  intros Hf. apply list_eq. intros j. rewrite !list_lookup_fmap.
  destruct (decide (i = j)) as [->|Hne].
  - rewrite list_lookup_alter_eq. destruct (N !! j); simpl; [|done].
    by rewrite Hf.
  - by rewrite list_lookup_alter_ne.
Qed.

Lemma keys_of_names (N N' : list Skill) :
  name <$> N' = name <$> N → key <$> N' = key <$> N.
Proof.
  intros Hnames. unfold key.
  change (λ s, PyStr.lower (name s)) with (PyStr.lower ∘ name).
  by rewrite !list_fmap_compose, Hnames.
Qed.

Section Categorize.
Variable H0 : list Skill.
Variable L0 : list (list loc).
Variable user : gset string.
Variable result : AnalysisResult.
Hypothesis result_matching : matching_skills result = length L0.
Hypothesis result_missing : missing_skills result = S (length L0).

Lemma in_new_lookup N l : in_new H0 N l → ∃ x, (H0 ++ N) !! l = Some x.
Proof.
  intros [??]. apply lookup_lt_is_Some. rewrite length_app. lia.
Qed.

Lemma in_new_valid N xs : Forall (in_new H0 N) xs → valid_in (H0 ++ N) xs.
Proof.
  intros Hxs. eapply Forall_impl; [exact Hxs|].
  intros l Hl. destruct (in_new_lookup N l Hl) as [x Hx]. by exists x.
Qed.

Lemma in_new_names N N' l :
  name <$> N' = name <$> N → in_new H0 N l → in_new H0 N' l.
Proof.
  intros Hnames. unfold in_new.
  by rewrite <- (length_fmap name N), <- Hnames, length_fmap.
Qed.

(** Distinct aggregates do not match when their keys are all distinct. *)
Lemma no_match_new N xs l v :
  NoDup (key <$> N) → Forall (in_new H0 N) xs → in_new H0 N l → l ∉ xs →
  (H0 ++ N) !! l = Some v →
  find_match (H0 ++ N) xs v = None.
Proof.
  intros Hnodup Hxs [Hl0 Hl1] Hnotin Hv.
  apply find_match_None; [by apply in_new_valid|].
  intros e x He Hx Hkey.
  rewrite Forall_forall in Hxs. destruct (Hxs e He) as [He0 He1].
  rewrite lookup_app_r in Hx, Hv by lia.
  assert (e - length H0 = l - length H0)%nat as Heq.
  { eapply (NoDup_lookup _ _ _ (key x) Hnodup).
    - by rewrite list_lookup_fmap, Hx.
    - by rewrite list_lookup_fmap, Hv, Hkey. }
  apply Hnotin. by replace l with e by lia.
Qed.

Lemma add_matching_step N ms mis l :
  in_new H0 N l → Forall (in_new H0 N) ms →
  ∃ ms', add_matching_skill result l (categorizing H0 L0 N ms mis)
         = Some (tt, categorizing H0 L0 N ms' mis)
    ∧ Forall (in_new H0 N) ms'
    ∧ (NoDup (key <$> N) → l ∉ ms → ms' = ms ++ [l]).
Proof.
  intros Hl Hms. destruct (in_new_lookup N l Hl) as [v Hv].
  assert (list_objs (categorizing H0 L0 N ms mis) !! matching_skills result = Some ms)
    as Hlist.
  { rewrite result_matching. simpl. rewrite lookup_app_r by lia.
    by rewrite Nat.sub_diag. }
  rewrite (add_matching_skill_run _ _ _ v ms Hlist Hv (in_new_valid N ms Hms)).
  simpl. destruct (find_match (H0 ++ N) ms v) as [e|] eqn:Hfind.
  - exists ms. split_and!; [done..|]. intros Hnodup Hnotin.
    by rewrite (no_match_new N ms l v) in Hfind.
  - exists (ms ++ [l]). split_and!; [|by apply Forall_app; auto|done].
    unfold categorizing. rewrite result_matching.
    rewrite <- (Nat.add_0_r (length L0)) at 1. by rewrite insert_app_r.
Qed.

Lemma add_missing_step N ms mis l :
  in_new H0 N l → Forall (in_new H0 N) mis →
  ∃ N' mis', add_missing_skill result l (categorizing H0 L0 N ms mis)
             = Some (tt, categorizing H0 L0 N' ms mis')
    ∧ name <$> N' = name <$> N
    ∧ Forall (in_new H0 N') mis'
    ∧ (NoDup (key <$> N) → l ∉ mis →
         mis' = mis ++ [l]
         ∧ N' = alter (set_frequency 1) (l - length H0)%nat N).
Proof.
  intros Hl Hmis. destruct (in_new_lookup N l Hl) as [v Hv].
  assert (list_objs (categorizing H0 L0 N ms mis) !! missing_skills result = Some mis)
    as Hlist.
  { rewrite result_missing. simpl. rewrite lookup_app_r by lia.
    by replace (S (length L0) - length L0)%nat with 1%nat by lia. }
  rewrite (add_missing_skill_run _ _ _ v mis Hlist Hv (in_new_valid N mis Hmis)).
  simpl. destruct (find_match (H0 ++ N) mis v) as [e|] eqn:Hfind.
  - destruct (find_match_Some _ _ _ _ Hfind) as (x & He & _ & _).
    rewrite Forall_forall in Hmis. destruct (Hmis e He) as [He0 He1].
    exists (alter incremented (e - length H0)%nat N), mis.
    assert (name <$> alter incremented (e - length H0)%nat N = name <$> N)
      as Hnames by (by apply names_alter).
    split_and!; [|done| |].
    + unfold categorizing. by rewrite alter_app_r_alt by lia.
    + apply Forall_forall. intros e' He'.
      by apply (in_new_names N), Hmis.
    + intros Hnodup Hnotin.
      apply Forall_forall in Hmis.
      by rewrite (no_match_new N mis l v Hnodup Hmis Hl Hnotin Hv) in Hfind.
  - destruct Hl as [Hl0 Hl1].
    exists (alter (set_frequency 1) (l - length H0)%nat N), (mis ++ [l]).
    assert (name <$> alter (set_frequency 1) (l - length H0)%nat N = name <$> N)
      as Hnames by (by apply names_alter).
    split_and!; [|done| |done].
    + unfold categorizing. rewrite result_missing.
      rewrite insert_app_r_alt by lia.
      rewrite lookup_app_r in Hv by lia.
      rewrite (alter_insert_lookup (set_frequency 1) _ _ _ Hv).
      replace (S (length L0)) with (length L0 + 1)%nat by lia.
      by rewrite insert_app_r.
    + apply Forall_app. split.
      * eapply Forall_impl; [exact Hmis|]. intros e. by apply in_new_names.
      * apply Forall_singleton. split; [done|]. by rewrite length_alter.
Qed.

(** The loop over [all_job_skills.items()]: it runs to the end, changes
    only frequencies of aggregates and only the two result lists; and
    when the aggregates have pairwise distinct lowercased names, every
    aggregate is appended to its list, the missing ones with frequency 1. *)
Lemma categorize_run (items : list (string * loc)) :
  ∀ N ms mis,
  Forall (λ kl, in_new H0 N kl.2) items →
  Forall (in_new H0 N) ms → Forall (in_new H0 N) mis →
  ∃ N' ms' mis',
    categorize items user result (categorizing H0 L0 N ms mis)
    = Some (tt, categorizing H0 L0 N' ms' mis')
    ∧ name <$> N' = name <$> N
    ∧ Forall (in_new H0 N') ms' ∧ Forall (in_new H0 N') mis'
    ∧ (NoDup (key <$> N) → NoDup items.*2 →
       (∀ l, l ∈ ms ++ mis → l ∉ items.*2) →
         ms' = ms ++ (filter (λ kl, kl.1 ∈ user) items).*2
         ∧ mis' = mis ++ (filter (λ kl, kl.1 ∉ user) items).*2
         ∧ N' = foldl (reset_missing H0 user) N items).
Proof.
  induction items as [|[k l] rest IH]; intros N ms mis Hitems Hms Hmis.
  - exists N, ms, mis. split_and!; [done..|]. intros _ _ _.
    by rewrite !app_nil_r.
  - apply Forall_cons in Hitems as [Hl Hrest]. simpl in Hl.
    cbn [categorize]. destruct (decide (k ∈ user)) as [Hk|Hk].
    + destruct (add_matching_step N ms mis l Hl Hms) as (ms1 & Hrun & Hms1 & Hex).
      rewrite (bind_run _ _ _ _ _ Hrun).
      destruct (IH N ms1 mis Hrest Hms1 Hmis)
        as (N' & ms' & mis' & Hrun' & Hnames & Hms' & Hmis' & Hex').
      exists N', ms', mis'. split_and!; [done..|].
      intros Hnodup Hlocs Hfresh. apply NoDup_cons in Hlocs as [Hl_rest Hlocs].
      assert (ms1 = ms ++ [l]) as ->.
      { apply Hex; [done|]. intros Hin. apply (Hfresh l); [|left].
        apply elem_of_app. by left. }
      destruct Hex' as (-> & -> & ->); [done..| |].
      { intros e He Hin. rewrite <- app_assoc in He.
        apply elem_of_app in He as [He|He].
        - apply (Hfresh e); [|by right]. apply elem_of_app. by left.
        - apply elem_of_cons in He as [->|He]; [done|].
          apply (Hfresh e); [|by right]. apply elem_of_app. by right. }
      rewrite filter_cons_True by done.
      rewrite filter_cons_False by (simpl; tauto).
      cbn [fmap list_fmap foldl].
      assert (reset_missing H0 user N (k, l) = N) as ->
        by (unfold reset_missing; simpl; by rewrite decide_True).
      by rewrite <- app_assoc.
    + destruct (add_missing_step N ms mis l Hl Hmis)
        as (N1 & mis1 & Hrun & Hnames1 & Hmis1 & Hex).
      rewrite (bind_run _ _ _ _ _ Hrun).
      assert (Forall (λ kl, in_new H0 N1 kl.2) rest) as Hrest1.
      { eapply Forall_impl; [exact Hrest|]. intros kl. by apply in_new_names. }
      assert (Forall (in_new H0 N1) ms) as Hms1.
      { eapply Forall_impl; [exact Hms|]. intros e. by apply in_new_names. }
      destruct (IH N1 ms mis1 Hrest1 Hms1 Hmis1)
        as (N' & ms' & mis' & Hrun' & Hnames & Hms' & Hmis' & Hex').
      exists N', ms', mis'. split_and!; [done|congruence|done..|].
      intros Hnodup Hlocs Hfresh. apply NoDup_cons in Hlocs as [Hl_rest Hlocs].
      destruct Hex as [-> ->]; [done| |].
      { intros Hin. apply (Hfresh l); [|left].
        apply elem_of_app. by right. }
      destruct Hex' as (-> & -> & ->); [|done| |].
      { by rewrite (keys_of_names _ _ Hnames1). }
      { intros e He Hin. rewrite app_assoc in He.
        apply elem_of_app in He as [He|He].
        - apply (Hfresh e); [done|by right].
        - apply list_elem_of_singleton in He as ->. done. }
      rewrite filter_cons_False by (simpl; tauto).
      rewrite filter_cons_True by done.
      cbn [fmap list_fmap foldl].
      assert (reset_missing H0 user N (k, l)
              = alter (set_frequency 1) (l - length H0)%nat N) as ->
        by (unfold reset_missing; simpl; by rewrite decide_False).
      by rewrite <- app_assoc.
Qed.

End Categorize.

(* ===================================================================== *)
(** * Gap identification as a whole *)
(* ===================================================================== *)

(** What [contents] says about a list object. *)
Lemma contents_Some (st : store) (r : lref) (ss : list Skill) :
  contents st r = Some ss
  ↔ ∃ xs, list_objs st !! r = Some xs
          ∧ Forall2 (λ l s, skill_objs st !! l = Some s) xs ss.
Proof.
  unfold contents, deref. split.
  - destruct (list_objs st !! r) as [xs|]; simpl; [|done].
    intros Hxs. exists xs. split; [done|]. by apply mapM_Some.
  - intros (xs & -> & Hxs). simpl. by apply mapM_Some.
Qed.

Section IdentifyGaps.
Variable st : store.
Variable r : Resume.
Variable jobs : list Job.
Variable rs : list Skill.
Variable js : list (list Skill).
Hypothesis resume_contents : contents st (skills r) = Some rs.
Hypothesis jobs_contents :
  Forall2 (λ job ss, contents st (required_skills job) = Some ss) jobs js.

Let H0 := skill_objs st.
Let L0 := list_objs st.
Let acc := aggregate (concat js).
Let user : gset string := list_to_set (map key rs).
Let result := mkAnalysisResult r jobs (length L0) (S (length L0)).

(** The run of [identify_gaps]: it returns the fresh result object; the
    store it leaves holds the old skill objects followed by the
    aggregates [N'], and the old lists followed by the two result lists. *)
Lemma identify_gaps_run :
  ∃ N' ms' mis',
    identify_gaps r jobs st
    = Some (result, mkStore (H0 ++ N') (L0 ++ [ms'; mis']))
    ∧ name <$> N' = name <$> acc.*2
    ∧ Forall (in_new H0 N') ms' ∧ Forall (in_new H0 N') mis'
    ∧ (NoDup (key <$> acc.*2) →
         ms' = (filter (λ kl, kl.1 ∈ user) (dict_of (length H0) acc)).*2
         ∧ mis' = (filter (λ kl, kl.1 ∉ user) (dict_of (length H0) acc)).*2
         ∧ N' = foldl (reset_missing H0 user) acc.*2 (dict_of (length H0) acc)).
Proof.
  unfold identify_gaps, AnalysisResult_new.
  assert ((let* ms := alloc_list in
           let* mis := alloc_list in ret (mkAnalysisResult r jobs ms mis)) st
          = Some (result, collecting H0 (L0 ++ [[]; []]) [])) as Hnew.
  { unfold bind, alloc_list, ret, collecting. simpl. fold L0 H0.
    rewrite length_app, <- app_assoc, app_nil_r. simpl.
    by rewrite Nat.add_1_r. }
  rewrite (bind_run _ _ _ _ _ Hnew). clear Hnew.
  unfold _identify_skill_gaps.
  assert (Forall2 (λ job ss, ∃ xs, (L0 ++ [[]; []]) !! required_skills job = Some xs
                             ∧ Forall2 (λ l s, H0 !! l = Some s) xs ss) jobs js)
    as Hjobs.
  { eapply Forall2_impl; [exact jobs_contents|]. intros job ss Hss.
    apply contents_Some in Hss as (xs & Hxs & Hss).
    exists xs. split; [|done]. by apply lookup_app_l_Some. }
  pose proof (collect_jobs_run H0 (L0 ++ [[]; []]) [] jobs js Hjobs) as Hcollect.
  cbn [dict_of] in Hcollect. fold (aggregate (concat js)) in Hcollect.
  fold acc in Hcollect.
  unfold bind at 2. unfold bind at 1. rewrite Hcollect. clear Hcollect.
  apply contents_Some in resume_contents as (xs & Hxs & Hrs).
  assert (list_objs (collecting H0 (L0 ++ [[]; []]) acc) !! skills r = Some xs)
    as Hread by (by apply lookup_app_l_Some).
  rewrite (bind_run _ _ _ _ _ (read_list_run _ _ _ Hread)).
  assert (Forall2 (λ l s, skill_objs (collecting H0 (L0 ++ [[]; []]) acc) !! l
                          = Some s) xs rs) as Hrs'.
  { eapply Forall2_impl; [exact Hrs|]. intros l s Hl.
    by apply lookup_app_l_Some. }
  rewrite (bind_run _ _ _ _ _ (name_set_run _ _ _ Hrs')). fold user.
  destruct (categorize_run H0 L0 user result eq_refl eq_refl
              (dict_of (length H0) acc) acc.*2 [] [])
    as (N' & ms' & mis' & Hrun & Hnames & Hms' & Hmis' & Hexact).
  { apply Forall_forall. intros [k l] Hkl.
    apply (list_elem_of_fmap_2 snd) in Hkl. rewrite dict_of_snd in Hkl.
    apply elem_of_seq in Hkl. unfold in_new. simpl in *. rewrite length_fmap. lia. }
  { done. }
  { done. }
  exists N', ms', mis'.
  change (collecting H0 (L0 ++ [[]; []]) acc) with (categorizing H0 L0 acc.*2 [] []).
  unfold bind. rewrite Hrun. split_and!; [done..|].
  intros Hnodup. apply Hexact; [done| |].
  - rewrite dict_of_snd. apply NoDup_seq.
  - by intros l []%elem_of_nil.
Qed.

End IdentifyGaps.

(** C9.  Running the gap identifier on a resume and jobs whose references
    are in the store returns a result and leaves every skill object and
    every list that was in the store as it was: the resume's skill list
    and each job's required-skill list hold the same skills, with the same
    name, category, technical flag and frequency. *)
Theorem identify_gaps_frame (st : store) (r : Resume) (jobs : list Job)
    (rs : list Skill) (js : list (list Skill)) :
  contents st (skills r) = Some rs →
  Forall2 (λ job ss, contents st (required_skills job) = Some ss) jobs js →
  ∃ result st',
    identify_gaps r jobs st = Some (result, st')
    ∧ skill_objs st `prefix_of` skill_objs st'
    ∧ list_objs st `prefix_of` list_objs st'
    ∧ (∀ l s, skill_objs st !! l = Some s → skill_objs st' !! l = Some s)
    ∧ (∀ ref xs, list_objs st !! ref = Some xs → list_objs st' !! ref = Some xs)
    ∧ contents st' (skills r) = Some rs
    ∧ Forall2 (λ job ss, contents st' (required_skills job) = Some ss) jobs js.
Proof.
  intros Hrs Hjs.
  destruct (identify_gaps_run st r jobs rs js Hrs Hjs)
    as (N' & ms' & mis' & Hrun & _).
  eexists _, _. split; [exact Hrun|]. simpl.
  assert (∀ ref ss, contents st ref = Some ss →
            contents (mkStore (skill_objs st ++ N') (list_objs st ++ [ms'; mis']))
              ref = Some ss) as Hkeep.
  { intros ref ss (xs & Hxs & Hss)%contents_Some. apply contents_Some.
    exists xs. split; [by apply lookup_app_l_Some|].
    eapply Forall2_impl; [exact Hss|]. intros l s Hl.
    by apply lookup_app_l_Some. }
  split_and!.
  - by apply prefix_app_r.
  - by apply prefix_app_r.
  - intros l s Hl. by apply lookup_app_l_Some.
  - intros ref xs Hxs. by apply lookup_app_l_Some.
  - by apply Hkeep.
  - eapply Forall2_impl; [exact Hjs|]. intros job ss. apply Hkeep.
Qed.

(** ** The aggregates *)

Lemma Skill_init_trimmed n c t f : trimmed (Skill_init n c t f).
Proof. apply PyStrFacts.strip_title_strip. Qed.

Lemma key_Skill_init (s : Skill) (f : Z) :
  trimmed s → key (Skill_init (name s) (category s) (is_technical s) f) = key s.
Proof.
  unfold trimmed, key, Skill_init. simpl. intros ->.
  apply PyStrFacts.lower_title.
Qed.

Lemma agg_step_spec (acc : pydict Skill) (s : Skill) :
  NoDup acc.*1 →
  NoDup (agg_step acc s).*1
  ∧ (∀ k, k ∈ (agg_step acc s).*1 ↔ k ∈ acc.*1 ∨ k = key s)
  ∧ (trimmed s → keyed acc → keyed (agg_step acc s)).
Proof.
  intros Hnodup. unfold agg_step.
  destruct (dict_index acc (key s)) as [i|] eqn:Hi.
  - destruct (dict_index_Some _ _ _ Hi) as (a & Ha & -> & Hset).
    rewrite Hset.
    assert ((<[i := (key s, incremented a)]> acc).*1 = acc.*1) as Hkeys.
    { rewrite list_fmap_insert. apply list_insert_id.
      by rewrite list_lookup_fmap, Ha. }
    rewrite Hkeys. split_and!; [done| |].
    + intros k. split; [by left|]. intros [?| ->]; [done|].
      apply list_elem_of_lookup. exists i. by rewrite list_lookup_fmap, Ha.
    + intros _ Hkeyed. apply Forall_insert; [done|]. simpl.
      by apply (Forall_lookup_1 _ _ _ _ Hkeyed Ha).
  - rewrite (dict_get_None _ _ Hi). apply dict_index_None in Hi.
    rewrite fmap_app. simpl. split_and!.
    + apply NoDup_app. split_and!; [done| |apply NoDup_singleton].
      intros k Hk ->%list_elem_of_singleton. done.
    + intros k. rewrite elem_of_app, list_elem_of_singleton. done.
    + intros Htrim Hkeyed. apply Forall_app. split; [done|].
      apply Forall_singleton. simpl. by apply key_Skill_init.
Qed.

Lemma aggregate_from (acc : pydict Skill) (ss : list Skill) :
  NoDup acc.*1 →
  NoDup (foldl agg_step acc ss).*1
  ∧ (∀ k, k ∈ (foldl agg_step acc ss).*1 ↔ k ∈ acc.*1 ∨ k ∈ map key ss)
  ∧ (Forall trimmed ss → keyed acc → keyed (foldl agg_step acc ss)).
Proof.
  revert acc. induction ss as [|s ss IH]; intros acc Hnodup; simpl.
  - split_and!; [done| |done]. intros k. rewrite elem_of_nil. tauto.
  - destruct (agg_step_spec acc s Hnodup) as (Hnd & Hmem & Hkeyed).
    destruct (IH _ Hnd) as (Hnd' & Hmem' & Hkeyed').
    split_and!; [done| |].
    + intros k. rewrite Hmem', Hmem, elem_of_cons. tauto.
    + intros [Hs Hss]%Forall_cons Hacc. auto.
Qed.

Lemma aggregate_spec (ss : list Skill) :
  NoDup (aggregate ss).*1
  ∧ (∀ k, k ∈ (aggregate ss).*1 ↔ k ∈ map key ss)
  ∧ (Forall trimmed ss → keyed (aggregate ss)).
Proof.
  destruct (aggregate_from [] ss) as (Hnd & Hmem & Hkeyed); [constructor|].
  split_and!; [done| |].
  - intros k. rewrite Hmem. simpl. rewrite elem_of_nil. tauto.
  - intros Hss. apply Hkeyed; [done|constructor].
Qed.

Lemma keyed_keys (acc : pydict Skill) : keyed acc → key <$> acc.*2 = acc.*1.
Proof.
  induction 1 as [|[k a] acc Hka _ IH]; [done|].
  rewrite !fmap_cons. by f_equal.
Qed.

(** Filtering a dictionary on its keys. *)
Lemma filter_fst {V} (P : string → Prop) `{∀ k, Decision (P k)}
    (d : list (string * V)) :
  (filter (λ kl, P kl.1) d).*1 = filter P d.*1.
Proof.
  induction d as [|[k v] d IH]; [done|].
  rewrite fmap_cons, !filter_cons. simpl.
  destruct (decide (P k)); [rewrite fmap_cons|]; by rewrite IH.
Qed.

(** Dereferencing entries that are filed under their own key. *)
Lemma deref_keyed (h : list Skill) (L : list (list loc)) (items : list (string * loc)) :
  Forall (λ kl, ∃ v, h !! kl.2 = Some v ∧ key v = kl.1) items →
  ∃ vs, deref (mkStore h L) items.*2 = Some vs
        ∧ key <$> vs = items.*1
        ∧ Forall2 (λ kl v, h !! kl.2 = Some v) items vs.
Proof.
  induction 1 as [|[k l] items (v & Hv & Hk) _ (vs & Hvs & Hkeys & Hall)].
  - by exists [].
  - exists (v :: vs). simpl in Hv, Hk. rewrite !fmap_cons.
    split_and!; [|by rewrite Hk, Hkeys|by constructor].
    unfold deref in *. rewrite mapM_Some in *. by constructor.
Qed.


(** ** The result lists by value *)

Section ResetLookup.
Variable H0 : list Skill.
Variable user : gset string.

(** What the loop leaves in the aggregate at index [j]: the aggregate
    with frequency 1 when its key is not a resume skill, the aggregate
    itself otherwise. *)
Lemma foldl_reset_lookup (acc : pydict Skill) :
  ∀ (o : nat) (N : list Skill) (j : nat),
  foldl (reset_missing H0 user) N (dict_of (length H0 + o) acc) !! j
  = match acc !! (j - o)%nat with
    | Some (k, _) =>
        if decide ((o ≤ j)%nat ∧ k ∉ user)
        then set_frequency 1 <$> N !! j else N !! j
    | None => N !! j
    end.
Proof.
  induction acc as [|[k a] rest IH]; intros o N j; [done|].
  cbn [dict_of foldl].
  replace (S (length H0 + o)) with (length H0 + S o)%nat by lia.
  rewrite IH. unfold reset_missing. cbn [fst snd].
  replace (length H0 + o - length H0)%nat with o by lia.
  destruct (decide (j < o)%nat) as [Hlt|Hge]; [|destruct (decide (j = o)) as [->|Hne]].
  - replace (j - S o)%nat with 0%nat by lia.
    replace (j - o)%nat with 0%nat by lia. cbn [lookup list_lookup].
    destruct (rest !! 0%nat) as [[k' a']|];
      repeat case_decide; rewrite ?list_lookup_alter_ne by lia;
      first [done | exfalso; naive_solver lia].
  - replace (o - S o)%nat with 0%nat by lia. rewrite Nat.sub_diag.
    cbn [lookup list_lookup].
    destruct (rest !! 0%nat) as [[k' a']|];
      repeat case_decide; rewrite ?list_lookup_alter_eq;
      first [done | exfalso; naive_solver lia].
  - replace (j - o)%nat with (S (j - S o)) by lia. cbn [lookup list_lookup].
    destruct (rest !! (j - S o)%nat) as [[k' a']|];
      repeat case_decide; rewrite ?list_lookup_alter_ne by lia;
      first [done | exfalso; naive_solver lia].
Qed.

(** Dereferencing the references of the entries selected by [P], when
    the aggregate of entry [(k, a)] holds [g k a]. *)
Lemma deref_filter_dict (P : string → Prop) `{∀ k, Decision (P k)}
    (g : string → Skill → Skill) (N' : list Skill) (acc : pydict Skill) :
  ∀ o,
  (∀ i k a, acc !! i = Some (k, a) → N' !! (o + i)%nat = Some (g k a)) →
  Forall2 (λ l v, (H0 ++ N') !! l = Some v)
    (filter (λ kl, P kl.1) (dict_of (length H0 + o) acc)).*2
    ((λ ka, g ka.1 ka.2) <$> filter (λ ka, P ka.1) acc).
Proof.
  induction acc as [|[k a] rest IH]; intros o Hacc; [constructor|].
  cbn [dict_of]. rewrite !filter_cons. cbn [fst].
  assert (Forall2 (λ l v, (H0 ++ N') !! l = Some v)
            (filter (λ kl, P kl.1) (dict_of (S (length H0 + o)) rest)).*2
            ((λ ka, g ka.1 ka.2) <$> filter (λ ka, P ka.1) rest)) as Hrest.
  { replace (S (length H0 + o)) with (length H0 + S o)%nat by lia.
    apply IH. intros i k' a' Hi.
    replace (S o + i)%nat with (o + S i)%nat by lia. by apply Hacc. }
  destruct (decide (P k)); [|done].
  rewrite !fmap_cons. constructor; [|done]. cbn [fst snd].
  rewrite lookup_app_r by lia.
  replace (length H0 + o - length H0)%nat with (o + 0)%nat by lia.
  by apply Hacc.
Qed.

End ResetLookup.

Lemma result_lists_lookup (L0 : list (list loc)) (ms mis : list loc) :
  (L0 ++ [ms; mis]) !! length L0 = Some ms
  ∧ (L0 ++ [ms; mis]) !! S (length L0) = Some mis.
Proof.
  split; rewrite lookup_app_r by lia.
  - by rewrite Nat.sub_diag.
  - by replace (S (length L0) - length L0)%nat with 1%nat by lia.
Qed.

(** The gap identifier by value, for trimmed names: the aggregates whose
    key is a lowercased resume name, in insertion order, and the others
    with their frequency set to 1. *)
Lemma gap_lists_spec (st : store) (r : Resume) (jobs : list Job)
    (rs : list Skill) (js : list (list Skill)) :
  contents st (skills r) = Some rs →
  Forall2 (λ job ss, contents st (required_skills job) = Some ss) jobs js →
  Forall (Forall trimmed) js →
  let acc := aggregate (concat js) in
  let user : gset string := list_to_set (map key rs) in
  gap_lists r jobs st
  = Some ((filter (λ ka, ka.1 ∈ user) acc).*2,
          set_frequency 1 <$> (filter (λ ka, ka.1 ∉ user) acc).*2).
Proof.
  intros Hrs Hjs Htrim acc user.
  destruct (identify_gaps_run st r jobs rs js Hrs Hjs)
    as (N' & ms' & mis' & Hrun & _ & _ & _ & Hexact).
  fold acc user in Hexact.
  destruct (aggregate_spec (concat js)) as (Hnodup & _ & Hkeyed).
  fold acc in Hnodup, Hkeyed.
  assert (keyed acc) as Hacc.
  { apply Hkeyed. apply Forall_forall. intros s (ss & Hss & Hs)%elem_of_concat.
    rewrite Forall_forall in Htrim. specialize (Htrim ss Hss).
    rewrite Forall_forall in Htrim. by apply Htrim. }
  destruct Hexact as (-> & -> & ->); [by rewrite keyed_keys|].
  set (H0 := skill_objs st) in *. set (L0 := list_objs st) in *.
  set (N' := foldl (reset_missing H0 user) acc.*2 (dict_of (length H0) acc)).
  set (g := λ (k : string) (a : Skill),
              if decide (k ∈ user) then a else set_frequency 1 a).
  assert (∀ i k a, acc !! i = Some (k, a) → N' !! (0 + i)%nat = Some (g k a))
    as Hlookup.
  { intros i k a Hi. unfold N'.
    pose proof (foldl_reset_lookup H0 user acc 0 acc.*2 i) as Hl.
    rewrite Nat.add_0_r, Nat.sub_0_r, Hi in Hl. simpl. rewrite Hl.
    rewrite list_lookup_fmap, Hi. unfold g. simpl.
    destruct (decide (k ∈ user)).
    - by rewrite decide_False by tauto.
    - by rewrite decide_True by (split; [lia|done]). }
  pose proof (deref_filter_dict H0 (λ k, k ∈ user) g N' acc 0 Hlookup) as Hms.
  pose proof (deref_filter_dict H0 (λ k, k ∉ user) g N' acc 0 Hlookup) as Hmis.
  rewrite Nat.add_0_r in Hms, Hmis.
  unfold gap_lists. rewrite Hrun. unfold contents.
  cbn [matching_skills missing_skills list_objs].
  rewrite (proj1 (result_lists_lookup _ _ _)), (proj2 (result_lists_lookup _ _ _)).
  cbn [mbind option_bind]. unfold deref. cbn [skill_objs].
  repeat match goal with
  | |- context [mapM ?f ?l] =>
      first [rewrite (mapM_Some_2 f l _ Hms) | rewrite (mapM_Some_2 f l _ Hmis)]
  end.
  cbn [mbind option_bind]. do 2 f_equal.
  - apply list_fmap_ext. intros i [k a] Hi%list_elem_of_lookup_2.
    apply list_elem_of_filter in Hi as [Hk _]. unfold g. simpl in *.
    by rewrite decide_True.
  - rewrite <- list_fmap_compose.
    apply list_fmap_ext. intros i [k a] Hi%list_elem_of_lookup_2.
    apply list_elem_of_filter in Hi as [Hk _]. unfold g. simpl in *.
    by rewrite decide_False.
Qed.

Lemma sublist_fst {V} (l1 l2 : list (string * V)) :
  l1 `sublist_of` l2 → l1.*1 `sublist_of` l2.*1.
Proof.
  induction 1 as [|x l1 l2 _ IH|x l1 l2 _ IH]; rewrite ?fmap_cons.
  - constructor.
  - by apply sublist_skip.
  - by apply sublist_cons.
Qed.

Lemma keys_filter (P : string * Skill → Prop) `{∀ ka, Decision (P ka)}
    (acc : pydict Skill) :
  keyed acc → key <$> (filter P acc).*2 = (filter P acc).*1.
Proof.
  intros Hacc. apply keyed_keys. unfold keyed in *.
  rewrite Forall_forall in *. intros ka [_ Hka]%list_elem_of_filter. auto.
Qed.

(** C2.  For a resume and jobs whose skills carry trimmed names (as the
    [Skill] constructor leaves them), the two lists of the gap identifier
    partition the lowercased names the jobs require: no name occurs in
    both lists or twice in one, and a lowercased name occurs in them
    exactly when some job requires a skill of that name.  The matching
    list holds the names the resume has, the missing list the others. *)
Theorem gap_lists_partition (st : store) (r : Resume) (jobs : list Job)
    (rs : list Skill) (js : list (list Skill)) :
  contents st (skills r) = Some rs →
  Forall2 (λ job ss, contents st (required_skills job) = Some ss) jobs js →
  Forall (Forall trimmed) js →
  ∃ matching missing,
    gap_lists r jobs st = Some (matching, missing)
    ∧ NoDup (map key (matching ++ missing))
    ∧ (∀ k, k ∈ map key (matching ++ missing) ↔ k ∈ map key (concat js))
    ∧ (∀ s, s ∈ matching → key s ∈ map key rs)
    ∧ (∀ s, s ∈ missing → key s ∉ map key rs).
Proof.
  intros Hrs Hjs Htrim.
  pose proof (gap_lists_spec st r jobs rs js Hrs Hjs Htrim) as Hspec.
  simpl in Hspec.
  set (acc := aggregate (concat js)) in *.
  set (user := list_to_set (map key rs) : gset string) in *.
  destruct (aggregate_spec (concat js)) as (Hnodup & Hmem & Hkeyed).
  fold acc in Hnodup, Hmem, Hkeyed.
  assert (keyed acc) as Hacc.
  { apply Hkeyed. apply Forall_forall. intros s (ss & Hss & Hs)%elem_of_concat.
    rewrite Forall_forall in Htrim. specialize (Htrim ss Hss).
    rewrite Forall_forall in Htrim. by apply Htrim. }
  eexists _, _. split; [exact Hspec|].
  set (held := filter (λ ka : string * Skill, ka.1 ∈ user) acc).
  set (lacking := filter (λ ka : string * Skill, ka.1 ∉ user) acc).
  assert (key <$> held.*2 = held.*1) as Hheld by (by apply keys_filter).
  assert (key <$> (set_frequency 1 <$> lacking.*2) = lacking.*1) as Hlacking.
  { rewrite <- list_fmap_compose. by apply keys_filter. }
  assert (∀ k, k ∈ held.*1 ↔ k ∈ acc.*1 ∧ k ∈ user) as Hheld_mem.
  { intros k. unfold held. rewrite !list_elem_of_fmap. split.
    - intros ([k' a] & -> & [??]%list_elem_of_filter). split; [|done].
      by exists (k', a).
    - intros [([k' a] & -> & ?) ?]. exists (k', a). split; [done|].
      by apply list_elem_of_filter. }
  assert (∀ k, k ∈ lacking.*1 ↔ k ∈ acc.*1 ∧ k ∉ user) as Hlacking_mem.
  { intros k. unfold lacking. rewrite !list_elem_of_fmap. split.
    - intros ([k' a] & -> & [??]%list_elem_of_filter). split; [|done].
      by exists (k', a).
    - intros [([k' a] & -> & ?) ?]. exists (k', a). split; [done|].
      by apply list_elem_of_filter. }
  assert (∀ k, k ∈ user ↔ k ∈ map key rs) as Huser.
  { intros k. unfold user. by rewrite elem_of_list_to_set. }
  change (map key ?l) with (key <$> l).
  rewrite fmap_app, Hheld, Hlacking. split_and!.
  - apply NoDup_app. split_and!.
    + eapply sublist_NoDup; [exact Hnodup|]. apply sublist_fst, sublist_filter.
    + intros k [_ Hin]%Hheld_mem [_ Hout]%Hlacking_mem. done.
    + eapply sublist_NoDup; [exact Hnodup|]. apply sublist_fst, sublist_filter.
  - intros k. rewrite elem_of_app, Hheld_mem, Hlacking_mem, <- Hmem.
    destruct (decide (k ∈ user)); tauto.
  - intros s Hs. apply Huser.
    assert (key s ∈ key <$> held.*2) as Hk by (by apply list_elem_of_fmap_2).
    rewrite Hheld in Hk. by apply Hheld_mem in Hk as [_ ?].
  - intros s Hs. rewrite <- Huser.
    assert (key s ∈ key <$> (set_frequency 1 <$> lacking.*2)) as Hk
      by (by apply list_elem_of_fmap_2).
    rewrite Hlacking in Hk. by apply Hlacking_mem in Hk as [_ ?].
Qed.

(** Every skill the gap identifier reports as missing has frequency 1,
    however many jobs require it: [add_missing_skill] overwrites the
    count the aggregation loop produced. *)
Lemma gap_lists_missing_frequency (st : store) (r : Resume) (jobs : list Job)
    (rs : list Skill) (js : list (list Skill)) :
  contents st (skills r) = Some rs →
  Forall2 (λ job ss, contents st (required_skills job) = Some ss) jobs js →
  Forall (Forall trimmed) js →
  ∃ matching missing,
    gap_lists r jobs st = Some (matching, missing)
    ∧ Forall (λ s, frequency s = 1) missing.
Proof.
  intros Hrs Hjs Htrim.
  pose proof (gap_lists_spec st r jobs rs js Hrs Hjs Htrim) as Hspec.
  simpl in Hspec. eexists _, _. split; [exact Hspec|].
  apply Forall_fmap, Forall_forall. done.
Qed.

(* ===================================================================== *)
(** * The worked example: resume {Python, SQL, Git},
      Job1 {Python, Docker}, Job2 {SQL, Docker} *)
(* ===================================================================== *)

(** The example store is what the model's constructors build. *)
Example example_store_built :
  (let* resume_skills := alloc_list in
   let r := mkResume "resume.pdf" PDF "" resume_skills in
   let* s := Skill_new "Python" "Programming Language" true 0 in
   let* _ := add_skill r s in
   let* s := Skill_new "SQL" "Database" true 0 in
   let* _ := add_skill r s in
   let* s := Skill_new "Git" "Version Control" true 0 in
   let* _ := add_skill r s in
   let* job1_skills := alloc_list in
   let job1 := mkJob "Job1" "Tech Corp" "" job1_skills in
   let* s := Skill_new "Python" "Programming Language" true 0 in
   let* _ := add_required_skill job1 s in
   let* s := Skill_new "Docker" "DevOps" true 0 in
   let* _ := add_required_skill job1 s in
   let* job2_skills := alloc_list in
   let job2 := mkJob "Job2" "Enterprise Inc" "" job2_skills in
   let* s := Skill_new "SQL" "Database" true 0 in
   let* _ := add_required_skill job2 s in
   let* s := Skill_new "Docker" "DevOps" true 0 in
   let* _ := add_required_skill job2 s in
   ret (r, [job1; job2])) (mkStore [] [])
  = Some ((example_resume, example_jobs), example_store).
Proof. vm_compute. reflexivity. Qed.

(** The aggregation loop does count Docker twice. *)
Example example_aggregate :
  aggregate
    [Skill_init "Python" "Programming Language" true 0;
     Skill_init "Docker" "DevOps" true 0;
     Skill_init "SQL" "Database" true 0;
     Skill_init "Docker" "DevOps" true 0]
  = [("python", mkSkill "Python" "Programming Language" true 1);
     ("docker", mkSkill "Docker" "DevOps" true 2);
     ("sql", mkSkill "Sql" "Database" true 1)].
Proof. vm_compute. reflexivity. Qed.

(** C1.  On the worked example the gap identifier reports Docker, which
    both jobs require, with frequency 1: the frequency of a missing skill
    is not the number of jobs that require it. *)
Theorem identify_gaps_example_docker_frequency :
  gap_lists example_resume example_jobs example_store
  = Some ([mkSkill "Python" "Programming Language" true 1;
           mkSkill "Sql" "Database" true 1],
          [mkSkill "Docker" "DevOps" true 1]).
Proof. vm_compute. reflexivity. Qed.

Lemma example_contents :
  contents example_store (skills example_resume)
  = Some [Skill_init "Python" "Programming Language" true 0;
          Skill_init "SQL" "Database" true 0;
          Skill_init "Git" "Version Control" true 0]
  ∧ Forall2 (λ job ss, contents example_store (required_skills job) = Some ss)
      example_jobs
      [[Skill_init "Python" "Programming Language" true 0;
        Skill_init "Docker" "DevOps" true 0];
       [Skill_init "SQL" "Database" true 0;
        Skill_init "Docker" "DevOps" true 0]].
Proof. split; [reflexivity|]. repeat constructor. Qed.

Lemma identify_gaps_frame_witness :
  ∃ result st',
    identify_gaps example_resume example_jobs example_store = Some (result, st')
    ∧ skill_objs example_store `prefix_of` skill_objs st'
    ∧ list_objs example_store `prefix_of` list_objs st'.
Proof.
  destruct (identify_gaps_frame example_store example_resume example_jobs _ _
              (proj1 example_contents) (proj2 example_contents))
    as (result & st' & Hrun & Hskills & Hlists & _).
  by exists result, st'.
Defined.

Lemma gap_lists_partition_witness :
  ∃ matching missing,
    gap_lists example_resume example_jobs example_store = Some (matching, missing)
    ∧ NoDup (map key (matching ++ missing)).
Proof.
  destruct (gap_lists_partition example_store example_resume example_jobs _ _
              (proj1 example_contents) (proj2 example_contents))
    as (matching & missing & Hrun & Hnodup & _).
  - repeat constructor.
  - by exists matching, missing.
Defined.

(** A name that did not go through the constructor can break the
    partition: with a job skill named [" docker"] next to one named
    ["docker"], the lowercased name [docker] ends up in both lists. *)
Remark untrimmed_name_in_both_lists :
  let st := mkStore [mkSkill "Docker" "DevOps" true 0;
                     mkSkill " docker" "DevOps" true 0;
                     mkSkill "Docker" "DevOps" true 0]
                    [[0]; [1; 2]]%nat in
  gap_lists (mkResume "resume.pdf" PDF "" 0) [mkJob "Job1" "Tech Corp" "" 1] st
  = Some ([mkSkill "Docker" "DevOps" true 1], [mkSkill "Docker" "DevOps" true 1]).
Proof. vm_compute. reflexivity. Qed.

(* ===================================================================== *)
(** * More on the string operations *)
(* ===================================================================== *)

Module PyStrMore.
Import PyStr PyStrFacts.

Lemma to_upper_idemp c : to_upper (to_upper c) = to_upper c.
Proof. destruct c as [[] [] [] [] [] [] [] []]; reflexivity. Qed.

Lemma is_cased_to_lower c : is_cased (to_lower c) = is_cased c.
Proof. destruct c as [[] [] [] [] [] [] [] []]; reflexivity. Qed.

Lemma is_cased_to_upper c : is_cased (to_upper c) = is_cased c.
Proof. destruct c as [[] [] [] [] [] [] [] []]; reflexivity. Qed.

(** [title] is idempotent. *)
Lemma title_from_idemp p s : title_from p (title_from p s) = title_from p s.
Proof.
  revert p. induction s as [|c r IH]; intros p; [done|].
  cbn [title_from]. destruct (is_cased c) eqn:Hc; cbn [title_from].
  - destruct p.
    + by rewrite is_cased_to_lower, Hc, to_lower_idemp, IH.
    + by rewrite is_cased_to_upper, Hc, to_upper_idemp, IH.
  - by rewrite Hc, IH.
Qed.

Lemma title_idemp s : title (title s) = title s.
Proof. apply title_from_idemp. Qed.

Lemma lower_lstrip s : lower (lstrip s) = lstrip (lower s).
Proof.
  induction s as [|c r IH]; [done|].
  cbn [lstrip lower]. rewrite is_space_to_lower.
  by destruct (is_space c).
Qed.

Lemma lower_empty s : lower s = EmptyString ↔ s = EmptyString.
Proof. by destruct s. Qed.

Lemma lower_rstrip s : lower (rstrip s) = rstrip (lower s).
Proof.
  induction s as [|c r IH]; [done|].
  cbn [rstrip lower]. rewrite <- IH, is_space_to_lower.
  destruct (rstrip r) as [|c' r'] eqn:Hr; cbn [lower]; [|done].
  by destruct (is_space c).
Qed.

(** Lower-casing and stripping commute. *)
Lemma lower_strip s : lower (strip s) = strip (lower s).
Proof. unfold strip. by rewrite lower_lstrip, lower_rstrip. Qed.

(** The name the constructor stores is a fixed point of its
    normalisation. *)
Lemma normalise_idemp s : title (strip (title (strip s))) = title (strip s).
Proof. by rewrite strip_title_strip, title_idemp. Qed.

Lemma strip_strip s : strip (strip s) = strip s.
Proof. apply strip_id; [apply no_lead_strip | apply no_trail_strip]. Qed.

Lemma lower_idemp s : lower (lower s) = lower s.
Proof.
  induction s as [|c r IH]; [done|]. cbn [lower].
  by rewrite to_lower_idemp, IH.
Qed.

End PyStrMore.

Lemma Skill_init_normalised n c t f :
  Skill_init (name (Skill_init n c t f)) c t f = Skill_init n c t f.
Proof. unfold Skill_init. simpl. by rewrite PyStrMore.normalise_idemp. Qed.

Lemma key_Skill_init_raw n c t f :
  key (Skill_init n c t f) = PyStr.strip (PyStr.lower n).
Proof.
  unfold key, Skill_init. simpl.
  by rewrite PyStrFacts.lower_title, PyStrMore.lower_strip.
Qed.

(* ===================================================================== *)
(** * Sorting by frequency *)
(* ===================================================================== *)

Section SortByKey.
Context {A : Type} (k : A → Z).

Lemma insert_by_key_perm x l : insert_by_key k x l ≡ₚ x :: l.
Proof.
  induction l as [|y l IH]; [done|]. cbn [insert_by_key].
  destruct (k y <=? k x)%Z; [done|]. by rewrite IH, perm_swap.
Qed.

Lemma sort_by_key_desc_perm l : sort_by_key_desc k l ≡ₚ l.
Proof.
  induction l as [|x l IH]; [done|].
  cbn [sort_by_key_desc foldr]. rewrite insert_by_key_perm.
  by f_equiv.
Qed.

Lemma insert_by_key_sorted x l :
  StronglySorted (desc k) l → StronglySorted (desc k) (insert_by_key k x l).
Proof.
  induction 1 as [|y l Hl IH Hy]; cbn [insert_by_key].
  - repeat constructor.
  - destruct (k y <=? k x)%Z eqn:Hle.
    + apply Z.leb_le in Hle. constructor; [by constructor|].
      constructor; [done|]. eapply Forall_impl; [exact Hy|].
      intros z Hz. unfold desc in *. lia.
    + apply Z.leb_gt in Hle. constructor; [done|].
      rewrite insert_by_key_perm. constructor; [|done]. unfold desc. lia.
Qed.

Lemma sort_by_key_desc_sorted l : StronglySorted (desc k) (sort_by_key_desc k l).
Proof.
  induction l as [|x l IH]; [constructor|]. by apply insert_by_key_sorted.
Qed.

Lemma filter_insert_by_key (c : Z) x l :
  filter (λ y, k y = c) (insert_by_key k x l) = filter (λ y, k y = c) (x :: l).
Proof.
  induction l as [|y l IH]; [done|]. cbn [insert_by_key].
  destruct (k y <=? k x)%Z eqn:Hle; [done|]. apply Z.leb_gt in Hle.
  rewrite filter_cons, IH, !filter_cons.
  destruct (decide (k y = c)), (decide (k x = c)); try done. lia.
Qed.

(** The sort is stable: skills of equal key keep their order. *)
Lemma sort_by_key_desc_stable (c : Z) l :
  filter (λ y, k y = c) (sort_by_key_desc k l) = filter (λ y, k y = c) l.
Proof.
  induction l as [|x l IH]; [done|].
  cbn [sort_by_key_desc foldr]. rewrite filter_insert_by_key.
  rewrite !filter_cons. fold (sort_by_key_desc k l). by rewrite IH.
Qed.

(** A list whose keys are all equal is left as it is. *)
Lemma sort_by_key_desc_constant (c : Z) l :
  Forall (λ y, k y = c) l → sort_by_key_desc k l = l.
Proof.
  intros Hl.
  assert (∀ l' : list A, Forall (λ y, k y = c) l' →
            filter (λ y, k y = c) l' = l') as Hfilter.
  { induction 1 as [|y l' Hy _ IH]; [done|].
    by rewrite filter_cons_True, IH. }
  rewrite <- (Hfilter (sort_by_key_desc k l)).
  - by rewrite sort_by_key_desc_stable, Hfilter.
  - by rewrite sort_by_key_desc_perm.
Qed.

End SortByKey.

Lemma insert_by_frequency_key x l :
  insert_by_frequency x l = insert_by_key frequency x l.
Proof. induction l as [|y l IH]; [done|]. simpl. by rewrite IH. Qed.

Lemma sort_by_frequency_key l : sort_by_frequency l = sort_by_key_desc frequency l.
Proof.
  induction l as [|x l IH]; [done|].
  cbn [sort_by_frequency sort_by_key_desc foldr].
  fold (sort_by_frequency l) (sort_by_key_desc frequency l).
  by rewrite IH, insert_by_frequency_key.
Qed.

(** Splitting a sorted list. *)
Lemma sorted_take_drop {A} (R : relation A) (n : nat) (l : list A) :
  StronglySorted R l →
  StronglySorted R (take n l)
  ∧ ∀ x y, x ∈ take n l → y ∈ drop n l → R x y.
Proof.
  intros Hl. rewrite <- (take_drop n l) in Hl.
  apply StronglySorted_app in Hl as (Hbetween & Ht & _).
  split; [done|]. intros x y Hx Hy. by apply Hbetween.
Qed.

(** X1.  [top_missing_skills] returns at most 10 skills, in descending
    order of frequency (ties in list order); together with the skills it
    leaves out they are the missing skills, and no skill left out has a
    higher frequency than one returned. *)
Theorem top_missing_skills_spec (missing : list Skill) :
  let top := top_missing_skills missing in
  length top = Nat.min 10 (length missing)
  ∧ StronglySorted (λ a b, (frequency b ≤ frequency a)%Z) top
  ∧ (∀ c, filter (λ s, frequency s = c) top
          `prefix_of` filter (λ s, frequency s = c) missing)
  ∧ ∃ others, top ++ others ≡ₚ missing
      ∧ ∀ x y, x ∈ top → y ∈ others → (frequency y ≤ frequency x)%Z.
Proof.
  intros top. unfold top, top_missing_skills.
  pose proof (sort_by_key_desc_sorted frequency missing) as Hsorted.
  destruct (sorted_take_drop _ 10 _ Hsorted) as [Htop Hbetween].
  split_and!.
  - by rewrite length_take, (Permutation_length (sort_by_key_desc_perm _ _)).
  - exact Htop.
  - intros c. rewrite <- (sort_by_key_desc_stable frequency c missing).
    rewrite <- (take_drop 10 (sort_by_key_desc frequency missing)) at 2.
    rewrite filter_app. by apply prefix_app_r.
  - exists (drop 10 (sort_by_key_desc frequency missing)).
    split; [|exact Hbetween].
    by rewrite take_drop, sort_by_key_desc_perm.
Qed.

(* ===================================================================== *)
(** * The skill extractor *)
(* ===================================================================== *)

Section ExtractorFacts.
Variable SKILL_DICTIONARY : gset string.
Variable EXCLUDED_WORDS : gset string.
Variable SKILL_CATEGORIES : gmap string string.
Variable SOFT_SKILLS : gset string.
Variable word_search : string → string → bool.
Variable word_count : string → string → Z.
Variable nlp : option (string → option Doc).

Local Abbreviation from_dictionary := (from_dictionary SKILL_DICTIONARY EXCLUDED_WORDS).

Lemma dictionary_detector_spec (text x : string) :
  x ∈ _extract_skills_dictionary SKILL_DICTIONARY EXCLUDED_WORDS word_search text
  ↔ ∃ s, s ∈ SKILL_DICTIONARY ∧ (s ∉ EXCLUDED_WORDS)
         ∧ word_search s (PyStr.lower text) = true ∧ x = PyStr.title s.
Proof.
  unfold _extract_skills_dictionary, set_fold. simpl.
  setoid_rewrite <- (elem_of_elements SKILL_DICTIONARY).
  induction (elements SKILL_DICTIONARY) as [|s l IH]; simpl.
  - split; [set_solver|]. by intros (s & []%elem_of_nil & _).
  - destruct (decide (s ∈ EXCLUDED_WORDS)) as [Hex|Hex].
    + rewrite IH. split.
      * intros (s' & ? & ? & ? & ?). exists s'. split_and!; [by right|done..].
      * intros (s' & [->|?]%elem_of_cons & ? & ? & ?); [done|]. by exists s'.
    + destruct (word_search s (PyStr.lower text)) eqn:Hs.
      * rewrite elem_of_union, IH, elem_of_singleton. split.
        -- intros [(s' & ? & ? & ? & ?)| ->].
           ++ exists s'. split_and!; [by right|done..].
           ++ exists s. split_and!; [by left|done..].
        -- intros (s' & [->|?]%elem_of_cons & ? & ? & ?); [by right|].
           left. by exists s'.
      * rewrite IH. split.
        -- intros (s' & ? & ? & ? & ?). exists s'. split_and!; [by right|done..].
        -- intros (s' & [->|?]%elem_of_cons & ? & ? & ?); [congruence|].
           by exists s'.
Qed.

Lemma known_skill_spec (c : string) :
  known_skill SKILL_DICTIONARY EXCLUDED_WORDS c = true
  ↔ c ∈ SKILL_DICTIONARY ∧ c ∉ EXCLUDED_WORDS.
Proof.
  unfold known_skill. rewrite andb_true_iff, negb_true_iff.
  by rewrite bool_decide_eq_true, bool_decide_eq_false.
Qed.

Lemma nlp_detector_sound (text x : string) :
  x ∈ _extract_skills_nlp SKILL_DICTIONARY EXCLUDED_WORDS nlp text →
  from_dictionary x.
Proof.
  unfold _extract_skills_nlp. destruct nlp as [model|]; [|set_solver].
  destruct (model text) as [doc|]; [|set_solver].
  assert (∀ (l : list string) (found : gset string),
            (∀ y, y ∈ found → from_dictionary y) →
            ∀ y, y ∈ foldl (λ found chunk,
                   let chunk_text := PyStr.strip (PyStr.lower chunk) in
                   if known_skill SKILL_DICTIONARY EXCLUDED_WORDS chunk_text
                   then found ∪ {[ PyStr.title chunk_text ]} else found) found l →
                 from_dictionary y) as Hchunks.
  { induction l as [|c l IH]; intros found Hfound; [done|]. simpl.
    apply IH. destruct (known_skill _ _ _) eqn:Hk; [|done].
    apply known_skill_spec in Hk as [??].
    intros y [?| ->%elem_of_singleton]%elem_of_union; [by apply Hfound|].
    by eexists. }
  assert (∀ (l : list (string * string)) (found : gset string),
            (∀ y, y ∈ found → from_dictionary y) →
            ∀ y, y ∈ foldl (λ found (token : string * string),
                   if bool_decide (token.2 = "NOUN") || bool_decide (token.2 = "PROPN")
                   then
                     let token_text := PyStr.strip (PyStr.lower token.1) in
                     if known_skill SKILL_DICTIONARY EXCLUDED_WORDS token_text
                     then found ∪ {[ PyStr.title token_text ]} else found
                   else found) found l →
                 from_dictionary y) as Htokens.
  { induction l as [|c l IH]; intros found Hfound; [done|]. simpl.
    apply IH. destruct (_ || _); [|done].
    destruct (known_skill _ _ _) eqn:Hk; [|done].
    apply known_skill_spec in Hk as [??].
    intros y [?| ->%elem_of_singleton]%elem_of_union; [by apply Hfound|].
    by eexists. }
  apply Htokens, Hchunks. set_solver.
Qed.



(** X4.  On ASCII names, [extract_skills_from_list] skips the names that
    are empty or excluded once lowercased and stripped and keeps the
    others in order: each skill it returns has frequency 1 and the
    stripped, title-cased name, and its lowercased name is the lowercased,
    stripped input.  (Outside ASCII [str.title] is not idempotent and
    changes lowercased names, so the names are restricted.) *)
Theorem extract_skills_from_list_spec (skill_list : list string) :
  Forall (λ skill_name, PyStr.is_ascii skill_name = true) skill_list →
  let kept (skill_name : string) : Prop :=
    PyStr.strip (PyStr.lower skill_name) ≠ ""
    ∧ PyStr.strip (PyStr.lower skill_name) ∉ EXCLUDED_WORDS in
  let out :=
    extract_skills_from_list EXCLUDED_WORDS SKILL_CATEGORIES SOFT_SKILLS skill_list in
  map name out = map (λ n, PyStr.title (PyStr.strip n)) (filter kept skill_list)
  ∧ map key out = map (λ n, PyStr.strip (PyStr.lower n)) (filter kept skill_list)
  ∧ Forall (λ s, frequency s = 1 ∧ trimmed s ∧ key s ≠ "" ∧ key s ∉ EXCLUDED_WORDS) out
  ∧ (length out ≤ length skill_list)%nat.
Proof.
  intros _ kept out. unfold out.
  induction skill_list as [|n l (IHn & IHk & IHall & IHlen)]; [by repeat constructor|].
  cbn [extract_skills_from_list]. rewrite filter_cons.
  destruct (decide (kept n)) as [[Hne Hex]|Hno].
  - assert (bool_decide (PyStr.strip (PyStr.lower n) = "")
            || bool_decide (PyStr.strip (PyStr.lower n) ∈ EXCLUDED_WORDS) = false) as ->.
    { apply orb_false_iff. by rewrite !bool_decide_eq_false. }
    assert (key (Skill_init (PyStr.title (PyStr.strip n))
                   (default "Technical" (SKILL_CATEGORIES !! PyStr.strip (PyStr.lower n)))
                   (negb (bool_decide (PyStr.strip (PyStr.lower n) ∈ SOFT_SKILLS))) 1)
            = PyStr.strip (PyStr.lower n)) as Hkey.
    { rewrite key_Skill_init_raw, PyStrFacts.lower_title.
      by rewrite PyStrMore.lower_strip, PyStrMore.strip_strip. }
    cbn [map]. rewrite IHn, IHk, Hkey. split_and!.
    + f_equal. unfold Skill_init. simpl. apply PyStrMore.normalise_idemp.
    + done.
    + constructor; [|done]. rewrite Hkey. split_and!; [done| |done..].
      apply Skill_init_trimmed.
    + simpl. lia.
  - assert (bool_decide (PyStr.strip (PyStr.lower n) = "")
            || bool_decide (PyStr.strip (PyStr.lower n) ∈ EXCLUDED_WORDS) = true) as ->.
    { apply orb_true_iff. rewrite !bool_decide_eq_true.
      destruct (decide (PyStr.strip (PyStr.lower n) = "")); [by left|right].
      destruct (decide (PyStr.strip (PyStr.lower n) ∈ EXCLUDED_WORDS)); [done|].
      destruct Hno. done. }
    split_and!; [done..|]. simpl. lia.
Qed.

End ExtractorFacts.

(* ===================================================================== *)
(** * The learning-plan generator: catalog lookups, outcome and saving *)
(* ===================================================================== *)

Lemma dict_get_set {V} (d : pydict V) (k k' : string) (v : V) :
  dict_get (dict_set d k v) k' = if decide (k = k') then Some v else dict_get d k'.
Proof.
  induction d as [|[k0 v0] d IH]; simpl.
  - destruct (decide (k = k')); [done|done].
  - destruct (decide (k0 = k)) as [->|Hne]; simpl.
    + by destruct (decide (k = k')).
    + destruct (decide (k0 = k')) as [->|]; [|done].
      by destruct (decide (k = k')).
Qed.

Lemma dict_set_fresh {V} (d : pydict V) (k : string) (v : V) :
  k ∉ d.*1 → dict_set d k v = d ++ [(k, v)].
Proof.
  induction d as [|[k0 v0] d IH]; [done|]. simpl.
  intros [? ?]%not_elem_of_cons.
  destruct (decide (k0 = k)); [done|]. by rewrite IH.
Qed.

Lemma dict_set_keys {V} (d : pydict V) (k : string) (v : V) :
  NoDup d.*1 → NoDup (dict_set d k v).*1.
Proof.
  induction d as [|[k0 v0] d IH]; simpl.
  - intros _. apply NoDup_singleton.
  - intros [Hk0 Hd]%NoDup_cons.
    destruct (decide (k0 = k)) as [->|Hne]; simpl.
    + by apply NoDup_cons.
    + apply NoDup_cons. split; [|by apply IH].
      intros Hin. apply Hk0. clear -Hin Hne.
      induction d as [|[k1 v1] d IH]; simpl in *.
      * apply elem_of_cons in Hin as [?|[]%elem_of_nil]. done.
      * destruct (decide (k1 = k)) as [->|]; simpl in *.
        -- apply elem_of_cons in Hin as [?|?]; [done|]. by right.
        -- apply elem_of_cons in Hin as [->|?]; [by left|]. right. by apply IH.
Qed.

Section CatalogFacts.
Context `{PyFloat}.
Variable db : string → Z → string + list Row.
Variable now : string.

(** The dictionary [_fetch_resources_for_skills] has built when every
    lookup answers with [rows]. *)
Local Abbreviation fetched rows d skills :=
  (foldl (λ (acc : pydict (list LearningResource)) (s : Skill),
            dict_set acc (name s) (map resource_of_row (rows (name s)))) d skills).

Lemma fetch_loop_ok (rows : string → list Row) skills d calls :
  (∀ s, s ∈ skills → db (name s) 3 = inr (rows (name s))) →
  fetch_loop db skills d calls
  = (inr (fetched rows d skills), calls ++ map (λ s, (name s, 3)) skills).
Proof.
  revert d calls. induction skills as [|s rest IH]; intros d calls Hok.
  - simpl. by rewrite app_nil_r.
  - cbn [fetch_loop]. unfold gbind, lookup_resources.
    rewrite (Hok s) by left.
    rewrite IH by (intros; apply Hok; by right).
    cbn [map foldl]. by rewrite <- app_assoc.
Qed.

Lemma fetch_loop_raise (rows : string → list Row) pre s post d calls e :
  (∀ x, x ∈ pre → db (name x) 3 = inr (rows (name x))) →
  db (name s) 3 = inl e →
  fetch_loop db (pre ++ s :: post) d calls
  = (inl e, calls ++ map (λ s, (name s, 3)) (pre ++ [s])).
Proof.
  revert d calls. induction pre as [|x pre IH]; intros d calls Hok Hraise.
  - cbn [app fetch_loop]. unfold gbind, lookup_resources. by rewrite Hraise.
  - cbn [app fetch_loop]. unfold gbind, lookup_resources.
    rewrite (Hok x) by left.
    rewrite IH by (try done; intros; apply Hok; by right).
    cbn [map app]. by rewrite <- app_assoc.
Qed.

Lemma fetch_loop_calls_take skills d calls :
  ∃ n, (n ≤ length skills)%nat ∧ (skills ≠ [] → (1 ≤ n)%nat)
       ∧ (fetch_loop db skills d calls).2
         = calls ++ map (λ s, (name s, 3)) (take n skills).
Proof.
  revert d calls. induction skills as [|s rest IH]; intros d calls.
  - exists 0%nat. simpl. by rewrite app_nil_r.
  - cbn [fetch_loop]. unfold gbind, lookup_resources.
    destruct (db (name s) 3) as [e|rows].
    + exists 1%nat. simpl. split_and!; [lia|done|done].
    + destruct (IH (dict_set d (name s) (map resource_of_row rows))
                  (calls ++ [(name s, 3)])) as (n & Hn & _ & Hcalls).
      exists (S n). rewrite Hcalls. simpl. split_and!; [lia|lia|].
      by rewrite <- app_assoc.
Qed.

Lemma fetched_get (rows : string → list Row) skills d n :
  dict_get (fetched rows d skills) n
  = if decide (n ∈ map name skills) then Some (map resource_of_row (rows n))
    else dict_get d n.
Proof.
  revert d. induction skills as [|s rest IH]; intros d; [done|].
  cbn [foldl map]. rewrite IH, dict_get_set.
  destruct (decide (n ∈ map name rest)) as [Hin|Hout].
  - rewrite decide_True; [done|by right].
  - destruct (decide (name s = n)) as [<-|Hne].
    + rewrite decide_True; [done|by left].
    + rewrite decide_False; [done|].
      intros [?|?]%elem_of_cons; congruence.
Qed.

Lemma fetched_keys (rows : string → list Row) skills d :
  NoDup d.*1 → NoDup (fetched rows d skills).*1.
Proof.
  revert d. induction skills as [|s rest IH]; intros d Hd; [done|].
  cbn [foldl]. by apply IH, dict_set_keys.
Qed.

Lemma fetched_distinct (rows : string → list Row) skills d :
  NoDup (d.*1 ++ map name skills) →
  fetched rows d skills
  = d ++ map (λ s, (name s, map resource_of_row (rows (name s)))) skills.
Proof.
  revert d. induction skills as [|s rest IH]; intros d Hd.
  - simpl. by rewrite app_nil_r.
  - cbn [foldl map]. apply NoDup_app in Hd as (Hd & Hdisj & Hs).
    rewrite dict_set_fresh by (intros Hin; apply (Hdisj _ Hin); by left).
    rewrite IH; [by rewrite <- app_assoc|].
    rewrite fmap_app. simpl. rewrite <- app_assoc. simpl.
    apply NoDup_app. split_and!; [done| |done].
    intros x Hx Hin. by apply (Hdisj x).
Qed.

(** X5.  Parsing the stored value of a platform or of a difficulty level
    gives that member back; any other string gives [OTHER], respectively
    [BEGINNER]. *)
Theorem parse_enum_values :
  (∀ p, _parse_platform (Platform_value p) = p)
  ∧ (∀ s, (∀ p, Platform_value p ≠ s) → _parse_platform s = OTHER)
  ∧ (∀ d, _parse_difficulty (DifficultyLevel_value d) = d)
  ∧ (∀ s, (∀ d, DifficultyLevel_value d ≠ s) → _parse_difficulty s = BEGINNER).
Proof.
  split_and!.
  - by intros [].
  - intros s Hs. unfold _parse_platform. cbn [List.find].
    repeat (rewrite bool_decide_eq_false_2 by apply Hs). done.
  - by intros [].
  - intros s Hs. unfold _parse_difficulty. cbn [List.find].
    repeat (rewrite bool_decide_eq_false_2 by apply Hs). done.
Qed.

(** X6.  The resource built from a catalog row never has a duration of 0
    weeks or an empty price: a missing or zero duration becomes 1, a
    missing or empty price becomes ["Free"], and any other value is kept. *)
Theorem resource_of_row_defaults (row : Row) :
  let resource := resource_of_row row in
  duration_weeks resource ≠ 0
  ∧ price resource ≠ ""
  ∧ (∀ d, row_duration_weeks row = Some d → d ≠ 0 → duration_weeks resource = d)
  ∧ (∀ p, row_price row = Some p → p ≠ "" → price resource = p)
  ∧ (row_duration_weeks row = None ∨ row_duration_weeks row = Some 0 →
     duration_weeks resource = 1)
  ∧ (row_price row = None ∨ row_price row = Some "" → price resource = "Free").
Proof.
  destruct row as [? ? ? ? dur ? ? ? pr]. simpl. split_and!.
  - destruct dur as [d|]; [|done]. destruct (d =? 0)%Z eqn:E; [done|].
    by apply Z.eqb_neq.
  - destruct pr as [p|]; [|done]. by destruct (decide (p = "")).
  - intros d -> Hd. by apply Z.eqb_neq in Hd as ->.
  - intros p -> Hp. by rewrite decide_False.
  - by intros [->| ->].
  - by intros [->| ->].
Qed.

(** X7.  [_fetch_resources_for_skills] asks the catalog for 3 resources
    of each skill, in order.  When every lookup answers, the dictionary it
    returns has exactly the names of the skills as keys, each once, and
    maps a name to the resources built from the rows found for it; with
    distinct names the entries are in the order of the skills.  When a
    lookup raises, the exception ends the loop: no lookup is made for the
    skills after it. *)
Theorem fetch_resources_for_skills_spec (rows : string → list Row)
    (skills : list Skill) (calls : list (string * Z)) :
  ((∀ s, s ∈ skills → db (name s) 3 = inr (rows (name s))) →
   ∃ d, _fetch_resources_for_skills db skills calls
        = (inr d, calls ++ map (λ s, (name s, 3)) skills)
      ∧ (∀ n, dict_get d n
              = if decide (n ∈ map name skills)
                then Some (map resource_of_row (rows n)) else None)
      ∧ NoDup d.*1
      ∧ (NoDup (map name skills) →
         d = map (λ s, (name s, map resource_of_row (rows (name s)))) skills))
  ∧ (∀ pre s post e,
       skills = pre ++ s :: post →
       (∀ x, x ∈ pre → db (name x) 3 = inr (rows (name x))) →
       db (name s) 3 = inl e →
       _fetch_resources_for_skills db skills calls
       = (inl e, calls ++ map (λ s, (name s, 3)) (pre ++ [s]))).
Proof.
  unfold _fetch_resources_for_skills. split.
  - intros Hok. exists (fetched rows [] skills). split_and!.
    + by apply fetch_loop_ok.
    + intros n. by rewrite fetched_get.
    + apply fetched_keys. constructor.
    + intros Hnd. by rewrite fetched_distinct.
  - intros pre s post e -> Hok Hraise. by apply (fetch_loop_raise rows).
Qed.

(** X8.  Whatever the catalog does, [generate_learning_path] leaves the
    match percentage and the missing skills of the result as they were and
    only appends to its recommended resources; it makes at most 8 lookups,
    for the first missing skills in order, and at least one when a skill
    is missing.  When a lookup raises, the text is the error message and
    the result is unchanged. *)
Theorem generate_learning_path_outcome (result : ResultView)
    (calls : list (string * Z)) :
  let out := generate_learning_path db now result calls in
  match_percentage out.1.2 = match_percentage result
  ∧ view_missing_skills out.1.2 = view_missing_skills result
  ∧ recommended_resources result `prefix_of` recommended_resources out.1.2
  ∧ (∃ n, (n ≤ 8)%nat
          ∧ (n = 0%nat ↔ view_missing_skills result = [])
          ∧ out.2 = calls ++ map (λ s, (name s, 3))
                                 (take n (view_missing_skills result)))
  ∧ (∀ e calls',
       _fetch_resources_for_skills db (take 8 (view_missing_skills result)) calls
       = (inl e, calls') →
       view_missing_skills result ≠ [] →
       out = (("Error generating learning path: " +:+ e, result), calls')).
Proof.
  intros out. unfold out, generate_learning_path, _prioritize_skills.
  destruct (view_missing_skills result) as [|s rest] eqn:Hmissing.
  - simpl. split_and!; [done|done|reflexivity| |by intros e calls' _ []].
    exists 0%nat. simpl. rewrite app_nil_r. split_and!; [lia|done|done].
  - set (skills := s :: rest).
    unfold _fetch_resources_for_skills.
    destruct (fetch_loop_calls_take (take 8 skills) [] calls)
      as (n & Hn & Hpos & Hcalls).
    assert (n ≤ 8)%nat as Hn8 by (rewrite length_take in Hn; lia).
    assert (take n (take 8 skills) = take n skills) as Htake.
    { rewrite take_take. f_equal. lia. }
    rewrite Htake in Hcalls.
    assert (1 ≤ n)%nat as Hn1 by (apply Hpos; done).
    destruct (fetch_loop db (take 8 skills) [] calls) as [[e|d] calls'] eqn:Hfetch;
      simpl in Hcalls; subst calls'; simpl.
    + split_and!; [done|done|reflexivity| |].
      * exists n. split_and!; [done|split; [lia|done]|done].
      * by intros e' calls' [= <- <-] _.
    + split_and!; [done|done|by apply prefix_app_r| |done].
      exists n. split_and!; [done|split; [lia|done]|done].
Qed.

(** X9.  When every lookup for the first 8 missing skills answers and
    their names are distinct, [generate_learning_path] returns the plan
    formatted over those skills and appends to the recommended resources
    the resources built from the rows found, skill by skill. *)
Theorem generate_learning_path_success (rows : string → list Row)
    (result : ResultView) (calls : list (string * Z)) :
  view_missing_skills result ≠ [] →
  let skills := take 8 (view_missing_skills result) in
  let found := map (λ s, (name s, map resource_of_row (rows (name s)))) skills in
  (∀ s, s ∈ skills → db (name s) 3 = inr (rows (name s))) →
  NoDup (map name skills) →
  generate_learning_path db now result calls
  = ((_format_learning_path now
        (_distribute_skills_across_weeks skills found) result,
      mkResultView (match_percentage result) (view_missing_skills result)
        (recommended_resources result
         ++ concat (map (λ s, map resource_of_row (rows (name s))) skills))),
     calls ++ map (λ s, (name s, 3)) skills).
Proof.
  intros Hmissing skills found Hok Hnd.
  unfold generate_learning_path, _prioritize_skills, _fetch_resources_for_skills.
  destruct (view_missing_skills result) as [|s rest] eqn:Hm; [done|].
  fold skills. rewrite (fetch_loop_ok rows) by done.
  rewrite fetched_distinct by done. cbn [app]. fold found.
  do 3 f_equal. unfold found. rewrite map_map. done.
Qed.

End CatalogFacts.

Section SavingFacts.
Context `{PyFloat}.
Variable db_save : SavedWeek → bool.

(** The row [save_learning_path] hands to the database for one week of
    the plan. *)
Local Abbreviation row_of analysis_id w :=
  (mkSavedWeek analysis_id (week_number w)
     (PyStr.join ", " (map name (week_skills w)))
     "See learning path for details"
     (PyStr.join "; " (take 3 (milestones w)))).

Lemma save_loop_ok weeks analysis_id skills resources :
  (∀ w, w ∈ distribute_loop weeks skills resources →
        db_save (row_of analysis_id w) = false) →
  save_loop db_save weeks analysis_id skills
  = (map (λ w, row_of analysis_id w) (distribute_loop weeks skills resources), false).
Proof.
  induction weeks as [|week rest IH]; intros Hok; [done|].
  cbn [save_loop distribute_loop] in *.
  destruct (PyStr.slice _ _ skills) as [|s ws] eqn:Hslice; [done|].
  cbn zeta in *.
  pose proof (Hok _ ltac:(by left)) as Hw0.
  cbn [week_number week_skills milestones] in Hw0.
  rewrite Hw0, IH; [done|]. intros w Hw. apply Hok. by right.
Qed.

Lemma save_loop_raise weeks analysis_id skills resources pre w post :
  distribute_loop weeks skills resources = pre ++ w :: post →
  (∀ x, x ∈ pre → db_save (row_of analysis_id x) = false) →
  db_save (row_of analysis_id w) = true →
  save_loop db_save weeks analysis_id skills
  = (map (λ w, row_of analysis_id w) (pre ++ [w]), true).
Proof.
  revert pre. induction weeks as [|week rest IH]; intros pre Hplan Hok Hraise.
  - by destruct pre.
  - cbn [save_loop distribute_loop] in *.
    destruct (PyStr.slice _ _ skills) as [|s ws] eqn:Hslice; [by destruct pre|].
    cbn zeta in *. destruct pre as [|x pre]; cbn [app] in Hplan;
      injection Hplan as Hhead Htail.
    + subst w. cbn [week_number week_skills milestones] in Hraise.
      by rewrite Hraise.
    + pose proof (Hok _ ltac:(by left)) as Hx. subst x.
      cbn [week_number week_skills milestones] in Hx. rewrite Hx.
      rewrite (IH pre); [done|done| |done].
      intros y Hy. apply Hok. by right.
Qed.

(** X10.  [save_learning_path] stores the weeks of the plan that
    [generate_learning_path] lays out for the same result: one row per
    week, with the week number, the names of its skills joined by [", "]
    and its first 3 milestones joined by ["; "]; it returns [True] when no
    call raises.  When the call for a week raises, the weeks after it are
    not stored and it returns [False]. *)
Theorem save_learning_path_rows (analysis_id : Z) (result : ResultView)
    (resources : pydict (list LearningResource)) :
  let plan :=
    _distribute_skills_across_weeks
      (_prioritize_skills (view_missing_skills result) 8) resources in
  ((∀ w, w ∈ plan → db_save (row_of analysis_id w) = false) →
   save_learning_path db_save analysis_id result
   = (map (λ w, row_of analysis_id w) plan, true))
  ∧ (∀ pre w post,
       plan = pre ++ w :: post →
       (∀ x, x ∈ pre → db_save (row_of analysis_id x) = false) →
       db_save (row_of analysis_id w) = true →
       save_learning_path db_save analysis_id result
       = (map (λ w, row_of analysis_id w) (pre ++ [w]), false)).
Proof.
  intros plan. unfold save_learning_path. split.
  - intros Hok. by rewrite (save_loop_ok _ _ _ resources).
  - intros pre w post Hplan Hok Hraise.
    by rewrite (save_loop_raise _ _ _ resources pre w post).
Qed.

(** X11.  A week of the plan has 1 or 2 skills and two milestones per
    skill followed by the two general ones.  So the four milestones the
    formatted plan shows for a week of 2 skills, and the three that are
    saved, are all about its skills: the general milestones appear only
    for a week of 1 skill. *)
Theorem plan_week_milestones (skills : list Skill)
    (resources : pydict (list LearningResource)) (w : WeekData) :
  w ∈ _distribute_skills_across_weeks skills resources →
  length (milestones w) = (2 * length (week_skills w) + 2)%nat
  ∧ ((∃ a, week_skills w = [a]
          ∧ take 4 (milestones w)
            = ["Complete " +:+ name a +:+ " tutorial/course";
               "Build a small project using " +:+ name a;
               "Document your learning progress";
               "Update your resume with new skills"])
     ∨ (∃ a b, week_skills w = [a; b]
          ∧ take 4 (milestones w)
            = ["Complete " +:+ name a +:+ " tutorial/course";
               "Build a small project using " +:+ name a;
               "Complete " +:+ name b +:+ " tutorial/course";
               "Build a small project using " +:+ name b])).
Proof.
  unfold _distribute_skills_across_weeks.
  destruct skills as [|s1 [|s2 [|s3 [|s4 [|s5 [|s6 [|s7 [|s8 more]]]]]]]];
    cbn [distribute_loop PyStr.slice take drop Nat.sub Nat.mul Nat.add];
    intros Hw;
    repeat (apply elem_of_cons in Hw as [->|Hw]);
    try (by apply elem_of_nil in Hw);
    (split; [reflexivity|]);
    first [left; eexists; split; reflexivity
          |right; do 2 eexists; split; reflexivity].
Qed.

End SavingFacts.

(* ===================================================================== *)
(** * Skills as values: names, dictionaries, matching against a user *)
(* ===================================================================== *)

(** X12.  [matches_name] compares the lowercased name of the skill with
    the lowercased, stripped query: it ignores the case and the
    surrounding whitespace of the query, a skill built from an ASCII name
    matches that name, and on the name of a skill it agrees with
    [matches].  (Outside ASCII a skill need not match the name it was
    built from: [str.title] can change the lowercased name.) *)
Theorem matches_name_spec (s : Skill) (query : string) :
  matches_name_val s query = matches_name_val s (PyStr.strip query)
  ∧ matches_name_val s query = matches_name_val s (PyStr.lower query)
  ∧ (∀ c t f, PyStr.is_ascii query = true →
       matches_name_val (Skill_init query c t f) query = true)
  ∧ (∀ other, trimmed other →
       matches_name_val s (name other) = matches_val s other).
Proof.
  unfold matches_name_val. split_and!.
  - by rewrite PyStrMore.lower_strip, PyStrMore.strip_strip.
  - by rewrite PyStrMore.lower_idemp.
  - intros c t f _. apply bool_decide_eq_true.
    change (key (Skill_init query c t f) = PyStr.strip (PyStr.lower query)).
    apply key_Skill_init_raw.
  - intros other Hother. unfold matches_val, key.
    by rewrite <- PyStrMore.lower_strip, Hother.
Qed.

(** X13.  Reading back the dictionary of a skill builds the skill anew,
    so the name is normalised once more: the round trip gives the skill
    back exactly when its name is already stripped and title-cased, which
    holds of every skill the constructor built from an ASCII name, also
    after its frequency was incremented.  An empty dictionary gives the
    defaults.  (Outside ASCII [str.title] is not idempotent, and the
    round trip can change the name.) *)
Theorem Skill_dict_round_trip (s : Skill) :
  Skill_from_dict (Skill_to_dict s)
  = Some (Skill_init (name s) (category s) (is_technical s) (frequency s))
  ∧ (Skill_from_dict (Skill_to_dict s) = Some s
     ↔ PyStr.title (PyStr.strip (name s)) = name s)
  ∧ (∀ n c t f,
       PyStr.is_ascii n = true →
       Skill_from_dict (Skill_to_dict (Skill_init n c t f)) = Some (Skill_init n c t f)
       ∧ Skill_from_dict (Skill_to_dict (incremented (Skill_init n c t f)))
         = Some (incremented (Skill_init n c t f)))
  ∧ Skill_from_dict ∅ = Some (mkSkill "" "Technical" true 0).
Proof.
  assert (∀ x, Skill_from_dict (Skill_to_dict x)
               = Some (Skill_init (name x) (category x) (is_technical x) (frequency x)))
    as Hround.
  { intros x. unfold Skill_from_dict, Skill_to_dict. by simplify_map_eq. }
  split_and!.
  - apply Hround.
  - rewrite Hround. unfold Skill_init. destruct s as [n c t f]. simpl.
    split; [by intros [= ->]|by intros ->].
  - intros n c t f _. rewrite !Hround. unfold incremented, set_frequency, Skill_init.
    simpl. by rewrite PyStrMore.normalise_idemp.
  - done.
Qed.

Lemma elem_of_user_skill_names (user_skills : list Skill) (x : string) :
  x ∈ user_skill_names user_skills ↔ ∃ u, u ∈ user_skills ∧ key u = x.
Proof.
  unfold user_skill_names. rewrite elem_of_list_to_set, elem_of_map.
  unfold key. naive_solver.
Qed.

(** X14.  [Job.get_matching_skills] and [Job.get_missing_skills] split the
    required skills of a job, keeping their order: a required skill is
    matching when some skill of the user has the same lowercased name, and
    missing otherwise. *)
Theorem job_matching_partition (required user_skills : list Skill) :
  let matching := get_matching_skills required user_skills in
  let missing := get_missing_skills required user_skills in
  matching ++ missing ≡ₚ required
  ∧ matching `sublist_of` required
  ∧ missing `sublist_of` required
  ∧ (∀ s, s ∈ matching ↔ s ∈ required ∧ ∃ u, u ∈ user_skills ∧ key u = key s)
  ∧ (∀ s, s ∈ missing ↔ s ∈ required ∧ ∀ u, u ∈ user_skills → key u ≠ key s).
Proof.
  intros matching missing. unfold matching, missing.
  unfold get_matching_skills, get_missing_skills. split_and!.
  - apply filter_app_complement.
  - apply sublist_filter.
  - apply sublist_filter.
  - intros s. rewrite list_elem_of_filter, elem_of_user_skill_names.
    unfold key. naive_solver.
  - intros s. rewrite list_elem_of_filter, elem_of_user_skill_names.
    unfold key. naive_solver.
Qed.

(** X15.  [Job.calculate_match_percentage] is 0.0 for a job without
    required skills and otherwise [round(m / n * 100, 2)], where [n]
    counts the required skills and [m] those [get_matching_skills]
    returns; it lies between 0 and 100 and is 0 when no required skill is
    matching. *)
Theorem job_match_percentage_spec (F : PyFloat) (laws : PyFloatLaws F)
    (required user_skills : list Skill) :
  let score := Job_calculate_match_percentage required user_skills in
  let m := length (get_matching_skills required user_skills) in
  let n := length required in
  score = (if decide (n = 0%nat) then fzero
           else round_ndigits (mul_int (truediv (Z.of_nat m) (Z.of_nat n)) 100) 2)
  ∧ fle fzero score ∧ fle score (of_int 100)
  ∧ (m = 0%nat → score = fzero).
Proof.
  intros score m n.
  assert (score = (if decide (n = 0%nat) then fzero
           else round_ndigits (mul_int (truediv (Z.of_nat m) (Z.of_nat n)) 100) 2))
    as Hscore.
  { unfold score, m, n, Job_calculate_match_percentage, get_matching_skills.
    by destruct required. }
  split; [done|]. rewrite Hscore.
  assert (m ≤ n)%nat as Hle by apply length_filter.
  destruct (decide (n = 0%nat)) as [Hn|Hn].
  - split_and!; [apply fle_zero_zero | apply fle_zero_hundred | done].
  - destruct (truediv_unit (Z.of_nat m) (Z.of_nat n)) as [Hd0 Hd1]; [lia..|].
    destruct (mul_int_percent _ Hd0 Hd1) as [Hm0 Hm1].
    destruct (round_percent _ Hm0 Hm1) as [Hr0 Hr1].
    split_and!; [done..|].
    intros ->. simpl. rewrite truediv_zero by lia.
    by rewrite mul_int_zero, round_zero.
Qed.

(** X16.  [AnalysisResult.calculate_match_percentage] returns 0.0 and
    leaves the stored percentage as it was when both lists are empty, so a
    value stored earlier stays; otherwise it stores what it returns,
    [round(m / (m + k) * 100, 2)] for [m] matching and [k] missing skills,
    which lies between 0 and 100 and is 0 when nothing matches. *)
Theorem result_match_percentage_spec (F : PyFloat) (laws : PyFloatLaws F)
    (matching missing : list Skill) (stored : float) :
  let out := Result_calculate_match_percentage matching missing stored in
  let m := length matching in
  let k := length missing in
  (matching = [] ∧ missing = [] → out = (fzero, stored))
  ∧ (matching ≠ [] ∨ missing ≠ [] →
     out.2 = out.1
     ∧ out.1 = round_ndigits
                 (mul_int (truediv (Z.of_nat m) (Z.of_nat (m + k))) 100) 2)
  ∧ fle fzero out.1 ∧ fle out.1 (of_int 100)
  ∧ (matching = [] → out.1 = fzero).
Proof.
  intros out m k. unfold out, Result_calculate_match_percentage.
  destruct (decide (matching = [] ∧ missing = [])) as [[-> ->]|Hne].
  { split_and!; [done|by intros [?|?]|apply fle_zero_zero
                |apply fle_zero_hundred|done]. }
  assert ((length matching + length missing =? 0)%nat = false) as Hpos.
  { apply Nat.eqb_neq. destruct matching, missing; simpl; try lia.
    by destruct Hne. }
  assert (match matching, missing with
          | [], [] => (fzero, stored)
          | _, _ =>
              if (length matching + length missing =? 0)%nat then (fzero, stored)
              else
                (round_ndigits (mul_int (truediv (Z.of_nat (length matching))
                    (Z.of_nat (length matching + length missing))) 100) 2,
                 round_ndigits (mul_int (truediv (Z.of_nat (length matching))
                    (Z.of_nat (length matching + length missing))) 100) 2)
          end
          = (round_ndigits (mul_int (truediv (Z.of_nat m) (Z.of_nat (m + k))) 100) 2,
             round_ndigits (mul_int (truediv (Z.of_nat m) (Z.of_nat (m + k))) 100) 2))
    as ->.
  { rewrite Hpos. by destruct matching, missing. }
  assert (m + k ≠ 0)%nat as Hmk by (by apply Nat.eqb_neq).
  destruct (truediv_unit (Z.of_nat m) (Z.of_nat (m + k))) as [Hd0 Hd1]; [lia..|].
  destruct (mul_int_percent _ Hd0 Hd1) as [Hm0 Hm1].
  destruct (round_percent _ Hm0 Hm1) as [Hr0 Hr1].
  split_and!; [by intros [-> ->]; destruct Hne|done|done|done|].
  intros Hnil. simpl. unfold m. rewrite Hnil. simpl.
  rewrite truediv_zero by (unfold m in Hmk; rewrite Hnil in Hmk; simpl in *; lia).
  by rewrite mul_int_zero, round_zero.
Qed.

(** X17.  [technical_skills] and [soft_skills] split a collection, each
    keeping the order of the skills. *)
Theorem technical_soft_partition (skills : list Skill) :
  technical_skills skills ++ soft_skills skills ≡ₚ skills
  ∧ technical_skills skills `sublist_of` skills
  ∧ soft_skills skills `sublist_of` skills
  ∧ (∀ s, s ∈ skills → s ∈ technical_skills skills ↔ s ∉ soft_skills skills).
Proof.
  unfold technical_skills, soft_skills. split_and!.
  - apply filter_app_complement.
  - apply sublist_filter.
  - apply sublist_filter.
  - intros s Hs. rewrite !list_elem_of_filter.
    destruct (is_technical s); naive_solver.
Qed.

(* ===================================================================== *)
(** * Feature vectors over the master vocabulary *)
(* ===================================================================== *)

Lemma length_filter_indicator {A} (P : A → Prop) `{∀ x, Decision (P x)}
    (l : list A) :
  length (filter (λ z : Z, z = 1) (map (λ x, if decide (P x) then 1 else 0) l))
  = length (filter P l).
Proof.
  induction l as [|x l IH]; [done|]. cbn [map]. rewrite !filter_cons.
  destruct (decide (P x)).
  - rewrite decide_True by done. simpl. by rewrite IH.
  - rewrite decide_False by done. done.
Qed.

Lemma elem_of_master (resume_skills : list Skill) (jobs : list (list Skill))
    (x : string) :
  x ∈ _create_master_skill_list resume_skills jobs
  ↔ (∃ s, s ∈ resume_skills ∧ x = key s)
    ∨ ∃ job s, job ∈ jobs ∧ s ∈ job ∧ x = key s.
Proof.
  unfold _create_master_skill_list.
  rewrite (proj2 (sorted_spec _)), elem_of_elements.
  rewrite elem_of_add_job_names, elem_of_add_names. set_solver.
Qed.

Lemma NoDup_master (resume_skills : list Skill) (jobs : list (list Skill)) :
  NoDup (_create_master_skill_list resume_skills jobs).
Proof.
  unfold _create_master_skill_list.
  rewrite (proj2 (sorted_spec _)). apply NoDup_elements.
Qed.

(** X27.  The master vocabulary has one word per distinct lowercased name
    of the resume's and the jobs' skills, and it is empty only when the
    resume has no skill and no job requires one.  So the
    ["No skills found for clustering"] error of
    [_calculate_match_with_clustering] cannot occur for a resume with a
    skill, which is all [analyze_skills] passes on. *)
Theorem master_skill_list_empty (resume_skills : list Skill)
    (jobs : list (list Skill)) :
  let master := _create_master_skill_list resume_skills jobs in
  length master = length (remove_dups (map key (resume_skills ++ concat jobs)))
  ∧ (master = [] ↔ resume_skills = [] ∧ Forall (λ job, job = []) jobs)
  ∧ (resume_skills ≠ [] → (length master =? 0)%nat = false).
Proof.
  intros master.
  assert (master = [] ↔ resume_skills = [] ∧ Forall (λ job, job = []) jobs)
    as Hempty.
  { split.
    - intros Hnil.
      assert (∀ x, x ∉ master) as Hnone by (rewrite Hnil; apply not_elem_of_nil).
      split.
      + destruct resume_skills as [|s rest]; [done|].
        destruct (Hnone (key s)). apply elem_of_master. left.
        exists s. split; [by left|done].
      + apply Forall_forall. intros job Hjob.
        destruct job as [|s rest]; [done|].
        destruct (Hnone (key s)). apply elem_of_master. right.
        exists (s :: rest), s. split_and!; [done|by left|done].
    - intros [-> Hjobs]. apply elem_of_nil_inv. intros x.
      unfold master. rewrite elem_of_master.
      intros [(s & []%elem_of_nil & _)|(job & s & Hjob & Hs & _)].
      rewrite Forall_forall in Hjobs. rewrite (Hjobs job Hjob) in Hs.
      by apply elem_of_nil in Hs. }
  split_and!.
  - apply Permutation_length, NoDup_Permutation.
    + apply NoDup_master.
    + apply NoDup_remove_dups.
    + intros x. unfold master.
      rewrite elem_of_master, elem_of_remove_dups, elem_of_map.
      setoid_rewrite elem_of_app. setoid_rewrite elem_of_concat. naive_solver.
  - exact Hempty.
  - intros Hne. apply Nat.eqb_neq. intros Hlen.
    apply nil_length_inv in Hlen. apply Hempty in Hlen as [? _]. done.
Qed.

(** X18.  The vector [_create_skill_vector] builds has one entry per word
    of the vocabulary, each 0 or 1, and the entry of a word is 1 exactly
    when a skill of the set has that lowercased name.  Over the master
    vocabulary built from a resume and jobs, the vector of the resume's
    skills, or of a job's, has as many ones as the set has distinct
    lowercased names: no skill of the set falls outside the vocabulary. *)
Theorem skill_vector_spec (resume_skills : list Skill) (jobs : list (list Skill))
    (skills : list Skill) (vocabulary : list string) :
  let vector := _create_skill_vector skills vocabulary in
  length vector = length vocabulary
  ∧ Forall (λ z, z = 0 ∨ z = 1) vector
  ∧ (∀ i w, vocabulary !! i = Some w →
       ∃ z, vector !! i = Some z ∧ (z = 1 ↔ ∃ s, s ∈ skills ∧ key s = w))
  ∧ (vocabulary = _create_master_skill_list resume_skills jobs →
     skills = resume_skills ∨ skills ∈ jobs →
     length (filter (λ z, z = 1) vector) = length (remove_dups (map key skills))).
Proof.
  intros vector. unfold vector, _create_skill_vector.
  fold (user_skill_names skills). split_and!.
  - by rewrite length_map.
  - apply Forall_forall. intros z (w & _ & ->)%elem_of_map.
    destruct (decide _); auto.
  - intros i w Hw. change (map ?f ?l) with (f <$> l).
    rewrite list_lookup_fmap, Hw. simpl. eexists. split; [done|].
    rewrite <- elem_of_user_skill_names.
    destruct (decide (w ∈ user_skill_names skills)); naive_solver.
  - intros -> Hskills.
    rewrite (length_filter_indicator (λ w, w ∈ user_skill_names skills)).
    apply Permutation_length, NoDup_Permutation.
    + apply NoDup_filter, NoDup_master.
    + apply NoDup_remove_dups.
    + intros x. rewrite list_elem_of_filter, elem_of_remove_dups.
      rewrite elem_of_user_skill_names, elem_of_master, elem_of_map.
      split; [naive_solver|].
      intros (s & Hs & ->). split; [by exists s|].
      destruct Hskills as [->|Hjob]; [left|right]; naive_solver.
Qed.

(* ===================================================================== *)
(** * Queries by name on a stored collection *)
(* ===================================================================== *)

Lemma key_named (n : string) : key (named n) = PyStr.strip (PyStr.lower n).
Proof. apply key_Skill_init_raw. Qed.

Lemma matches_name_named (x : Skill) (n : string) :
  matches_name_val x n = matches_val x (named n).
Proof. unfold matches_name_val, matches_val. by rewrite key_named. Qed.

(** The scan of [has_skill], [get_skill] and [requires_skill] changes
    nothing and stops at the first skill with the queried name. *)
Lemma find_by_name_run st xs n :
  valid_in (skill_objs st) xs →
  find_by_name xs n st = Some (find_match (skill_objs st) xs (named n), st).
Proof.
  unfold valid_in.
  induction 1 as [|e rest [x He] Hrest IH]; cbn [find_match find_by_name].
  - reflexivity.
  - rewrite (bind_run _ _ _ _ _ (read_skill_run _ _ _ He)), He.
    rewrite matches_name_named. by destruct (matches_val x (named n)).
Qed.

Lemma valid_in_alter (f : Skill → Skill) (h : list Skill) (e : loc) (xs : list loc) :
  valid_in h xs → valid_in (alter f e h) xs.
Proof.
  unfold valid_in. intros Hvalid. eapply Forall_impl; [exact Hvalid|].
  intros l [x Hl]. simpl.
  destruct (decide (e = l)) as [->|Hne].
  - rewrite list_lookup_alter_eq, Hl. by eexists.
  - rewrite list_lookup_alter_ne by done. by eexists.
Qed.

Lemma get_skill_run st (r : Resume) q xs :
  list_objs st !! skills r = Some xs → valid_in (skill_objs st) xs →
  get_skill r q st = Some (find_match (skill_objs st) xs (named q), st).
Proof.
  intros Hxs Hvalid. unfold get_skill.
  rewrite (bind_run _ _ _ _ _ (read_list_run _ _ _ Hxs)).
  by apply find_by_name_run.
Qed.

Lemma has_skill_run st (r : Resume) q xs :
  list_objs st !! skills r = Some xs → valid_in (skill_objs st) xs →
  has_skill r q st
  = Some (bool_decide (is_Some (find_match (skill_objs st) xs (named q))), st).
Proof.
  intros Hxs Hvalid. unfold has_skill.
  rewrite (bind_run _ _ _ _ _ (read_list_run _ _ _ Hxs)).
  by rewrite (bind_run _ _ _ _ _ (find_by_name_run _ _ _ Hvalid)).
Qed.

(** X19.  On a resume whose collection is well formed, [get_skill] and
    [has_skill] change nothing; [get_skill] returns the first skill of the
    collection whose lowercased name is the lowercased, stripped query,
    [None] when there is none, and [has_skill] tells whether there is
    one. *)
Theorem has_skill_get_skill_spec (st : store) (r : Resume) (query : string)
    (xs : list loc) :
  list_objs st !! skills r = Some xs →
  valid_in (skill_objs st) xs →
  ∃ found,
    get_skill r query st = Some (found, st)
    ∧ has_skill r query st = Some (bool_decide (is_Some found), st)
    ∧ (∀ l, found = Some l →
         ∃ i x, xs !! i = Some l ∧ skill_objs st !! l = Some x
                ∧ key x = PyStr.strip (PyStr.lower query)
                ∧ ∀ j l' y, (j < i)%nat → xs !! j = Some l' →
                    skill_objs st !! l' = Some y →
                    key y ≠ PyStr.strip (PyStr.lower query))
    ∧ (found = None ↔
       ∀ l x, l ∈ xs → skill_objs st !! l = Some x →
              key x ≠ PyStr.strip (PyStr.lower query)).
Proof.
  intros Hxs Hvalid.
  exists (find_match (skill_objs st) xs (named query)).
  split_and!.
  - by apply get_skill_run.
  - by apply has_skill_run.
  - rewrite <- key_named. generalize (named query). intros v.
    clear Hxs. unfold valid_in in Hvalid.
    induction Hvalid as [|e rest [x He] Hrest IH]; cbn [find_match]; [done|].
    intros l. rewrite He. destruct (matches_val x v) eqn:Hm.
    + intros [= <-]. exists 0%nat, x. split_and!; [done|done| |intros; lia].
      by apply bool_decide_eq_true in Hm.
    + intros Hfound. destruct (IH l Hfound) as (i & y & Hi & Hy & Hkey & Hfirst).
      exists (S i), y. split_and!; [done..|].
      intros [|j] l' y' Hj Hl' Hy'.
      * simpl in Hl'. injection Hl' as <-.
        apply bool_decide_eq_false in Hm. congruence.
      * eapply (Hfirst j); [lia|done..].
  - rewrite find_match_None by done. by rewrite key_named.
Qed.

(** X20.  After [add_skill] the resume has the skill: for a skill whose
    name has no surrounding whitespace, as the constructor leaves it,
    [has_skill] answers [True] for its name and [get_skill] returns a
    skill of the collection with that lowercased name. *)
Theorem add_skill_then_has_skill (st : store) (r : Resume) (skill : loc)
    (v : Skill) (xs : list loc) :
  skill_objs st !! skill = Some v →
  list_objs st !! skills r = Some xs →
  valid_in (skill_objs st) xs →
  trimmed v →
  ∃ st' l x,
    add_skill r skill st = Some (tt, st')
    ∧ has_skill r (name v) st' = Some (true, st')
    ∧ get_skill r (name v) st' = Some (Some l, st')
    ∧ skill_objs st' !! l = Some x
    ∧ key x = key v.
Proof.
  intros Hskill Hxs Hvalid Htrim.
  assert (PyStr.strip (PyStr.lower (name v)) = key v) as Hquery.
  { unfold key. by rewrite <- PyStrMore.lower_strip, Htrim. }
  assert (∃ st' xs' e y,
            add_skill r skill st = Some (tt, st')
            ∧ list_objs st' !! skills r = Some xs'
            ∧ valid_in (skill_objs st') xs'
            ∧ e ∈ xs' ∧ skill_objs st' !! e = Some y ∧ key y = key v)
    as (st' & xs' & e & y & Hrun & Hxs' & Hvalid' & He & Hy & Hkey).
  { rewrite (add_skill_run _ _ _ _ _ Hxs Hskill Hvalid).
    destruct (find_match (skill_objs st) xs v) as [e|] eqn:Hfind.
    - destruct (find_match_Some _ _ _ _ Hfind) as (x & He & Hx & Hkey).
      eexists _, xs, e, (incremented x). split_and!; [done|done| |done| |].
      + by apply valid_in_alter.
      + simpl. by rewrite list_lookup_alter_eq, Hx.
      + by rewrite key_incremented.
    - eexists _, (xs ++ [skill]), skill, v. split_and!; [done| | | |done|done].
      + simpl. apply list_lookup_insert_eq. by eapply lookup_lt_Some.
      + apply Forall_app. split; [done|]. repeat constructor. by eexists.
      + apply elem_of_app. right. by left. }
  pose proof (get_skill_run st' r (name v) xs' Hxs' Hvalid') as Hget.
  pose proof (has_skill_run st' r (name v) xs' Hxs' Hvalid') as Hhas.
  destruct (find_match (skill_objs st') xs' (named (name v))) as [l|] eqn:Hfind.
  - destruct (find_match_Some _ _ _ _ Hfind) as (x & _ & Hx & Hkx).
    rewrite key_named, Hquery in Hkx.
    exists st', l, x. split_and!; [done|done|done|done|done].
  - rewrite find_match_None in Hfind by done.
    destruct (Hfind e y He Hy). by rewrite key_named, Hquery.
Qed.

(* ===================================================================== *)
(** * Filling a collection *)
(* ===================================================================== *)

(** ** Adding on values *)

Lemma entry_nil (k : string) : entry [] k = None.
Proof. done. Qed.

Lemma entry_cons (c : Skill) (cs : list Skill) (k : string) :
  entry (c :: cs) k = if decide (key c = k) then Some c else entry cs k.
Proof.
  unfold entry. cbn [list_find]. destruct (decide (key c = k)); [done|].
  by destruct (list_find _ cs) as [[i x]|].
Qed.

Lemma entry_Some (cs : list Skill) (k : string) (c : Skill) :
  entry cs k = Some c → c ∈ cs ∧ key c = k.
Proof.
  induction cs as [|a cs IH]; [done|]. rewrite entry_cons.
  destruct (decide (key a = k)).
  - intros [= <-]. split; [by left|done].
  - intros [??]%IH. split; [by right|done].
Qed.

Lemma entry_None (cs : list Skill) (k : string) :
  entry cs k = None ↔ k ∉ map key cs.
Proof.
  induction cs as [|a cs IH].
  { rewrite entry_nil. split; [|done]. intros _. apply not_elem_of_nil. }
  rewrite entry_cons. cbn [map]. rewrite not_elem_of_cons, <- IH.
  destruct (decide (key a = k)); naive_solver.
Qed.

Lemma occurrences_cons (c : Skill) (cs : list Skill) (k : string) :
  occurrences (c :: cs) k
  = ((if decide (key c = k) then 1 else 0) + occurrences cs k)%Z.
Proof.
  unfold occurrences. rewrite filter_cons.
  destruct (decide (key c = k)); simpl; lia.
Qed.

Lemma set_frequency_twice (f g : Z) (c : Skill) :
  set_frequency f (set_frequency g c) = set_frequency f c.
Proof. done. Qed.

Lemma set_frequency_same (c : Skill) : set_frequency (frequency c) c = c.
Proof. by destruct c. Qed.

Lemma entry_add_val (cs : list Skill) (v : Skill) (k : string) :
  entry (add_val cs v) k
  = if decide (key v = k)
    then Some (match entry cs k with Some c => incremented c | None => v end)
    else entry cs k.
Proof.
  induction cs as [|c cs IH]; cbn [add_val].
  - rewrite entry_cons, entry_nil. done.
  - unfold matches_val. destruct (decide (key c = key v)) as [Hcv|Hcv].
    + rewrite bool_decide_eq_true_2 by done.
      rewrite !entry_cons, key_incremented.
      destruct (decide (key v = k)) as [<-|Hvk].
      * by rewrite !decide_True.
      * by rewrite !decide_False by congruence.
    + rewrite bool_decide_eq_false_2 by done.
      rewrite !entry_cons, IH.
      destruct (decide (key c = k)) as [<-|Hck]; [|done].
      by rewrite decide_False by congruence.
Qed.

Lemma keys_add_val (cs : list Skill) (v : Skill) :
  map key (add_val cs v)
  = if decide (key v ∈ map key cs) then map key cs else map key cs ++ [key v].
Proof.
  induction cs as [|c cs IH]; cbn [add_val map].
  - rewrite decide_False; [done|]. apply not_elem_of_nil.
  - unfold matches_val. destruct (decide (key c = key v)) as [Hcv|Hcv].
    + rewrite bool_decide_eq_true_2 by done. cbn [map].
      rewrite key_incremented, decide_True; [done|]. rewrite Hcv. by left.
    + rewrite bool_decide_eq_false_2 by done. cbn [map]. rewrite IH.
      destruct (decide (key v ∈ map key cs)) as [Hin|Hout].
      * rewrite decide_True; [done|by right].
      * rewrite decide_False; [done|].
        intros [?|?]%elem_of_cons; congruence.
Qed.

Lemma keys_foldl_add_val (cs vs : list Skill) :
  NoDup (map key cs) →
  NoDup (map key (foldl add_val cs vs))
  ∧ (length (foldl add_val cs vs) ≤ length cs + length vs)%nat
  ∧ ∀ k, k ∈ map key (foldl add_val cs vs) ↔ k ∈ map key cs ∨ k ∈ map key vs.
Proof.
  revert cs. induction vs as [|v vs IH]; intros cs Hcs; cbn [foldl].
  - split_and!; [done|lia|]. intros k. cbn [map]. rewrite elem_of_nil. tauto.
  - assert (NoDup (map key (add_val cs v))) as Hcs'.
    { rewrite keys_add_val. destruct (decide _) as [|Hout]; [done|].
      apply NoDup_app. split_and!; [done| |apply NoDup_singleton].
      intros x Hx ->%list_elem_of_singleton. done. }
    destruct (IH _ Hcs') as (Hnd & Hlen & Hmem). split_and!; [done| |].
    + pose proof (f_equal length (keys_add_val cs v)) as Hl.
      rewrite length_map in Hl.
      destruct (decide (key v ∈ map key cs));
        rewrite ?length_app, ?length_map in Hl; simpl in *; lia.
    + intros k. rewrite Hmem, keys_add_val. cbn [map].
      rewrite elem_of_cons.
      destruct (decide (key v ∈ map key cs)) as [Hin|Hout].
      * naive_solver.
      * rewrite elem_of_app, list_elem_of_singleton. naive_solver.
Qed.

Lemma entry_foldl_add_val (cs vs : list Skill) (k : string) :
  entry (foldl add_val cs vs) k
  = match entry cs k with
    | Some c => Some (set_frequency (frequency c + occurrences vs k) c)
    | None =>
        match entry vs k with
        | Some v => Some (set_frequency (frequency v + occurrences vs k - 1) v)
        | None => None
        end
    end.
Proof.
  revert cs. induction vs as [|v vs IH]; intros cs; cbn [foldl].
  - rewrite entry_nil. destruct (entry cs k) as [c|]; [|done].
    unfold occurrences. simpl. by rewrite Z.add_0_r, set_frequency_same.
  - rewrite IH, entry_add_val, entry_cons, occurrences_cons.
    destruct (decide (key v = k)) as [Hvk|Hvk].
    + destruct (entry cs k) as [c|]; unfold incremented.
      * rewrite set_frequency_twice. simpl. do 2 f_equal. lia.
      * do 2 f_equal. lia.
    + destruct (entry cs k) as [c|]; [done|].
      destruct (entry vs k); [|done]. done.
Qed.

(** X21.  Adding skills one by one to an empty collection, on values,
    leaves one skill per lowercased name: it is the first skill added
    with that name, and its frequency is the frequency that skill came
    with plus the number of later additions of the name.  So a name added
    [n] times by skills of frequency 0 ends with frequency [n - 1]. *)
Theorem add_val_tally (vs : list Skill) :
  let out := foldl add_val [] vs in
  NoDup (map key out)
  ∧ (length out ≤ length vs)%nat
  ∧ (∀ k, k ∈ map key out ↔ k ∈ map key vs)
  ∧ (∀ c, c ∈ out ↔
       ∃ v, entry vs (key c) = Some v
            ∧ c = set_frequency (frequency v + occurrences vs (key c) - 1) v).
Proof.
  intros out.
  destruct (keys_foldl_add_val [] vs) as (Hnd & Hlen & Hmem); [constructor|].
  fold out in Hnd, Hlen, Hmem.
  assert (∀ k, entry out k
             = match entry vs k with
               | Some v => Some (set_frequency (frequency v + occurrences vs k - 1) v)
               | None => None
               end) as Hentry.
  { intros k. unfold out. by rewrite entry_foldl_add_val. }
  assert (∀ c, c ∈ out ↔ entry out (key c) = Some c) as Hunique.
  { intros c. split; [|by intros [??]%entry_Some].
    clear Hentry Hmem Hlen. induction out as [|a out' IH]; [by intros ?%elem_of_nil|].
    cbn [map] in Hnd. apply NoDup_cons in Hnd as [Ha Hnd].
    rewrite entry_cons. intros [->|Hc]%elem_of_cons.
    - by rewrite decide_True.
    - rewrite decide_False; [by apply IH|].
      intros Heq. apply Ha. rewrite Heq. apply elem_of_map. by exists c. }
  split_and!; [done|simpl in Hlen; lia| |].
  - intros k. rewrite Hmem. cbn [map]. rewrite elem_of_nil. tauto.
  - intros c. rewrite Hunique, Hentry.
    destruct (entry vs (key c)) as [v|].
    + split.
      * intros [= Hc]. by exists v.
      * intros (v' & [= <-] & Hc). congruence.
    + split; [done|]. by intros (v & ? & _).
Qed.

(** ** Adding on stored objects *)

Lemma lookups_alter_ne (f : Skill → Skill) (h : list Skill) (e : loc)
    (xs : list loc) (cs : list Skill) :
  e ∉ xs →
  Forall2 (λ l c, h !! l = Some c) xs cs →
  Forall2 (λ l c, alter f e h !! l = Some c) xs cs.
Proof.
  intros He. induction 1 as [|l c xs cs Hl _ IH]; constructor.
  - rewrite list_lookup_alter_ne; [done|]. intros ->. apply He. by left.
  - apply IH. intros ?. apply He. by right.
Qed.

(** One addition, on the store: the collection holds the values
    [add_val] gives, and no object outside it has changed. *)
Lemma add_store_step (h : list Skill) (xs : list loc) (cs : list Skill)
    (v : Skill) :
  Forall2 (λ l c, h !! l = Some c) xs cs → NoDup xs →
  match find_match h xs v with
  | Some e =>
      e ∈ xs
      ∧ Forall2 (λ l c, alter incremented e h !! l = Some c) xs (add_val cs v)
  | None => add_val cs v = cs ++ [v]
  end.
Proof.
  induction 1 as [|a c xs cs Ha Hrest IH]; intros Hnd; cbn [find_match add_val].
  - done.
  - apply NoDup_cons in Hnd as [Hout Hnd]. rewrite Ha.
    destruct (matches_val c v).
    + split; [by left|]. constructor.
      * by rewrite list_lookup_alter_eq, Ha.
      * by apply lookups_alter_ne.
    + specialize (IH Hnd). destruct (find_match h xs v) as [e|].
      * destruct IH as [He IH]. split; [by right|]. constructor; [|done].
        rewrite list_lookup_alter_ne; [done|]. by intros ->.
      * by rewrite IH.
Qed.

Lemma lookups_same (h h' : list Skill) (ls : list loc) (vs : list Skill) :
  (∀ l, l ∈ ls → h' !! l = h !! l) →
  Forall2 (λ l v, h !! l = Some v) ls vs →
  Forall2 (λ l v, h' !! l = Some v) ls vs.
Proof.
  intros Hsame. induction 1 as [|l v ls vs Hl _ IH]; constructor.
  - rewrite Hsame; [done|by left].
  - apply IH. intros l' Hl'. apply Hsame. by right.
Qed.

Lemma lookups_valid (h : list Skill) (xs : list loc) (cs : list Skill) :
  Forall2 (λ l c, h !! l = Some c) xs cs → valid_in h xs.
Proof.
  unfold valid_in. induction 1; constructor; [by eexists|done].
Qed.

(** The store [add_skill] and [add_required_skill] leave when the
    collection [rr] holds distinct objects and the added object is not
    among them. *)
Lemma add_store_inv (st : store) (rr : lref) (xs : list loc) (cs : list Skill)
    (l : loc) (v : Skill) :
  list_objs st !! rr = Some xs →
  Forall2 (λ l c, skill_objs st !! l = Some c) xs cs → NoDup xs →
  skill_objs st !! l = Some v → l ∉ xs →
  let st' :=
    match find_match (skill_objs st) xs v with
    | Some e => mkStore (alter incremented e (skill_objs st)) (list_objs st)
    | None => mkStore (skill_objs st) (<[rr := xs ++ [l]]> (list_objs st))
    end in
  ∃ xs', list_objs st' !! rr = Some xs'
    ∧ Forall2 (λ l c, skill_objs st' !! l = Some c) xs' (add_val cs v)
    ∧ NoDup xs'
    ∧ (∀ l', l' ∈ xs' → l' ∈ xs ∨ l' = l)
    ∧ (∀ l', l' ∉ xs → skill_objs st' !! l' = skill_objs st !! l')
    ∧ length (skill_objs st') = length (skill_objs st)
    ∧ (∀ r', r' ≠ rr → list_objs st' !! r' = list_objs st !! r').
Proof.
  intros Hxs Hcs Hnd Hl Hout st'. unfold st'.
  pose proof (add_store_step _ _ _ v Hcs Hnd) as Hstep.
  destruct (find_match (skill_objs st) xs v) as [e|].
  - destruct Hstep as [He Hstep]. exists xs. simpl.
    split_and!; [done|done|done|by left| |by rewrite length_alter|done].
    intros l' Hl'. rewrite list_lookup_alter_ne; [done|]. by intros ->.
  - exists (xs ++ [l]). simpl. split_and!.
    + apply list_lookup_insert_eq. by eapply lookup_lt_Some.
    + rewrite Hstep. apply Forall2_app; [done|]. by repeat constructor.
    + apply NoDup_app. split_and!; [done| |apply NoDup_singleton].
      by intros x Hx ->%list_elem_of_singleton.
    + intros l' [?| ->%list_elem_of_singleton]%elem_of_app; [by left|by right].
    + done.
    + done.
    + intros r' Hr'. by rewrite list_lookup_insert_ne.
Qed.

Lemma add_skills_run (r : Resume) (ls : list loc) :
  ∀ (vs : list Skill) (st : store) (xs : list loc) (cs : list Skill),
    list_objs st !! skills r = Some xs →
    Forall2 (λ l c, skill_objs st !! l = Some c) xs cs →
    Forall2 (λ l v, skill_objs st !! l = Some v) ls vs →
    NoDup (xs ++ ls) →
    ∃ st' xs',
      add_skills r ls st = Some (tt, st')
      ∧ list_objs st' !! skills r = Some xs'
      ∧ Forall2 (λ l c, skill_objs st' !! l = Some c) xs' (foldl add_val cs vs)
      ∧ (∀ r', r' ≠ skills r → list_objs st' !! r' = list_objs st !! r')
      ∧ (∀ l', l' ∉ xs ++ ls → skill_objs st' !! l' = skill_objs st !! l').
Proof.
  induction ls as [|l ls IH]; intros vs st xs cs Hxs Hcs Hvs Hnd.
  - apply Forall2_nil_inv_l in Hvs as ->. by exists st, xs.
  - apply Forall2_cons_inv_l in Hvs as (v & vs' & Hl & Hvs & ->).
    apply NoDup_app in Hnd as (Hndx & Hdisj & [Hl' Hndl]%NoDup_cons).
    assert (l ∉ xs) as Hout by (intros Hin; apply (Hdisj _ Hin); by left).
    cbn [add_skills foldl].
    rewrite (bind_run _ _ _ _ _
               (add_skill_run _ _ _ _ _ Hxs Hl (lookups_valid _ _ _ Hcs))).
    destruct (add_store_inv st (skills r) xs cs l v Hxs Hcs Hndx Hl Hout)
      as (xs1 & Hxs1 & Hcs1 & Hnd1 & Hsub & Hsame & _ & Hlists).
    set (st1 := match find_match (skill_objs st) xs v with
                | Some e => _ | None => _ end) in *.
    destruct (IH vs' st1 xs1 (add_val cs v) Hxs1 Hcs1)
      as (st' & xs' & Hrun & Hxs' & Hcs' & Hlists' & Hsame').
    + eapply lookups_same; [|exact Hvs].
      intros l0 Hin. apply Hsame.
      intros Hin'. apply (Hdisj _ Hin'). by right.
    + apply NoDup_app. split_and!; [done| |done].
      intros x Hx Hin. destruct (Hsub _ Hx) as [Hx'| ->]; [|done].
      apply (Hdisj _ Hx'). by right.
    + exists st', xs'. split_and!; [done..| |].
      * intros r' Hr'. by rewrite Hlists', Hlists.
      * intros l0 Hl0. rewrite Hsame'.
        -- apply Hsame. intros ?. apply Hl0. apply elem_of_app. by left.
        -- intros [Hin|Hin]%elem_of_app; apply Hl0.
           ++ destruct (Hsub _ Hin) as [?| ->].
              ** apply elem_of_app. by left.
              ** apply elem_of_app. right. by left.
           ++ apply elem_of_app. right. by right.
Qed.

(** X22.  The loop [for skill in skills: resume.add_skill(skill)] over
    distinct skill objects that the collection does not hold yet leaves
    in the collection what adding their values one by one gives, and
    touches neither another list nor an object outside the collection and
    the skills added. *)
Theorem add_skills_spec (st : store) (r : Resume) (ls xs : list loc)
    (vs cs : list Skill) :
  list_objs st !! skills r = Some xs →
  Forall2 (λ l c, skill_objs st !! l = Some c) xs cs →
  Forall2 (λ l v, skill_objs st !! l = Some v) ls vs →
  NoDup (xs ++ ls) →
  ∃ st',
    add_skills r ls st = Some (tt, st')
    ∧ contents st' (skills r) = Some (foldl add_val cs vs)
    ∧ (∀ r', r' ≠ skills r → list_objs st' !! r' = list_objs st !! r')
    ∧ (∀ l', l' ∉ xs ++ ls → skill_objs st' !! l' = skill_objs st !! l').
Proof.
  intros Hxs Hcs Hvs Hnd.
  destruct (add_skills_run r ls vs st xs cs Hxs Hcs Hvs Hnd)
    as (st' & xs' & Hrun & Hxs' & Hcs' & Hlists & Hsame).
  exists st'. split_and!; [done| |done|done].
  apply contents_Some. by exists xs'.
Qed.

Lemma add_val_fresh (cs : list Skill) (v : Skill) :
  key v ∉ map key cs → add_val cs v = cs ++ [v].
Proof.
  induction cs as [|c cs IH]; [done|]. cbn [map add_val].
  intros [Hc Hcs]%not_elem_of_cons. unfold matches_val.
  rewrite bool_decide_eq_false_2 by congruence. by rewrite IH.
Qed.

Lemma foldl_add_val_distinct (cs vs : list Skill) :
  NoDup (map key (cs ++ vs)) → foldl add_val cs vs = cs ++ vs.
Proof.
  revert cs. induction vs as [|v vs IH]; intros cs Hnd; cbn [foldl].
  - by rewrite app_nil_r.
  - assert (key v ∉ map key cs) as Hv.
    { rewrite map_app in Hnd. apply NoDup_app in Hnd as (_ & Hdisj & _).
      intros Hin. apply (Hdisj _ Hin). by left. }
    rewrite add_val_fresh by done. rewrite IH.
    + by rewrite <- app_assoc.
    + by rewrite <- app_assoc.
Qed.

Lemma add_required_names_run (j : Job) (names : list string) :
  ∀ (st : store) (xs : list loc) (cs : list Skill),
    list_objs st !! required_skills j = Some xs →
    Forall2 (λ l c, skill_objs st !! l = Some c) xs cs →
    NoDup xs →
    ∃ st' xs',
      add_required_names j names st = Some (tt, st')
      ∧ list_objs st' !! required_skills j = Some xs'
      ∧ Forall2 (λ l c, skill_objs st' !! l = Some c) xs'
          (foldl add_val cs (map named names))
      ∧ (∀ r', r' ≠ required_skills j → list_objs st' !! r' = list_objs st !! r')
      ∧ (∀ l' v', l' ∉ xs → skill_objs st !! l' = Some v' →
                  skill_objs st' !! l' = Some v').
Proof.
  induction names as [|s names IH]; intros st xs cs Hxs Hcs Hnd.
  - by exists st, xs.
  - cbn [add_required_names map foldl].
    set (l := length (skill_objs st)).
    set (st0 := mkStore (skill_objs st ++ [named s]) (list_objs st)).
    assert (Skill_new s "Technical" true 0 st = Some (l, st0)) as Hnew by done.
    rewrite (bind_run _ _ _ _ _ Hnew).
    assert (Forall2 (λ l c, skill_objs st0 !! l = Some c) xs cs) as Hcs0.
    { eapply Forall2_impl; [exact Hcs|]. intros l0 c0 Hl0. simpl.
      by apply lookup_app_l_Some. }
    assert (skill_objs st0 !! l = Some (named s)) as Hl.
    { simpl. unfold l. by rewrite list_lookup_middle. }
    assert (l ∉ xs) as Hout.
    { intros Hin. apply lookups_valid in Hcs. unfold valid_in in Hcs.
      rewrite Forall_forall in Hcs. destruct (Hcs _ Hin) as [c Hc].
      apply lookup_lt_Some in Hc. unfold l in Hc. lia. }
    rewrite (bind_run _ _ _ _ _
               (add_required_skill_run st0 j l (named s) xs Hxs Hl
                  (lookups_valid _ _ _ Hcs0))).
    destruct (add_store_inv st0 (required_skills j) xs cs l (named s)
                Hxs Hcs0 Hnd Hl Hout)
      as (xs1 & Hxs1 & Hcs1 & Hnd1 & Hsub & Hsame & _ & Hlists).
    set (st1 := match find_match (skill_objs st0) xs (named s) with
                | Some e => _ | None => _ end) in *.
    destruct (IH st1 xs1 (add_val cs (named s)) Hxs1 Hcs1 Hnd1)
      as (st' & xs' & Hrun & Hxs' & Hcs' & Hlists' & Hsame').
    exists st', xs'. split_and!; [done..| |].
    + intros r' Hr'. by rewrite Hlists', Hlists.
    + intros l' v' Hl' Hv'. apply Hsame'.
      * intros Hin. destruct (Hsub _ Hin) as [?| ->]; [done|].
        apply lookup_lt_Some in Hv'. unfold l in Hv'. lia.
      * rewrite Hsame by done. simpl. by apply lookup_app_l_Some.
Qed.

(** X23.  The loop of the sample-job builders,
    [for s in skills: job.add_required_skill(Skill(name=s, category="Technical"))],
    on a job without required skills, leaves what adding the skills built
    from the names one by one gives; when the names are distinct once
    lowercased and stripped these are the skills in the order of the
    names, each with frequency 0.  Objects and lists that existed before
    are untouched. *)
Theorem add_required_names_spec (st : store) (j : Job) (names : list string) :
  list_objs st !! required_skills j = Some [] →
  ∃ st',
    add_required_names j names st = Some (tt, st')
    ∧ contents st' (required_skills j)
      = Some (foldl add_val [] (map named names))
    ∧ (NoDup (map (λ s, PyStr.strip (PyStr.lower s)) names) →
       contents st' (required_skills j) = Some (map named names)
       ∧ Forall (λ c, frequency c = 0) (map named names))
    ∧ (∀ r', r' ≠ required_skills j → list_objs st' !! r' = list_objs st !! r')
    ∧ (∀ l' v', skill_objs st !! l' = Some v' → skill_objs st' !! l' = Some v').
Proof.
  intros Hxs.
  destruct (add_required_names_run j names st [] [] Hxs)
    as (st' & xs' & Hrun & Hxs' & Hcs' & Hlists & Hsame);
    [constructor|constructor|].
  assert (contents st' (required_skills j)
          = Some (foldl add_val [] (map named names))) as Hcontents.
  { apply contents_Some. by exists xs'. }
  exists st'. split_and!; [done|done| |done|].
  - intros Hnd. rewrite Hcontents. split.
    + f_equal. apply (foldl_add_val_distinct []). cbn [app].
      rewrite map_map. erewrite map_ext; [exact Hnd|].
      intros s. apply key_named.
    + apply Forall_forall. by intros c (s & _ & ->)%elem_of_map.
  - intros l' v' Hl'. apply Hsame; [apply not_elem_of_nil|done].
Qed.

(* ===================================================================== *)
(** * The analysis entry point *)
(* ===================================================================== *)

Lemma contents_extend (st : store) (N : list Skill) (L : list (list loc))
    (ref : lref) (ss : list Skill) :
  contents st ref = Some ss →
  contents (mkStore (skill_objs st ++ N) (list_objs st ++ L)) ref = Some ss.
Proof.
  intros (xs & Hxs & Hss)%contents_Some. apply contents_Some.
  exists xs. split; [by apply lookup_app_l_Some|].
  eapply Forall2_impl; [exact Hss|]. intros l s Hl.
  by apply lookup_app_l_Some.
Qed.

Lemma read_contents_run (st : store) (ref : lref) (ss : list Skill) :
  contents st ref = Some ss → read_contents ref st = Some (ss, st).
Proof. unfold read_contents. by intros ->. Qed.

Lemma read_jobs_run (st : store) (jobs : list Job) (js : list (list Skill)) :
  Forall2 (λ job ss, contents st (required_skills job) = Some ss) jobs js →
  read_jobs jobs st = Some (js, st).
Proof.
  induction 1 as [|job ss jobs js Hss _ IH]; [done|]. cbn [read_jobs].
  rewrite (bind_run _ _ _ _ _ (read_contents_run _ _ _ Hss)).
  by rewrite (bind_run _ _ _ _ _ IH).
Qed.

Lemma fst_zip_lookups {A B} (P : A → B → Prop) (xs : list A) (ss : list B) :
  Forall2 P xs ss → (zip xs ss).*1 = xs.
Proof. induction 1; [done|]. simpl. by f_equal. Qed.

(** Sorting a list whose skills all have the same frequency changes
    nothing. *)
Lemma sort_list_constant (st : store) (ref : lref) (ss : list Skill) (c : Z) :
  contents st ref = Some ss →
  Forall (λ s, frequency s = c) ss →
  sort_list_by_frequency ref st = Some (tt, st).
Proof.
  intros Hcontents Hc. unfold sort_list_by_frequency.
  unfold contents in Hcontents.
  destruct (list_objs st !! ref) as [xs|] eqn:Hxs; [|done]. simpl in Hcontents.
  rewrite Hcontents.
  assert (Forall2 (λ l s, skill_objs st !! l = Some s) xs ss) as Hss
    by (by apply mapM_Some).
  rewrite (sort_by_key_desc_constant _ c).
  - rewrite (fst_zip_lookups _ _ _ Hss), list_insert_id by done.
    by destruct st.
  - clear Hcontents Hxs. induction Hss as [|l s xs ss _ _ IH]; [constructor|].
    apply Forall_cons in Hc as [Hs Hc]. constructor; [done|by apply IH].
Qed.

Section AnalysisFacts.
Context `{PyFloat}.
Variable clustering : list Skill → list (list Skill) → option (float * Z * Z).

(** X24.  Without jobs, or for a resume without skills, [analyze_skills]
    returns the empty result: match percentage 0.0, no cluster, two new
    empty skill lists and no analysed job, also when jobs were given.  No
    skill object and no existing list is touched, and the clustering is
    not consulted. *)
Theorem analyze_skills_empty (st : store) (r : Resume) (jobs : list Job) :
  jobs = [] ∨ list_objs st !! skills r = Some [] →
  let n := length (list_objs st) in
  analyze_skills clustering r jobs st
  = Some (mkAnalysis (mkAnalysisResult r [] n (S n)) fzero None 0,
          mkStore (skill_objs st) (list_objs st ++ [[]; []])).
Proof.
  assert (_create_empty_result r st
          = Some (mkAnalysis (mkAnalysisResult r [] (length (list_objs st))
                                (S (length (list_objs st)))) fzero None 0,
                  mkStore (skill_objs st) (list_objs st ++ [[]; []]))) as Hempty.
  { unfold _create_empty_result, AnalysisResult_new, bind, alloc_list, ret. simpl.
    rewrite length_app, <- app_assoc. simpl. by rewrite Nat.add_1_r. }
  intros [->|Hxs] n; [done|]. unfold analyze_skills.
  destruct jobs as [|job rest]; [done|].
  by rewrite (bind_run _ _ _ _ _ (read_list_run _ _ _ Hxs)).
Qed.

(** X25.  With jobs, and skills on the resume, [analyze_skills] returns
    the result of the gap identifier, in the store the gap identifier
    left: every missing skill has frequency 1, so the final sort by
    frequency moves nothing.  The match percentage, the cluster and the
    number of jobs in it are those of the clustering; when the clustering
    raises, the percentage is the simple overlap, there is no cluster and
    the number of jobs is 0. *)
Theorem analyze_skills_spec (st : store) (r : Resume) (jobs : list Job)
    (rs : list Skill) (js : list (list Skill)) :
  contents st (skills r) = Some rs →
  Forall2 (λ job ss, contents st (required_skills job) = Some ss) jobs js →
  Forall (Forall trimmed) js →
  jobs ≠ [] → rs ≠ [] →
  ∃ a st' matching missing,
    analyze_skills clustering r jobs st = Some (a, st')
    ∧ identify_gaps r jobs st = Some (analysis a, st')
    ∧ gap_lists r jobs st = Some (matching, missing)
    ∧ contents st' (matching_skills (analysis a)) = Some matching
    ∧ contents st' (missing_skills (analysis a)) = Some missing
    ∧ Forall (λ s, frequency s = 1) missing
    ∧ match clustering rs js with
      | Some (match_percentage, cluster, in_cluster) =>
          analysis_match_percentage a = match_percentage
          ∧ cluster_id a = Some cluster
          ∧ jobs_in_same_cluster a = in_cluster
      | None =>
          analysis_match_percentage a = _calculate_simple_overlap rs js
          ∧ cluster_id a = None
          ∧ jobs_in_same_cluster a = 0
      end.
Proof.
  intros Hrs Hjs Htrim Hjobs Hrsne.
  destruct (identify_gaps_run st r jobs rs js Hrs Hjs)
    as (N' & ms' & mis' & Hrun & _).
  destruct (gap_lists_missing_frequency st r jobs rs js Hrs Hjs Htrim)
    as (matching & missing & Hgap & Hfreq).
  pose proof Hgap as Hlists. unfold gap_lists in Hlists. rewrite Hrun in Hlists.
  set (result := mkAnalysisResult r jobs (length (list_objs st))
                   (S (length (list_objs st)))) in *.
  set (st1 := mkStore (skill_objs st ++ N') (list_objs st ++ [ms'; mis'])) in *.
  destruct (contents st1 (matching_skills result)) as [matching'|] eqn:Hm;
    [|done].
  destruct (contents st1 (missing_skills result)) as [missing'|] eqn:Hmis;
    [|done].
  simpl in Hlists. injection Hlists as -> ->.
  pose proof Hrs as (xs & Hxs & Hlook)%contents_Some.
  assert (analyze_skills clustering r jobs st
          = Some (match clustering rs js with
                  | Some (match_percentage, cluster, in_cluster) =>
                      mkAnalysis result match_percentage (Some cluster) in_cluster
                  | None =>
                      mkAnalysis result (_calculate_simple_overlap rs js) None 0
                  end, st1)) as Hanalyze.
  { unfold analyze_skills. destruct jobs as [|job rest]; [done|].
    rewrite (bind_run _ _ _ _ _ (read_list_run _ _ _ Hxs)).
    destruct xs as [|x xs'].
    { apply Forall2_nil_inv_l in Hlook. done. }
    rewrite (bind_run _ _ _ _ _ Hrun).
    rewrite (bind_run _ _ _ _ _
               (read_contents_run st1 _ _ (contents_extend st _ _ _ _ Hrs))).
    assert (Forall2 (λ job ss, contents st1 (required_skills job) = Some ss)
              (job :: rest) js) as Hjs1.
    { eapply Forall2_impl; [exact Hjs|]. intros j ss. apply contents_extend. }
    rewrite (bind_run _ _ _ _ _ (read_jobs_run st1 _ _ Hjs1)).
    destruct (clustering rs js) as [[[p c] n]|];
      by rewrite (bind_run _ _ _ _ _ (sort_list_constant st1 _ _ 1 Hmis Hfreq)). }
  eexists _, st1, matching, missing.
  split; [exact Hanalyze|].
  destruct (clustering rs js) as [[[p c] n]|]; simpl; by split_and!.
Qed.

End AnalysisFacts.

(** X26.  Whatever the gap identifier reports as missing comes out of
    the sorts by frequency unchanged: the in-place sort of
    [analyze_skills] and the sorted copy of [top_missing_skills] keep the
    order in which the jobs first named the skills, and the top list is
    the first 10 of them. *)
Theorem missing_skills_sort_noop (st : store) (r : Resume) (jobs : list Job)
    (rs : list Skill) (js : list (list Skill)) :
  contents st (skills r) = Some rs →
  Forall2 (λ job ss, contents st (required_skills job) = Some ss) jobs js →
  Forall (Forall trimmed) js →
  ∃ matching missing,
    gap_lists r jobs st = Some (matching, missing)
    ∧ sort_by_key_desc frequency missing = missing
    ∧ top_missing_skills missing = take 10 missing
    ∧ map key missing
      = filter (λ k, k ∉ map key rs) (aggregate (concat js)).*1.
Proof.
  intros Hrs Hjs Htrim.
  pose proof (gap_lists_spec st r jobs rs js Hrs Hjs Htrim) as Hspec.
  simpl in Hspec. eexists _, _. split; [exact Hspec|].
  set (acc := aggregate (concat js)) in *.
  set (user := list_to_set (map key rs) : gset string) in *.
  assert (Forall (λ s, frequency s = 1)
            (set_frequency 1 <$> (filter (λ ka, ka.1 ∉ user) acc).*2)) as Hfreq.
  { apply Forall_fmap, Forall_forall. done. }
  assert (sort_by_key_desc frequency
            (set_frequency 1 <$> (filter (λ ka, ka.1 ∉ user) acc).*2)
          = set_frequency 1 <$> (filter (λ ka, ka.1 ∉ user) acc).*2) as Hsort.
  { by apply (sort_by_key_desc_constant frequency 1). }
  split_and!.
  - exact Hsort.
  - unfold top_missing_skills. by rewrite Hsort.
  - destruct (aggregate_spec (concat js)) as (Hnodup & _ & Hkeyed).
    fold acc in Hnodup, Hkeyed.
    assert (keyed acc) as Hacc.
    { apply Hkeyed. apply Forall_forall. intros s (ss & Hss & Hs)%elem_of_concat.
      rewrite Forall_forall in Htrim. specialize (Htrim ss Hss).
      rewrite Forall_forall in Htrim. by apply Htrim. }
    change (map key ?l) with (key <$> l).
    rewrite <- list_fmap_compose.
    clear Hspec Hfreq Hsort Hnodup Hkeyed.
    induction acc as [|[k a] acc IH]; [done|].
    apply Forall_cons in Hacc as [Hka Hacc]. simpl in Hka.
    assert (k ∈ user ↔ k ∈ key <$> rs) as Huser.
    { unfold user. by rewrite elem_of_list_to_set. }
    rewrite (fmap_cons fst), !filter_cons.
    repeat case_decide; simpl in *; try tauto; try (by apply IH).
    rewrite key_set_frequency, Hka. f_equal. by apply IH.
Qed.

(* ===================================================================== *)
(** * Instances of the statements above *)
(* ===================================================================== *)


Lemma extract_skills_from_list_spec_witness :
  Forall (λ s, frequency s = 1 ∧ trimmed s ∧ key s ≠ "" ∧ key s ∉ (∅ : gset string))
    (extract_skills_from_list ∅ ∅ ∅ ["python"; "  "; " SQL "]).
Proof.
  apply (extract_skills_from_list_spec ∅ ∅ ∅ ["python"; "  "; " SQL "]).
  by repeat constructor.
Defined.

Lemma generate_learning_path_success_witness :
  let F := ExactFloat.exact in
  let result :=
    mkResultView (65 # 1)%Q [Skill_init "docker" "DevOps" true 1] [] in
  (generate_learning_path (λ _ _, inr []) "2026-01-01 10:00" result []).2
  = [("Docker", 3)].
Proof.
  intros F result.
  rewrite (generate_learning_path_success (λ _ _, inr []) "2026-01-01 10:00"
             (λ _, []) result []).
  - reflexivity.
  - discriminate.
  - by intros.
  - apply NoDup_singleton.
Defined.

Lemma plan_week_milestones_witness :
  let F := ExactFloat.exact in
  let docker := Skill_init "docker" "DevOps" true 1 in
  let aws := Skill_init "aws" "Cloud" true 1 in
  let w :=
    mkWeekData 1 [docker; aws] [("Docker", []); ("Aws", [])]
      (_generate_milestones 1 [docker; aws]) in
  length (milestones w) = 6%nat.
Proof.
  intros F docker aws w.
  apply (plan_week_milestones [docker; aws] [] w). by left.
Defined.

Lemma job_match_percentage_spec_witness :
  let python := Skill_init "Python" "Programming Language" true 1 in
  let sql := Skill_init "SQL" "Database" true 1 in
  let docker := Skill_init "Docker" "DevOps" true 1 in
  @fle ExactFloat.exact
    (@Job_calculate_match_percentage ExactFloat.exact [python; docker] [python; sql])
    (inject_Z 100).
Proof.
  intros python sql docker.
  apply (job_match_percentage_spec ExactFloat.exact ExactFloatFacts.exact_laws
           [python; docker] [python; sql]).
Defined.

Lemma result_match_percentage_spec_witness :
  let python := Skill_init "Python" "Programming Language" true 1 in
  let docker := Skill_init "Docker" "DevOps" true 1 in
  @fle ExactFloat.exact
    (@Result_calculate_match_percentage ExactFloat.exact [python] [docker] 0%Q).1
    (inject_Z 100).
Proof.
  intros python docker.
  apply (result_match_percentage_spec ExactFloat.exact ExactFloatFacts.exact_laws
           [python] [docker] 0%Q).
Defined.

Lemma has_skill_get_skill_spec_witness :
  ∃ found,
    get_skill example_resume " PYTHON " example_store
    = Some (found, example_store).
Proof.
  destruct (has_skill_get_skill_spec example_store example_resume " PYTHON "
              [0; 1; 2]%nat eq_refl) as (found & Hget & _).
  - repeat constructor; by eexists.
  - by exists found.
Defined.

Lemma add_skill_then_has_skill_witness :
  ∃ st',
    add_skill example_resume 4 example_store = Some (tt, st')
    ∧ has_skill example_resume "Docker" st' = Some (true, st').
Proof.
  destruct (add_skill_then_has_skill example_store example_resume 4%nat
              (Skill_init "Docker" "DevOps" true 0) [0; 1; 2]%nat
              eq_refl eq_refl) as (st' & l & x & Hrun & Hhas & _).
  - repeat constructor; by eexists.
  - reflexivity.
  - by exists st'.
Defined.

Lemma add_skills_spec_witness :
  let python := Skill_init "python" "Programming Language" true 1 in
  let PYTHON := Skill_init " PYTHON " "Technical" true 0 in
  let sql := Skill_init "sql" "Database" true 1 in
  let st := mkStore [python; PYTHON; sql] [[]] in
  let r := mkResume "cv.pdf" PDF "" 0 in
  ∃ st',
    add_skills r [0; 1; 2]%nat st = Some (tt, st')
    ∧ contents st' (skills r) = Some [set_frequency 2 python; sql].
Proof.
  intros python PYTHON sql st r.
  destruct (add_skills_spec st r [0; 1; 2]%nat [] [python; PYTHON; sql] []
              eq_refl) as (st' & Hrun & Hcontents & _).
  - constructor.
  - by repeat constructor.
  - by apply (bool_decide_unpack _).
  - by exists st'.
Defined.

Lemma add_required_names_spec_witness :
  let st := mkStore [] [[]] in
  let j := mkJob "Developer" "Tech Corp" "" 0 in
  ∃ st',
    add_required_names j ["Python"; "sql"; " python "] st = Some (tt, st')
    ∧ contents st' (required_skills j)
      = Some [set_frequency 1 (named "Python"); named "sql"].
Proof.
  intros st j.
  destruct (add_required_names_spec st j ["Python"; "sql"; " python "] eq_refl)
    as (st' & Hrun & Hcontents & _).
  by exists st'.
Defined.

Lemma analyze_skills_empty_witness :
  @analyze_skills ExactFloat.exact (λ _ _, None) example_resume [] example_store
  = Some (@mkAnalysis ExactFloat.exact (mkAnalysisResult example_resume [] 3 4)
            0%Q None 0,
          mkStore (skill_objs example_store)
            (list_objs example_store ++ [[]; []])).
Proof.
  apply (@analyze_skills_empty ExactFloat.exact (λ _ _, None) example_store
           example_resume []).
  by left.
Defined.

Lemma analyze_skills_spec_witness :
  ∃ a st',
    @analyze_skills ExactFloat.exact (λ _ _, None) example_resume example_jobs
      example_store = Some (a, st')
    ∧ cluster_id a = None.
Proof.
  destruct (@analyze_skills_spec ExactFloat.exact (λ _ _, None) example_store
              example_resume example_jobs _ _
              (proj1 example_contents) (proj2 example_contents))
    as (a & st' & matching & missing & Hrun & _ & _ & _ & _ & _ & Hcluster).
  - repeat constructor.
  - discriminate.
  - discriminate.
  - exists a, st'. split; [done|]. by destruct Hcluster as (_ & ? & _).
Defined.

Lemma missing_skills_sort_noop_witness :
  ∃ matching missing,
    gap_lists example_resume example_jobs example_store = Some (matching, missing)
    ∧ top_missing_skills missing = take 10 missing.
Proof.
  destruct (missing_skills_sort_noop example_store example_resume example_jobs _ _
              (proj1 example_contents) (proj2 example_contents))
    as (matching & missing & Hrun & _ & Htop & _).
  - repeat constructor.
  - by exists matching, missing.
Defined.
